(** * Product import pipeline: a shallow embedding of [app/tasks.py],
      [app/crud.py], [app/models.py] and, of [app/main.py], the status
      reader, the filters, the form fields, the product listing and the
      product endpoints.

    Conventions of the embedding.
    - Python [str] is [string]; the model covers ASCII text, so [str.strip]
      removes the ASCII characters for which [str.isspace] holds and
      [str.lower] maps [A-Z] to [a-z].
    - A Python [dict] is an association list kept in insertion order
      ([dict_set] overwrites in place, as assignment to an existing key does).
    - The Redis status store and the file system are [gmap]s.
    - Code that can raise returns a [result]; the relational store, the
      status store and the file system are threaded through explicitly.
    - Library code the repository calls but does not contain is either
      modelled from its documentation ([decimal.Decimal], the PostgreSQL
      insert-or-update, the flush of an ORM session) or taken as a
      parameter ([csv.reader], [int] on the batch size setting,
      [datetime.utcnow], the driver's error text, the [ILIKE] match and
      the row order of PostgreSQL).
    - The percentage of the status reader is computed in binary floating
      point, as Python computes it. *)

From Stdlib Require Import Ascii String ZArith Lia.
From stdpp Require Import gmap strings list fin_maps pretty.

(** ** Python strings *)

Module PyStr.

(** [str.isspace] on the ASCII range: TAB..CR, FS..US and the blank. *)
Definition is_space (c : ascii) : bool :=
  let n := nat_of_ascii c in
  (Nat.leb 9 n && Nat.leb n 13) || (Nat.leb 28 n && Nat.leb n 32).

Fixpoint lstrip (s : string) : string :=
  match s with
  | EmptyString => EmptyString
  | String c s' => if is_space c then lstrip s' else s
  end.

Fixpoint rstrip (s : string) : string :=
  match s with
  | EmptyString => EmptyString
  | String c s' =>
      match rstrip s' with
      | EmptyString => if is_space c then EmptyString else String c EmptyString
      | r => String c r
      end
  end.

Definition strip (s : string) : string := rstrip (lstrip s).

Definition lower_char (c : ascii) : ascii :=
  let n := nat_of_ascii c in
  if Nat.leb 65 n && Nat.leb n 90 then ascii_of_nat (n + 32) else c.

Fixpoint lower (s : string) : string :=
  match s with
  | EmptyString => EmptyString
  | String c s' => String (lower_char c) (lower s')
  end.

(** [s.replace(c, "")] for a one-character pattern [c]. *)
Fixpoint remove_char (c : ascii) (s : string) : string :=
  match s with
  | EmptyString => EmptyString
  | String a s' =>
      if Ascii.eqb a c then remove_char c s' else String a (remove_char c s')
  end.

(** Python truthiness of a string: [not s] is [is_empty s]. *)
Definition is_empty (s : string) : bool :=
  match s with EmptyString => true | _ => false end.

(** [x or ""] for an optional string. *)
Definition or_empty (x : option string) : string :=
  match x with Some s => s | None => "" end.

(** [s or None]: the empty string becomes [None]. *)
Definition or_none (s : string) : option string :=
  if is_empty s then None else Some s.

End PyStr.

(** ** Python dictionaries, in insertion order *)

Section PyDict.
Context {K V : Type} `{EqDecision K}.

(** [d[k] = v]: an existing key keeps its position, a new one is appended. *)
Fixpoint dict_set (k : K) (v : V) (d : list (K * V)) : list (K * V) :=
  match d with
  | [] => [(k, v)]
  | (k', v') :: d' =>
      if decide (k = k') then (k', v) :: d' else (k', v') :: dict_set k v d'
  end.

(** [d.get(k)] *)
Fixpoint dict_get (k : K) (d : list (K * V)) : option V :=
  match d with
  | [] => None
  | (k', v) :: d' => if decide (k = k') then Some v else dict_get k d'
  end.

(** [list(d.values())] *)
Definition dict_values (d : list (K * V)) : list V := d.*2.

Definition dict_keys (d : list (K * V)) : list K := d.*1.

End PyDict.

(** ** [decimal.Decimal], as far as [_parse_price_to_cents] uses it

    Modelled from the General Decimal Arithmetic rules the [decimal] module
    implements: the numeric-string grammar (sign, digits, point, exponent,
    [Inf]/[NaN] words, underscores dropped, surrounding blanks stripped),
    multiplication under the default context (precision 28, half-even
    rounding, [Overflow] trapped, exponent limit 999999) and truncation by
    [int]. *)

Module PyDecimal.

Inductive t :=
| Finite (neg : bool) (coeff : N) (exp : Z)
| Infinity (neg : bool)
| NaN.

Definition digit_of (c : ascii) : option N :=
  let n := N_of_ascii c in
  if (N.leb 48 n && N.leb n 57)%N then Some (n - 48)%N else None.

(** The longest prefix of digits: its value on top of [acc], how many
    digits were read on top of [cnt], and the rest of the text. *)
Fixpoint take_digits (s : string) (acc : N) (cnt : nat) : N * nat * string :=
  match s with
  | EmptyString => (acc, cnt, s)
  | String c s' =>
      match digit_of c with
      | Some d => take_digits s' (acc * 10 + d)%N (S cnt)
      | None => (acc, cnt, s)
      end
  end.

Definition take_sign (s : string) : bool * string :=
  match s with
  | String "-" s' => (true, s')
  | String "+" s' => (false, s')
  | _ => (false, s)
  end.

(** [exponent-part ::= ('e' | 'E') [sign] digits], up to the end. *)
Definition parse_exponent (s : string) : option Z :=
  match s with
  | EmptyString => Some 0%Z
  | String c s' =>
      if Ascii.eqb (PyStr.lower_char c) "e" then
        let '(neg, s1) := take_sign s' in
        match take_digits s1 0%N 0 with
        | (_, O, _) => None
        | (e, S _, EmptyString) =>
            Some (if neg then (- Z.of_N e)%Z else Z.of_N e)
        | _ => None
        end
      else None
  end.

(** [decimal-part [exponent-part]] *)
Definition parse_finite (neg : bool) (s : string) : option t :=
  let '(ip, ni, s1) := take_digits s 0%N 0 in
  let '(c, nf, s2) :=
    match s1 with
    | String "." s1' => take_digits s1' ip 0
    | _ => (ip, 0, s1)
    end in
  match ni + nf with
  | O => None
  | S _ =>
      match parse_exponent s2 with
      | Some e => Some (Finite neg c (e - Z.of_nat nf))
      | None => None
      end
  end.

Definition all_digits (s : string) : bool :=
  match take_digits s 0%N 0 with
  | (_, _, EmptyString) => true
  | _ => false
  end.

(** [Decimal(s)]; [None] stands for [InvalidOperation]. *)
Definition of_string (s : string) : option t :=
  let s := PyStr.remove_char "_" (PyStr.strip s) in
  let '(neg, body) := take_sign s in
  let w := PyStr.lower body in
  if String.eqb w "inf" || String.eqb w "infinity" then Some (Infinity neg)
  else
    match w with
    | String "n" (String "a" (String "n" d))
    | String "s" (String "n" (String "a" (String "n" d))) =>
        (* a signalling NaN traps in the product and a quiet one in
           [int]; the two are not told apart *)
        if all_digits d then Some NaN else None
    | _ => parse_finite neg body
    end.

Definition prec : nat := 28.
Definition Emax : Z := 999999.

Definition ndigits (c : N) : nat := Decimal.nb_digits (N.to_uint c).

(** Round a coefficient to [prec] digits, half to even; the exponent
    grows by the number of digits dropped. *)
Definition round_prec (c : N) (e : Z) : N * Z :=
  let n := ndigits c in
  if Nat.leb n prec then (c, e)
  else
    let k := N.of_nat (n - prec) in
    let p := (10 ^ k)%N in
    let q := (c / p)%N in
    let r := (c mod p)%N in
    let q' :=
      match (2 * r ?= p)%N with
      | Gt => (q + 1)%N
      | Eq => if N.odd q then (q + 1)%N else q
      | Lt => q
      end in
    if (q' =? 10 ^ N.of_nat prec)%N
    then ((q' / 10)%N, (e + Z.of_N k + 1)%Z)
    else (q', (e + Z.of_N k)%Z).

(** [d * 100] under the default context; [None] stands for a trapped
    signal ([Overflow]). *)
Definition mul_100 (d : t) : option t :=
  match d with
  | Finite neg c e =>
      let '(c', e') := round_prec (c * 100)%N e in
      if (c' =? 0)%N then Some (Finite neg 0%N e')
      else if (Emax <? e' + Z.of_nat (ndigits c') - 1)%Z then None
      else Some (Finite neg c' e')
  | Infinity neg => Some (Infinity neg)
  | NaN => Some NaN
  end.

(** [int(d)]: truncation towards zero; [None] stands for the
    [OverflowError] or [ValueError] of an infinity or a NaN. *)
Definition to_int (d : t) : option Z :=
  match d with
  | Finite neg c e =>
      let m :=
        if (0 <=? e)%Z then (Z.of_N c * 10 ^ e)%Z
        else (Z.of_N c / 10 ^ (- e))%Z in
      Some (if neg then (- m)%Z else m)
  | _ => None
  end.

End PyDecimal.

(** ** [app/tasks.py]: the row normalizer *)

(** [_parse_price_to_cents] *)
Definition _parse_price_to_cents (value : option string) : option Z :=
  match value with
  | None => None
  | Some value =>
      if PyStr.is_empty value then None
      else
        let cleaned :=
          PyStr.strip (PyStr.remove_char "," (PyStr.remove_char "$" value)) in
        if PyStr.is_empty cleaned then None
        else
          match PyDecimal.of_string cleaned with
          | None => None
          | Some d =>
              match PyDecimal.mul_100 d with
              | None => None
              | Some d100 =>
                  match PyDecimal.to_int d100 with
                  | None => None
                  | Some cents => if (0 <=? cents)%Z then Some cents else None
                  end
              end
          end
  end.

(** [a or b] on optional integers: [None] and [0] are both falsy. *)
Definition py_or_int (a b : option Z) : option Z :=
  match a with
  | Some n => if (n =? 0)%Z then b else Some n
  | None => b
  end.

(** The canonical record: the dict [_normalize_row] returns. *)
Record ProductRow := {
  sku : string;
  name : option string;
  description : option string;
  price_cents : option Z;
  active : bool;
}.

(** A row as [csv.DictReader] yields it: header name to cell, where a cell
    a short line does not reach is [None].  (The entry the reader adds
    under the key [None] for surplus cells is left out: its normalised key
    is the empty string, which [_normalize_row] never looks up.) *)
Definition RawRow := list (string * option string).

(** The dict comprehension of [_normalize_row]: keys stripped and
    lower-cased, a later item overwriting an earlier one. *)
Definition normalize_keys (row : RawRow) : list (string * option string) :=
  fold_left (fun d kv => dict_set (PyStr.lower (PyStr.strip kv.1)) kv.2 d) row [].

(** [normalized.get(k)], where a missing key and a [None] cell both read
    as [None]. *)
Definition get_cell (normalized : list (string * option string)) (k : string)
  : option string :=
  match dict_get k normalized with
  | Some v => v
  | None => None
  end.

Definition inactive_words : list string := ["false"; "0"; "no"; "inactive"].

(** [_normalize_row]; [None] is the rejection. *)
Definition _normalize_row (row : RawRow) : option ProductRow :=
  let normalized := normalize_keys row in
  let sku := PyStr.strip (PyStr.or_empty (get_cell normalized "sku")) in
  if PyStr.is_empty sku then None
  else
    let active_value :=
      PyStr.lower (PyStr.strip (PyStr.or_empty (get_cell normalized "active"))) in
    let active := if decide (active_value ∈ inactive_words) then false else true in
    let price_cents :=
      py_or_int (_parse_price_to_cents (get_cell normalized "price_cents"))
                (_parse_price_to_cents (get_cell normalized "price")) in
    Some {| sku := sku;
            name := PyStr.or_none (PyStr.strip (PyStr.or_empty (get_cell normalized "name")));
            description :=
              PyStr.or_none (PyStr.strip (PyStr.or_empty (get_cell normalized "description")));
            price_cents := price_cents;
            active := active |}.

(** [_dedupe_batch] *)
Definition _dedupe_batch (rows : list ProductRow) : list ProductRow :=
  dict_values
    (fold_left (fun deduped item => dict_set (PyStr.lower (sku item)) item deduped)
               rows []).

(** ** [app/models.py] and [app/crud.py]: the relational store *)

Module Product.
(** A row of the [products] table. *)
Record t := {
  id : Z;
  sku : string;
  name : option string;
  description : option string;
  price_cents : option Z;
  active : bool;
  created_at : Z;
  updated_at : Z;
}.

(** The expression of the unique index [ix_products_lower_sku_unique]. *)
Definition lower_sku (p : t) : string := PyStr.lower (sku p).
End Product.

(** The table in insertion order, the sequence behind [id], and how many
    times the Python-side default [datetime.utcnow] has been called. *)
Record Store := {
  products : list Product.t;
  next_id : Z;
  clock_reads : nat;
}.

Inductive DbError :=
| StringDataRightTruncation
| NumericValueOutOfRange
| CardinalityViolation.

Inductive Exn :=
| FileNotFoundError (path : string)
| ValueError (msg : string)
| DBAPIError (e : DbError).

Inductive result (A : Type) :=
| Ok (a : A)
| Raise (e : Exn).
Arguments Ok {A} a.
Arguments Raise {A} e.

(** The conflict target of a proposed row: [lower(sku)]. *)
Definition row_key (r : ProductRow) : string := PyStr.lower (sku r).

Definition fits (n : nat) (o : option string) : bool :=
  match o with
  | Some s => Nat.leb (String.length s) n
  | None => true
  end.

Definition int4_max : Z := 2147483647.

(** The column types of [Product]: [String(100)], [String(300)],
    [String(2000)] and [Integer]. *)
Definition check_columns (r : ProductRow) : option DbError :=
  if negb (Nat.leb (String.length (sku r)) 100) then Some StringDataRightTruncation
  else if negb (fits 300 (name r)) then Some StringDataRightTruncation
  else if negb (fits 2000 (description r)) then Some StringDataRightTruncation
  else
    match price_cents r with
    | Some c =>
        if (c <=? int4_max)%Z && (- int4_max - 1 <=? c)%Z then None
        else Some NumericValueOutOfRange
    | None => None
    end.

(** The [set_] of [on_conflict_do_update]: the four columns named there
    take the proposed values; nothing else is assigned (a Python-side
    [onupdate] is not applied by an ON CONFLICT update). *)
Definition on_conflict_set (p : Product.t) (r : ProductRow) : Product.t :=
  {| Product.id := Product.id p;
     Product.sku := Product.sku p;
     Product.name := name r;
     Product.description := description r;
     Product.price_cents := price_cents r;
     Product.active := active r;
     Product.created_at := Product.created_at p;
     Product.updated_at := Product.updated_at p |}.

(** Insert [fresh] unless a row holds the key of [r]; that row is updated
    in place. *)
Fixpoint insert_or_update (r : ProductRow) (fresh : Product.t)
    (ps : list Product.t) : list Product.t :=
  match ps with
  | [] => [fresh]
  | p :: ps' =>
      if decide (Product.lower_sku p = row_key r)
      then on_conflict_set p r :: ps'
      else p :: insert_or_update r fresh ps'
  end.

Fixpoint chunks_fuel {A} (fuel n : nat) (l : list A) : list (list A) :=
  match fuel with
  | O => []
  | S fuel' =>
      match l with
      | [] => []
      | _ => take n l :: chunks_fuel fuel' n (drop n l)
      end
  end.

(** [rows_list[i : i + n] for i in range(0, len(rows_list), n)], [n > 0]. *)
Definition chunks {A} (n : nat) (l : list A) : list (list A) :=
  chunks_fuel (length l) n l.

Definition default_chunk_size : nat := 5000.

Section Store.
(** [utcnow k] is what the [k]-th call of [datetime.utcnow] returns. *)
Variable utcnow : nat -> Z.

(** The tuple proposed for insertion: [id] from the sequence, the two
    timestamps from their Python-side defaults. *)
Definition proposed (st : Store) (r : ProductRow) : Product.t :=
  {| Product.id := next_id st;
     Product.sku := sku r;
     Product.name := name r;
     Product.description := description r;
     Product.price_cents := price_cents r;
     Product.active := active r;
     Product.created_at := utcnow (clock_reads st);
     Product.updated_at := utcnow (S (clock_reads st)) |}.

(** One proposed row of the statement: the defaults are consumed
    whether the row is inserted or meets a conflict. *)
Definition upsert_one (r : ProductRow) (st : Store) : Store :=
  {| products := insert_or_update r (proposed st r) (products st);
     next_id := (next_id st + 1)%Z;
     clock_reads := S (S (clock_reads st)) |}.

(** One [INSERT ... ON CONFLICT (lower(sku)) DO UPDATE] over a chunk.
    [touched] holds the keys this statement has inserted or updated: a
    second proposal for one of them is PostgreSQL's "command cannot
    affect row a second time". *)
Fixpoint execute (chunk : list ProductRow) (touched : list string)
    (st : Store) : DbError + Store :=
  match chunk with
  | [] => inr st
  | r :: rest =>
      match check_columns r with
      | Some e => inl e
      | None =>
          if decide (row_key r ∈ touched) then inl CardinalityViolation
          else execute rest (row_key r :: touched) (upsert_one r st)
      end
  end.

(** The loop over the chunks inside [engine.begin()];
    [result.rowcount] is the number of rows of the chunk. *)
Fixpoint execute_chunks (cs : list (list ProductRow)) (processed : Z)
    (st : Store) : DbError + (Store * Z) :=
  match cs with
  | [] => inr (st, processed)
  | chunk :: cs' =>
      match execute chunk [] st with
      | inl e => inl e
      | inr st' =>
          let rowcount := Z.of_nat (length chunk) in
          let n := if (rowcount =? 0)%Z then Z.of_nat (length chunk) else rowcount in
          execute_chunks cs' (processed + n)%Z st'
      end
  end.

(** [upsert_products_bulk]: on an error the transaction of
    [engine.begin()] is rolled back, so the caller keeps the rows it had
    (what a failed statement has drawn from the sequence is not tracked). *)
Definition upsert_products_bulk (rows : list ProductRow) (chunk_size : nat)
    (st : Store) : result (Store * Z) :=
  match rows with
  | [] => Ok (st, 0%Z)
  | _ =>
      match chunk_size with
      | O => Raise (ValueError "range() arg 3 must not be zero")
      | _ =>
          match execute_chunks (chunks chunk_size rows) 0%Z st with
          | inl e => Raise (DBAPIError e)
          | inr (st', processed) => Ok (st', processed)
          end
      end
  end.

End Store.

(** ** [app/tasks.py]: status store, file system and the import job *)

(** A value as written to Redis; an integer is stored as its decimal text
    and read back by [int]. *)
Inductive RedisValue :=
| RStr (s : string)
| RInt (z : Z).

(** What the job can touch: the files by path, the Redis keys, the
    relational store, and (for the order of publication) the sequence of
    the [redis_client.set] calls made so far, oldest first. *)
Record World := {
  files : gmap string string;
  redis : gmap string RedisValue;
  db : Store;
  published : list (string * RedisValue);
}.

(** [_task_key] *)
Definition _task_key (task_id suffix : string) : string :=
  "task:" +:+ task_id +:+ ":" +:+ suffix.

Definition redis_set (k : string) (v : RedisValue) (w : World) : World :=
  {| files := files w;
     redis := <[k := v]> (redis w);
     db := db w;
     published := published w ++ [(k, v)] |}.

(** [_set_task_state]: one [set] per keyword argument, in their order. *)
Definition _set_task_state (task_id : string) (state : list (string * RedisValue))
    (w : World) : World :=
  fold_left (fun w kv => redis_set (_task_key task_id kv.1) kv.2 w) state w.

Definition with_db (st : Store) (w : World) : World :=
  {| files := files w; redis := redis w; db := st; published := published w |}.

(** [open(file_path, "r")] and reading the text. *)
Definition read_file (file_path : string) (w : World) : result string :=
  match files w !! file_path with
  | Some content => Ok content
  | None => Raise (FileNotFoundError file_path)
  end.

(** The [finally] block: [os.remove] with [FileNotFoundError] swallowed. *)
Definition remove_source (file_path : string) (w : World) : World :=
  {| files := delete file_path (files w);
     redis := redis w; db := db w; published := published w |}.

Definition newline : ascii := "010"%char.

(** The number of lines iterating over the text yields. *)
Fixpoint count_lines (s : string) : nat :=
  match s with
  | EmptyString => 0
  | String c s' =>
      if Ascii.eqb c newline then S (count_lines s')
      else match s' with
           | EmptyString => 1
           | _ => count_lines s'
           end
  end.

(** [_count_rows] *)
Definition _count_rows (file_path : string) (w : World) : result Z :=
  match read_file file_path w with
  | Ok content => Ok (Z.max (Z.of_nat (count_lines content) - 1) 0)
  | Raise e => Raise e
  end.

(** [csv.DictReader.__next__] on one record: [dict(zip(fieldnames, row))],
    then [restval = None] under the field names the record does not reach. *)
Definition dict_row (fieldnames row : list string) : RawRow :=
  let d := fold_left (fun d kv => dict_set kv.1 (Some kv.2) d) (zip fieldnames row) [] in
  fold_left (fun d k => dict_set k None d) (drop (length row) fieldnames) d.

(** The rows [csv.DictReader] yields after the header: empty records are
    skipped. *)
Definition dict_rows (fieldnames : list string) (records : list (list string))
  : list RawRow :=
  dict_row fieldnames <$> filter (fun r => r ≠ []) records.

(** [{(h or "").strip().lower() for h in (reader.fieldnames or [])}] *)
Definition header_set (records : list (list string)) : list string :=
  (fun h => PyStr.lower (PyStr.strip h)) <$> default [] (head records).

Definition missing_sku_message : string := "CSV must include an 'sku' column".

Definition default_batch_size : Z := 5000.

Section Job.
(** [csv.reader] over the text of the file: the records in order. *)
Variable csv_reader : string -> list (list string).
Variable utcnow : nat -> Z.
(** [str(exc)] for an error the database driver raised. *)
Variable db_error_text : DbError -> string.

(** [str(exc)] *)
Definition exn_str (e : Exn) : string :=
  match e with
  | FileNotFoundError path =>
      "[Errno 2] No such file or directory: '" +:+ path +:+ "'"
  | ValueError msg => msg
  | DBAPIError e => db_error_text e
  end.

Variable task_id : string.
Variable file_path : string.
(** What [int(os.getenv("IMPORT_BATCH_SIZE", "5000"))] returned. *)
Variable batch_size : Z.

(** [processed += upsert_products_bulk(_dedupe_batch(batch))] *)
Definition flush (batch : list ProductRow) (processed : Z) (w : World)
  : result (World * Z) :=
  match upsert_products_bulk utcnow (_dedupe_batch batch) default_chunk_size (db w) with
  | Ok (st, n) => Ok (with_db st w, (processed + n)%Z)
  | Raise e => Raise e
  end.

(** The [for row in reader] loop.  The world is returned also when the
    loop raises: what was committed and published stays. *)
Fixpoint import_rows (rows : list RawRow) (total_rows : Z)
    (batch : list ProductRow) (processed invalid_rows : Z) (w : World)
  : World * result (list ProductRow * Z * Z) :=
  match rows with
  | [] => (w, Ok (batch, processed, invalid_rows))
  | row :: rest =>
      match _normalize_row row with
      | None => import_rows rest total_rows batch processed (invalid_rows + 1)%Z w
      | Some product =>
          let batch := batch ++ [product] in
          if (batch_size <=? Z.of_nat (length batch))%Z then
            match flush batch processed w with
            | Raise e => (w, Raise e)
            | Ok (w, processed) =>
                let w :=
                  _set_task_state task_id
                    [("status", RStr ("importing (" +:+ pretty processed +:+ "/"
                                       +:+ pretty total_rows +:+ ")"));
                     ("progress", RInt processed);
                     ("invalid", RInt invalid_rows)] w in
                import_rows rest total_rows [] processed invalid_rows w
            end
          else import_rows rest total_rows batch processed invalid_rows w
      end
  end.

(** The body of the [try]. *)
Definition try_body (w : World) : World * result unit :=
  match _count_rows file_path w with
  | Raise e => (w, Raise e)
  | Ok total_rows =>
      let w := _set_task_state task_id
                 [("status", RStr "parsing"); ("total", RInt total_rows)] w in
      match read_file file_path w with
      | Raise e => (w, Raise e)
      | Ok content =>
          let records := csv_reader content in
          let headers := header_set records in
          if decide (headers = [] ∨ "sku" ∉ headers)
          then (w, Raise (ValueError missing_sku_message))
          else
            let fieldnames := default [] (head records) in
            match import_rows (dict_rows fieldnames (tail records)) total_rows [] 0%Z 0%Z w with
            | (w, Raise e) => (w, Raise e)
            | (w, Ok (batch, processed, invalid_rows)) =>
                let last :=
                  match batch with
                  | [] => Ok (w, processed)
                  | _ => flush batch processed w
                  end in
                match last with
                | Raise e => (w, Raise e)
                | Ok (w, processed) =>
                    (_set_task_state task_id
                       [("status", RStr "complete");
                        ("progress", RInt processed);
                        ("total", RInt total_rows);
                        ("invalid", RInt invalid_rows)] w, Ok tt)
                end
            end
      end
  end.

(** The [except Exception as exc] clause: publish, then re-raise. *)
Definition except_clause (exc : Exn) (w : World) : World * result unit :=
  (_set_task_state task_id
     [("status", RStr ("error: " +:+ exn_str exc));
      ("error", RStr (exn_str exc))] w,
   Raise exc).

(** [import_products_task] on the path where [int] returns [batch_size]:
    the initial write, then the [try] statement with its [except] and
    [finally]; the world it leaves and whether it returned or raised to
    the job runner. *)
Definition import_with_batch_size (w : World) : World * result unit :=
  let w := _set_task_state task_id
             [("status", RStr "initializing"); ("progress", RInt 0);
              ("total", RInt 0); ("invalid", RInt 0)] w in
  let '(w, outcome) :=
    match try_body w with
    | (w, Ok tt) => (w, Ok tt)
    | (w, Raise exc) => except_clause exc w
    end in
  (remove_source file_path w, outcome).

End Job.

Section Task.
Variable csv_reader : string -> list (list string).
Variable utcnow : nat -> Z.
Variable db_error_text : DbError -> string.
(** [int(text)] on a string; [None] stands for its [ValueError]. *)
Variable py_int : string -> option Z.
(** [str(exc)] for that [ValueError]. *)
Variable int_error_text : string -> string.
Variable task_id : string.
Variable file_path : string.
(** [os.getenv("IMPORT_BATCH_SIZE")]: the setting, [None] without one. *)
Variable IMPORT_BATCH_SIZE : option string.

(** [import_products_task].  The batch size is read after the initial
    write and before the [try]: a setting that [int] refuses raises past
    the [except] clause and the [finally] clause. *)
Definition import_products_task (w : World) : World * result unit :=
  let text := default "5000" IMPORT_BATCH_SIZE in
  match py_int text with
  | None =>
      (_set_task_state task_id
         [("status", RStr "initializing"); ("progress", RInt 0);
          ("total", RInt 0); ("invalid", RInt 0)] w,
       Raise (ValueError (int_error_text text)))
  | Some batch_size =>
      import_with_batch_size csv_reader utcnow db_error_text task_id file_path
        batch_size w
  end.

End Task.

(** ** [app/main.py]: what a poller derives from the status record *)

(** [_int_value]: the integer under the key, 0 when the key is missing
    or does not hold an integer. *)
Definition _int_value (r : gmap string RedisValue) (task_id key : string) : Z :=
  match r !! _task_key task_id key with
  | Some (RInt z) => z
  | _ => 0%Z
  end.

(** Half-even rounding of [a / b] to an integer, [b > 0]. *)
Definition round_half_even_div (a b : Z) : Z :=
  let q := (a / b)%Z in
  let r := (a mod b)%Z in
  match (2 * r ?= b)%Z with
  | Lt => q
  | Gt => (q + 1)%Z
  | Eq => if Z.even q then q else (q + 1)%Z
  end.

(** ** Python floats, as far as [task_status] uses them

    Modelled from the documentation of CPython and IEEE 754: a float is a
    binary64 number; [int / int] returns the float nearest to the
    quotient of the two integers, ties to even, and raises
    [OverflowError] when that is beyond the range of floats; [float *
    int] returns the float nearest to the product, or an infinity;
    [round(x, 2)] returns the float nearest to the exact value of [x]
    rounded to a multiple of 1/100, ties to even.  A finite float is held
    as its whole number of units of [2 ^ -1074], the least positive
    float; the sign is kept apart and the sign of a zero is not kept. *)

Module PyFloat.
Local Open Scope Z_scope.

(** The least [s >= 0] with [a / b < 2 ^ (s + 53)], for [a >= 0] and
    [b > 0]: by how many bits [a / b] is longer than a significand. *)
Definition shift (a b : Z) : Z :=
  let s := Z.max 0 (Z.log2 a - Z.log2 b - 53) in
  if a <? b * 2 ^ (s + 53) then s else s + 1.

(** [a / b] rounded to an integer of at most 53 significant bits, ties to
    even. *)
Definition round53 (a b : Z) : Z :=
  let s := shift a b in round_half_even_div a (b * 2 ^ s) * 2 ^ s.

(** The float nearest to [a / b], in units, were the exponent unbounded
    above. *)
Definition nearest (a b : Z) : Z := round53 (a * 2 ^ 1074) b.

(** The value is [2 ^ 1024] or more: beyond the largest float. *)
Definition overflows (units : Z) : bool := 2 ^ 2098 <=? units.

End PyFloat.

(** What [percent] of [task_status] comes to. *)
Inductive Percent :=
| NoPercent                      (* [None] *)
| Hundredths (k : Z)             (* the float nearest to [k / 100] *)
| InfPercent (negative : bool)   (* [inf] or [-inf] *)
| DivisionOverflow.              (* the division raised [OverflowError] *)

(** [round((processed / total) * 100, 2) if total else None] *)
Definition percent_of (processed total : Z) : Percent :=
  if (total =? 0)%Z then NoPercent
  else
    let negative := xorb (processed <? 0)%Z (total <? 0)%Z in
    let quotient := PyFloat.nearest (Z.abs processed) (Z.abs total) in
    if PyFloat.overflows quotient then DivisionOverflow
    else
      let product := PyFloat.nearest (quotient * 100) (2 ^ 1074) in
      if PyFloat.overflows product then InfPercent negative
      else
        let k := round_half_even_div (100 * product) (2 ^ 1074) in
        Hundredths (if negative then (- k)%Z else k).

(** [percent] of [task_status]. *)
Definition percent (r : gmap string RedisValue) (task_id : string) : Percent :=
  percent_of (_int_value r task_id "progress") (_int_value r task_id "total").

(** ** A reader for text without quoted fields *)

Fixpoint split_on (sep : ascii) (s : string) : list string :=
  match s with
  | EmptyString => [EmptyString]
  | String c s' =>
      if Ascii.eqb c sep then EmptyString :: split_on sep s'
      else match split_on sep s' with
           | [] => [String c EmptyString]
           | f :: fs => String c f :: fs
           end
  end.

(** The lines of a text: a final newline ends the last line, it does not
    open another one. *)
Definition lines (s : string) : list string :=
  match reverse (split_on newline s) with
  | EmptyString :: rest => reverse rest
  | _ => split_on newline s
  end.

(** [csv.reader] on text in which no cell is quoted: a record per line,
    cells cut at the commas, an empty line giving the empty record. *)
Definition csv_plain (s : string) : list (list string) :=
  (fun l => if PyStr.is_empty l then [] else split_on "," l) <$> lines s.

(** [int] for the examples: surrounding white space, an optional sign and
    ASCII digits.  (Texts with underscores between digits, which [int]
    reads too, are not among the examples.) *)
Definition int_plain (s : string) : option Z :=
  let '(neg, body) := PyDecimal.take_sign (PyStr.strip s) in
  match PyDecimal.take_digits body 0%N 0 with
  | (n, S _, EmptyString) => Some (if neg then (- Z.of_N n)%Z else Z.of_N n)
  | _ => None
  end.

(** The message of the [ValueError] of [int]. *)
Definition int_plain_error (s : string) : string :=
  "invalid literal for int() with base 10: '" +:+ s +:+ "'".

Definition empty_store : Store := {| products := []; next_id := 1; clock_reads := 0 |}.

Definition sample_csv : string :=
  "sku,name,price" +:+ String newline
  ("A1,Widget,$12.50" +:+ String newline
  (",NoKey,5" +:+ String newline
  ("A1,Widget2,9.99" +:+ String newline ""))).

Definition sample_world : World :=
  {| files := {[ "/tmp/u.csv" := sample_csv ]}; redis := ∅;
     db := empty_store; published := [] |}.

Definition sample_run : World * result unit :=
  import_with_batch_size csv_plain (fun k => Z.of_nat k) (fun _ => "db error")
    "t1" "/tmp/u.csv" default_batch_size sample_world.

(** ** Vocabulary of the statements *)

(** The dictionary [_dedupe_batch] has built after the rows [rows]. *)
Definition deduped (rows : list ProductRow) : list (string * ProductRow) :=
  fold_left (fun deduped item => dict_set (PyStr.lower (sku item)) item deduped) rows [].

(** The last record of [rows] whose case-insensitive sku is [k]. *)
Definition last_with_key (k : string) (rows : list ProductRow) : option ProductRow :=
  last (filter (fun r => row_key r = k) rows).

(** The invariant the unique index on [lower(sku)] maintains. *)
Definition unique_keys (ps : list Product.t) : Prop :=
  NoDup (Product.lower_sku <$> ps).

(** A batch the store accepts: every record fits the column types and no
    two records share a case-insensitive sku. *)
Definition valid_batch (rows : list ProductRow) : Prop :=
  Forall (fun r => check_columns r = None) rows ∧ NoDup (row_key <$> rows).

(** All the proposed rows of a batch, one after the other. *)
Definition upsert_all (utcnow : nat -> Z) (rows : list ProductRow) (st : Store) : Store :=
  fold_left (fun st r => upsert_one utcnow r st) rows st.

(** The stored row for the key of [r] carries the values of [r]. *)
Definition settled (r : ProductRow) (ps : list Product.t) : Prop :=
  ∃ p, p ∈ ps ∧ Product.lower_sku p = row_key r ∧
       Product.name p = name r ∧ Product.description p = description r ∧
       Product.price_cents p = price_cents r ∧ Product.active p = active r.

(** A table of one row and a record that meets it. *)
Definition stored_widget : Product.t :=
  {| Product.id := 7; Product.sku := "a1"; Product.name := Some "Old";
     Product.description := None; Product.price_cents := None;
     Product.active := false; Product.created_at := 100; Product.updated_at := 100 |}.

Definition widget_row : ProductRow :=
  {| sku := "A1"; name := Some "Widget"; description := Some "w";
     price_cents := Some 1250%Z; active := true |}.

Definition widget_store : Store :=
  {| products := [stored_widget]; next_id := 8; clock_reads := 4 |}.

(** The Redis contents after the writes [ws], oldest first. *)
Definition snapshot (r : gmap string RedisValue) (ws : list (string * RedisValue))
  : gmap string RedisValue :=
  fold_left (fun r kv => <[kv.1 := kv.2]> r) ws r.

(** The writes of one [_set_task_state] call. *)
Definition keyed (task_id : string) (state : list (string * RedisValue))
  : list (string * RedisValue) :=
  map (fun kv => (_task_key task_id kv.1, kv.2)) state.

(** The sku cell of a row after trimming, a missing cell reading as empty. *)
Definition row_sku (row : RawRow) : string :=
  PyStr.strip (PyStr.or_empty (get_cell (normalize_keys row) "sku")).

(** The data rows the job iterates over. *)
Definition data_rows (csv_reader : string -> list (list string)) (content : string)
  : list RawRow :=
  dict_rows (default [] (head (csv_reader content))) (tail (csv_reader content)).

(** The total [_count_rows] publishes for a text. *)
Definition rows_count (content : string) : Z :=
  Z.max (Z.of_nat (count_lines content) - 1) 0.

(** A file whose header has no sku column. *)
Definition headless_world : World :=
  {| files := {[ "/tmp/h.csv" := "name,price" +:+ String newline ("A,1" +:+ String newline "") ]};
     redis := ∅; db := widget_store; published := [] |}.

(** The rows the normalizer rejects for their sku, and the records of
    the others. *)
Definition missing_sku (rows : list RawRow) : list RawRow :=
  filter (fun row => row_sku row = "") rows.

Definition accepted (rows : list RawRow) : list ProductRow :=
  omap _normalize_row rows.



(** The integers written under [key], oldest first. *)
Definition int_writes (key : string) (ws : list (string * RedisValue)) : list Z :=
  omap (fun kv => if decide (kv.1 = key)
                  then match kv.2 with RInt z => Some z | RStr _ => None end
                  else None) ws.

(** All the values of a list are the same. *)
Definition constant (l : list Z) : Prop := ∀ x y, x ∈ l → y ∈ l → x = y.

(** The order on what [percent] returns: no percentage yet comes first,
    then the percentages in their order, from [-inf] to [inf]; a reader
    whose division overflows comes last. *)
Definition percent_rank (a : Percent) : Z * Z :=
  match a with
  | NoPercent => (0, 0)
  | InfPercent true => (1, 0)
  | Hundredths k => (2, k)
  | InfPercent false => (3, 0)
  | DivisionOverflow => (4, 0)
  end%Z.

Definition percent_le (a b : Percent) : Prop :=
  ((percent_rank a).1 < (percent_rank b).1)%Z ∨
  ((percent_rank a).1 = (percent_rank b).1 ∧ ((percent_rank a).2 ≤ (percent_rank b).2)%Z).

(** Writes in which the integers under [pk] climb from [p] on and every
    write under [tk] is the integer [N]. *)
Fixpoint steady (pk tk : string) (N p : Z) (ws : list (string * RedisValue)) : Prop :=
  match ws with
  | [] => True
  | kv :: ws' =>
      if decide (kv.1 = pk) then
        match kv.2 with
        | RInt z => (p ≤ z)%Z ∧ steady pk tk N z ws'
        | RStr _ => False
        end
      else if decide (kv.1 = tk) then kv.2 = RInt N ∧ steady pk tk N p ws'
      else steady pk tk N p ws'
  end.

(** What a reader sees is consistent with steady writes still to come:
    the progress read is [p] and the total read is 0 or already [N]. *)
Definition in_step (task_id : string) (N : Z) (r : gmap string RedisValue) (p : Z) : Prop :=
  _int_value r task_id "progress" = p ∧
  (_int_value r task_id "total" = 0%Z ∨ _int_value r task_id "total" = N).

(** The writes of the initializing call and of the [except] clause. *)
Definition initializing_writes (task_id : string) : list (string * RedisValue) :=
  keyed task_id [("status", RStr "initializing"); ("progress", RInt 0);
                 ("total", RInt 0); ("invalid", RInt 0)].

Definition error_writes (task_id msg : string) : list (string * RedisValue) :=
  keyed task_id [("status", RStr ("error: " +:+ msg)); ("error", RStr msg)].

(** The total the job counts for the file at [file_path], 0 without file. *)
Definition counted_total (file_path : string) (w : World) : Z :=
  from_option rows_count 0%Z (files w !! file_path).


(** The sku cell of a row as read, before trimming. *)
Definition sku_cell (row : RawRow) : string :=
  PyStr.or_empty (get_cell (normalize_keys row) "sku").

(** Two rows for the same record, under differently written headers. *)
Definition shouting_row : RawRow :=
  [(" SKU ", Some " A1 "); ("Name", Some "Widget "); ("PRICE", Some "$1,250.5")].

Definition plain_row : RawRow :=
  [("sku", Some " A1 "); ("name", Some "Widget "); ("price", Some "$1,250.5")].

(** The primary key: ids are pairwise distinct and below the next value
    of the sequence. *)
Definition ids_fresh (st : Store) : Prop :=
  Forall (fun p => (Product.id p < next_id st)%Z) (products st) ∧
  NoDup (Product.id <$> products st).

(** Two records for one key, and one for another. *)
Definition widget_row_again : ProductRow :=
  {| sku := "a1"; name := Some "Widget II"; description := None;
     price_cents := Some 999%Z; active := false |}.

Definition gadget_row : ProductRow :=
  {| sku := "G7"; name := Some "Gadget"; description := None;
     price_cents := None; active := true |}.

(** The three writes after a flushed batch: the cumulative count and the
    invalid counter at that point. *)
Definition importing_writes (task_id : string) (total : Z) (step : Z * Z)
  : list (string * RedisValue) :=
  keyed task_id
    [("status", RStr ("importing (" +:+ pretty step.1 +:+ "/" +:+ pretty total +:+ ")"));
     ("progress", RInt step.1);
     ("invalid", RInt step.2)].

Definition importing_log (task_id : string) (total : Z) (steps : list (Z * Z))
  : list (string * RedisValue) :=
  concat (importing_writes task_id total <$> steps).

Definition parsing_writes (task_id : string) (total : Z) : list (string * RedisValue) :=
  keyed task_id [("status", RStr "parsing"); ("total", RInt total)].

Definition complete_writes (task_id : string) (processed total invalid_rows : Z)
  : list (string * RedisValue) :=
  keyed task_id [("status", RStr "complete"); ("progress", RInt processed);
                 ("total", RInt total); ("invalid", RInt invalid_rows)].

(** The fields of the job status record. *)
Definition job_fields : list string := ["status"; "progress"; "total"; "invalid"; "error"].

(** A write to one of the status fields of the task. *)
Definition own_write (task_id : string) (kv : string * RedisValue) : Prop :=
  ∃ f, f ∈ job_fields ∧ kv.1 = _task_key task_id f.

(** The batch size the loop works with: a threshold below 1 acts as 1. *)
Definition effective_batch_size (batch_size : Z) : Z := Z.max batch_size 1.

(** A task id without colon, as the ids the job runner hands out are. *)
Fixpoint colon_free (s : string) : bool :=
  match s with
  | EmptyString => true
  | String c s' => negb (Ascii.eqb c ":") && colon_free s'
  end.

(** ** [app/main.py]: the filters and the form fields *)

Module Filters.
(** The dict [_sanitize_filters] returns. *)
Record t := {
  page : Z;
  per_page : Z;
  filter_sku : string;
  filter_name : string;
  filter_description : string;
  filter_active : string;
}.
End Filters.

Definition MAX_PER_PAGE : Z := 200.

Definition active_choices : list string := ["all"; "active"; "inactive"].

(** [x or "all"] for an optional string. *)
Definition or_all (x : option string) : string :=
  match x with
  | Some s => if PyStr.is_empty s then "all" else s
  | None => "all"
  end.

(** [_sanitize_filters] *)
Definition _sanitize_filters (page per_page : Z)
    (filter_sku filter_name filter_description filter_active : option string)
  : Filters.t :=
  let safe_page := Z.max page 1 in
  let safe_per_page := Z.min (Z.max per_page 1) MAX_PER_PAGE in
  let active_value := PyStr.lower (or_all filter_active) in
  let active_value :=
    if decide (active_value ∈ active_choices) then active_value else "all" in
  {| Filters.page := safe_page;
     Filters.per_page := safe_per_page;
     Filters.filter_sku := PyStr.strip (PyStr.or_empty filter_sku);
     Filters.filter_name := PyStr.strip (PyStr.or_empty filter_name);
     Filters.filter_description := PyStr.strip (PyStr.or_empty filter_description);
     Filters.filter_active := active_value |}.

(** What a call of [_parse_price] comes to: the value returned, the
    [HTTPException] with status 400 and its detail, or an exception the
    function does not catch ([decimal.Overflow] from the product,
    [OverflowError] from [int] of an infinity).  The line between the
    last two follows the decimal model above: a numeral it reads and whose
    product overflows counts as uncaught, also where an implementation of
    [decimal] refuses the numeral itself for the size of its exponent. *)
Inductive PriceOutcome :=
| Price (cents : option Z)
| BadRequest (detail : string)
| Uncaught.

(** [_parse_price] *)
Definition _parse_price (value : option string) : PriceOutcome :=
  match value with
  | None => Price None
  | Some value =>
      let cleaned :=
        PyStr.strip (PyStr.remove_char "," (PyStr.remove_char "$" value)) in
      if PyStr.is_empty cleaned then Price None
      else
        match PyDecimal.of_string cleaned with
        | None => BadRequest "Price must be a valid number"
        | Some d =>
            match PyDecimal.mul_100 d with
            | None => Uncaught
            | Some PyDecimal.NaN => BadRequest "Price must be a valid number"
            | Some (PyDecimal.Infinity _) => Uncaught
            | Some d100 =>
                match PyDecimal.to_int d100 with
                | None => Uncaught
                | Some cents =>
                    if (cents <? 0)%Z then BadRequest "Price cannot be negative"
                    else Price (Some cents)
                end
            end
        end
  end.

Definition truthy_words : list string := ["true"; "1"; "yes"; "on"].

(** [_parse_bool], on the form fields it is called with (text or absent). *)
Definition _parse_bool (value : option string) (default : bool) : bool :=
  match value with
  | None => default
  | Some v => bool_decide (PyStr.lower v ∈ truthy_words)
  end.

(** A row with an active cell the form reads as true. *)
Definition yes_row : RawRow := [("sku", Some "A1"); ("Active", Some "YES")].

(** ** [app/main.py]: the product listing *)

Module Listing.
(** The dict [_fetch_products] returns. *)
Record t := {
  products : list Product.t;
  total : Z;
  pages : Z;
  page : Z;
}.
End Listing.

(** What [_fetch_products] can raise: the division by a page size of 0,
    and the error of PostgreSQL for a negative [LIMIT] or [OFFSET]. *)
Inductive FetchError :=
| ZeroDivisionError
| InvalidRowCount.

(** [math.ceil(a / b)] for [b ≠ 0], computed in exact arithmetic. *)
Definition ceil_div (a b : Z) : Z := (- ((- a) / b))%Z.

(** [f"%{text}%"] *)
Definition like_pattern (text : string) : string := "%" +:+ text +:+ "%".

(** [filters["page"] = page] *)
Definition with_page (filters : Filters.t) (page : Z) : Filters.t :=
  {| Filters.page := page;
     Filters.per_page := Filters.per_page filters;
     Filters.filter_sku := Filters.filter_sku filters;
     Filters.filter_name := Filters.filter_name filters;
     Filters.filter_description := Filters.filter_description filters;
     Filters.filter_active := Filters.filter_active filters |}.

Section Fetch.
(** [text ILIKE pattern] of PostgreSQL. *)
Variable ilike : string -> string -> bool.
(** The order in which PostgreSQL returns rows [ORDER BY created_at DESC]. *)
Variable order_by_created_at_desc : list Product.t -> list Product.t.

(** The conjunction of [conditions]; a comparison with a [NULL] column
    selects nothing. *)
Definition where_clause (filters : Filters.t) (p : Product.t) : bool :=
  (PyStr.is_empty (Filters.filter_sku filters)
   || ilike (Product.sku p) (like_pattern (Filters.filter_sku filters)))
  && (PyStr.is_empty (Filters.filter_name filters)
      || from_option (fun s => ilike s (like_pattern (Filters.filter_name filters)))
                     false (Product.name p))
  && (PyStr.is_empty (Filters.filter_description filters)
      || from_option (fun s => ilike s (like_pattern (Filters.filter_description filters)))
                     false (Product.description p))
  && (if decide (Filters.filter_active filters = "active") then Product.active p
      else if decide (Filters.filter_active filters = "inactive")
           then negb (Product.active p)
           else true).

(** [_fetch_products]: the dict returned and the filters as the call
    leaves them (the page is written back into the dict of the caller). *)
Definition _fetch_products (session : Store) (filters : Filters.t)
  : FetchError + (Listing.t * Filters.t) :=
  let per_page := Filters.per_page filters in
  let offset := ((Filters.page filters - 1) * per_page)%Z in
  let base_stmt := List.filter (where_clause filters) (products session) in
  let total_count := Z.of_nat (length base_stmt) in
  if negb (total_count =? 0)%Z && (per_page =? 0)%Z then inl ZeroDivisionError
  else
    let pages :=
      if (total_count =? 0)%Z then 1%Z
      else Z.max (ceil_div total_count per_page) 1 in
    let '(filters, offset) :=
      if (pages <? Filters.page filters)%Z
      then (with_page filters pages, ((pages - 1) * per_page)%Z)
      else (filters, offset) in
    if (offset <? 0)%Z || (per_page <? 0)%Z then inl InvalidRowCount
    else
      inr ({| Listing.products :=
                take (Z.to_nat per_page)
                     (drop (Z.to_nat offset) (order_by_created_at_desc base_stmt));
              Listing.total := total_count;
              Listing.pages := pages;
              Listing.page := Filters.page filters |},
           filters).

(** The listing of a call that returns. *)
Definition listing (session : Store) (filters : Filters.t) : option Listing.t :=
  match _fetch_products session filters with
  | inr (l, _) => Some l
  | inl _ => None
  end.

End Fetch.

(** A pattern match for the examples: the text between the two percent
    signs is a prefix of the column, compared without case. *)
Definition ilike_prefix (text pattern : string) : bool :=
  match pattern with
  | String _ rest =>
      String.prefix (PyStr.lower (String.substring 0 (String.length rest - 1) rest))
                    (PyStr.lower text)
  | EmptyString => false
  end.

(** Three stored rows, the newest last. *)
Definition three_rows : Store :=
  {| products :=
       [ {| Product.id := 1; Product.sku := "A1"; Product.name := Some "Widget";
            Product.description := None; Product.price_cents := Some 100%Z;
            Product.active := true; Product.created_at := 10; Product.updated_at := 10 |};
         {| Product.id := 2; Product.sku := "A2"; Product.name := None;
            Product.description := None; Product.price_cents := None;
            Product.active := false; Product.created_at := 11; Product.updated_at := 11 |};
         {| Product.id := 3; Product.sku := "B3"; Product.name := Some "Gadget";
            Product.description := None; Product.price_cents := Some 5%Z;
            Product.active := true; Product.created_at := 12; Product.updated_at := 12 |} ];
     next_id := 4; clock_reads := 6 |}.

(** ** [app/main.py]: the product endpoints

    The endpoints work through an ORM session.  Its flush is modelled
    from the documentation of SQLAlchemy and PostgreSQL: an object whose
    column values have no net change sends nothing; otherwise an [UPDATE]
    of the changed columns is sent for the row with the primary key of
    the object, with [updated_at] from its Python-side [onupdate]; a new
    object is an [INSERT] with [id] from the sequence and the two
    timestamps from their defaults.  A statement fails on a value that
    does not fit its column, and when it would leave two rows with one
    [lower(sku)].  A request that ends in an exception leaves the table as
    it was (the session is closed without commit).  The response modelled
    is the JSON payload; for an HTMX request the endpoint then renders the
    listing, which only reads. *)

Inductive FlushError :=
| DataError (e : DbError)
| UniqueViolation.

(** An exception the endpoint does not turn into an [HTTPException]. *)
Inductive Fault :=
| PriceFault
| FlushFault (e : FlushError).

Inductive PayloadValue :=
| PStr (s : string)
| PInt (z : Z)
| PBool (b : bool).

Inductive Response :=
| HTTPException (status_code : Z) (detail : string)
| Unhandled (fault : Fault)
| JSONResponse (payload : list (string * PayloadValue)).

(** [x.strip() if x else None] *)
Definition strip_if_any (x : option string) : option string :=
  match x with
  | Some s => if PyStr.is_empty s then None else Some (PyStr.strip s)
  | None => None
  end.

(** [select(Product).where(func.lower(Product.sku) == key)...first()] *)
Definition first_with_key (key : string) (ps : list Product.t) : option Product.t :=
  List.find (fun p => bool_decide (Product.lower_sku p = key)) ps.

(** [session.get(Product, product_id)] *)
Definition get_product (product_id : Z) (ps : list Product.t) : option Product.t :=
  List.find (fun p => bool_decide (Product.id p = product_id)) ps.

(** The column values of an object, as the flush compares them. *)
Definition columns (p : Product.t)
  : string * option string * option string * option Z * bool :=
  (Product.sku p, Product.name p, Product.description p, Product.price_cents p,
   Product.active p).

Definition in_int4 (o : option Z) : bool :=
  match o with
  | Some c => (c <=? int4_max)%Z && (- int4_max - 1 <=? c)%Z
  | None => true
  end.

(** The changed columns of an [UPDATE] against their types. *)
Definition changed_columns_error (old new : Product.t) : option DbError :=
  if bool_decide (Product.sku new ≠ Product.sku old)
     && negb (Nat.leb (String.length (Product.sku new)) 100)
  then Some StringDataRightTruncation
  else if bool_decide (Product.name new ≠ Product.name old)
          && negb (fits 300 (Product.name new))
  then Some StringDataRightTruncation
  else if bool_decide (Product.description new ≠ Product.description old)
          && negb (fits 2000 (Product.description new))
  then Some StringDataRightTruncation
  else if bool_decide (Product.price_cents new ≠ Product.price_cents old)
          && negb (in_int4 (Product.price_cents new))
  then Some NumericValueOutOfRange
  else None.

Definition with_updated_at (t : Z) (p : Product.t) : Product.t :=
  {| Product.id := Product.id p;
     Product.sku := Product.sku p;
     Product.name := Product.name p;
     Product.description := Product.description p;
     Product.price_cents := Product.price_cents p;
     Product.active := Product.active p;
     Product.created_at := Product.created_at p;
     Product.updated_at := t |}.

Section Endpoints.
Variable utcnow : nat -> Z.

(** The flush of the loaded object [old] after its attributes were set to
    those of [new]. *)
Definition flush_update (old new : Product.t) (st : Store) : FlushError + Store :=
  if decide (columns new = columns old) then inr st
  else
    match changed_columns_error old new with
    | Some e => inl (DataError e)
    | None =>
        let row := with_updated_at (utcnow (clock_reads st)) new in
        let ps := (fun p => if decide (Product.id p = Product.id old) then row else p)
                    <$> products st in
        if decide (NoDup (Product.lower_sku <$> ps))
        then inr {| products := ps;
                    next_id := next_id st;
                    clock_reads := S (clock_reads st) |}
        else inl UniqueViolation
    end.

(** The flush of a new object. *)
Definition flush_insert (r : ProductRow) (st : Store) : FlushError + Store :=
  match check_columns r with
  | Some e => inl (DataError e)
  | None =>
      let ps := products st ++ [proposed utcnow st r] in
      if decide (NoDup (Product.lower_sku <$> ps))
      then inr {| products := ps;
                  next_id := (next_id st + 1)%Z;
                  clock_reads := S (S (clock_reads st)) |}
      else inl UniqueViolation
  end.

(** [create_product] *)
Definition create_product (sku : string) (name description price active : option string)
    (st : Store) : Store * Response :=
  let sku_value := PyStr.strip sku in
  if PyStr.is_empty sku_value then (st, HTTPException 400 "SKU is required")
  else
    let existing := first_with_key (PyStr.lower sku_value) (products st) in
    match _parse_price price with
    | BadRequest detail => (st, HTTPException 400 detail)
    | Uncaught => (st, Unhandled PriceFault)
    | Price price_cents =>
        let active_value := _parse_bool active true in
        match existing with
        | Some existing =>
            let modified :=
              {| Product.id := Product.id existing;
                 Product.sku := Product.sku existing;
                 Product.name := strip_if_any name;
                 Product.description := strip_if_any description;
                 Product.price_cents := price_cents;
                 Product.active := active_value;
                 Product.created_at := Product.created_at existing;
                 Product.updated_at := Product.updated_at existing |} in
            match flush_update existing modified st with
            | inl e => (st, Unhandled (FlushFault e))
            | inr st' =>
                (st', JSONResponse [("result", PStr "updated");
                                    ("id", PInt (Product.id existing))])
            end
        | None =>
            let product :=
              {| sku := sku_value;
                 name := strip_if_any name;
                 description := strip_if_any description;
                 price_cents := price_cents;
                 active := active_value |} in
            match flush_insert product st with
            | inl e => (st, Unhandled (FlushFault e))
            | inr st' =>
                (st', JSONResponse [("result", PStr "created");
                                    ("id", PInt (next_id st))])
            end
        end
    end.

(** [update_product] *)
Definition update_product (product_id : Z) (sku : string)
    (name description price active : option string) (st : Store) : Store * Response :=
  match get_product product_id (products st) with
  | None => (st, HTTPException 404 "Product not found")
  | Some product =>
      let sku_value := PyStr.strip sku in
      let conflict :=
        List.find (fun p => bool_decide (Product.lower_sku p = PyStr.lower sku_value)
                            && bool_decide (Product.id p ≠ product_id))
                  (products st) in
      match conflict with
      | Some _ => (st, HTTPException 400 "SKU already exists")
      | None =>
          match _parse_price price with
          | BadRequest detail => (st, HTTPException 400 detail)
          | Uncaught => (st, Unhandled PriceFault)
          | Price price_cents =>
              let modified :=
                {| Product.id := Product.id product;
                   Product.sku := sku_value;
                   Product.name := strip_if_any name;
                   Product.description := strip_if_any description;
                   Product.price_cents := price_cents;
                   Product.active := _parse_bool active (Product.active product);
                   Product.created_at := Product.created_at product;
                   Product.updated_at := Product.updated_at product |} in
              match flush_update product modified st with
              | inl e => (st, Unhandled (FlushFault e))
              | inr st' =>
                  (st', JSONResponse [("result", PStr "updated");
                                      ("id", PInt product_id)])
              end
          end
      end
  end.

(** [delete_product] *)
Definition delete_product (product_id : Z) (st : Store) : Store * Response :=
  match get_product product_id (products st) with
  | None => (st, HTTPException 404 "Product not found")
  | Some _ =>
      ({| products := List.filter (fun p => bool_decide (Product.id p ≠ product_id))
                                  (products st);
          next_id := next_id st;
          clock_reads := clock_reads st |},
       JSONResponse [("result", PStr "deleted"); ("id", PInt product_id)])
  end.

(** [delete_all_products] *)
Definition delete_all_products (confirm : option string) (st : Store)
  : Store * Response :=
  if negb (_parse_bool confirm false)
  then (st, HTTPException 400 "Confirmation required")
  else ({| products := []; next_id := next_id st; clock_reads := clock_reads st |},
        JSONResponse [("deleted", PBool true)]).

End Endpoints.

(** The table satisfies its unique index and its primary key. *)
Definition consistent (st : Store) : Prop :=
  unique_keys (products st) ∧ ids_fresh st.









(** A file whose second record has a price beyond the integer column,
    imported in batches of one. *)
Definition half_csv : string :=
  "sku,price" +:+ String newline
  ("OK1,1" +:+ String newline
  ("BAD,99999999999" +:+ String newline "")).

Definition half_world : World :=
  {| files := {[ "/tmp/h2.csv" := half_csv ]}; redis := ∅;
     db := empty_store; published := [] |}.

Definition half_run : World * result unit :=
  import_with_batch_size csv_plain (fun k => Z.of_nat k) (fun _ => "db error")
    "t4" "/tmp/h2.csv" 1 half_world.

(** * Properties *)

(** ** Dictionaries *)

Section PyDictFacts.
Context {K V : Type} `{EqDecision K}.
Implicit Types (d : list (K * V)) (k : K) (v : V).

Lemma dict_get_set_eq k v d : dict_get k (dict_set k v d) = Some v.
Proof.
  induction d as [|[k' v'] d IH]; simpl.
  - by rewrite decide_True.
  - destruct (decide (k = k')) as [->|Hne]; simpl.
    + by rewrite decide_True.
    + by rewrite decide_False.
Qed.

Lemma dict_get_set_ne k k' v d :
  k ≠ k' → dict_get k' (dict_set k v d) = dict_get k' d.
Proof.
  intros Hne. induction d as [|[k0 v0] d IH]; simpl.
  - rewrite decide_False; [done | congruence].
  - destruct (decide (k = k0)) as [->|Hne0]; simpl.
    + rewrite !decide_False; [done | congruence | congruence].
    + by rewrite IH.
Qed.

Lemma dict_keys_set k v d :
  dict_keys (dict_set k v d) =
    if decide (k ∈ dict_keys d) then dict_keys d else dict_keys d ++ [k].
Proof.
  unfold dict_keys. induction d as [|[k' v'] d IH].
  - cbn [dict_set]. case_decide as Hin; [| done].
    by apply elem_of_nil in Hin.
  - cbn [dict_set]. destruct (decide (k = k')) as [->|Hne].
    + clear IH. rewrite !fmap_cons. cbn [fst].
      rewrite decide_True; [done | by left].
    + rewrite !fmap_cons. cbn [fst]. rewrite IH. clear IH.
      destruct (decide (k ∈ d.*1)) as [Hin|Hnin].
      * rewrite decide_True; [done | by right].
      * rewrite decide_False; [done |].
        intros [?|?]%elem_of_cons; done.
Qed.

Lemma dict_set_NoDup k v d : NoDup (dict_keys d) → NoDup (dict_keys (dict_set k v d)).
Proof.
  intros Hnd. rewrite dict_keys_set. case_decide; [done |].
  apply NoDup_app. split_and!; [done | | apply NoDup_singleton].
  intros x Hx ->%list_elem_of_singleton. done.
Qed.

Lemma dict_get_elem_of k v d : dict_get k d = Some v → (k, v) ∈ d.
Proof.
  induction d as [|[k' v'] d IH]; simpl; [done |].
  case_decide as Hk.
  - intros [= ->]. subst. by left.
  - intros ?. right. by apply IH.
Qed.

Lemma dict_elem_of_get k v d : NoDup (dict_keys d) → (k, v) ∈ d → dict_get k d = Some v.
Proof.
  unfold dict_keys. induction d as [|[k' v'] d IH]; simpl.
  - intros _ Hin. by apply elem_of_nil in Hin.
  - intros [Hnin Hnd]%NoDup_cons [Heq|Hin]%elem_of_cons.
    + injection Heq as -> ->. by rewrite decide_True.
    + rewrite decide_False; [by apply IH |].
      intros ->. apply Hnin. apply list_elem_of_fmap. by exists (k', v).
Qed.

(** When every new key is fresh, the values are kept in order. *)
Lemma dict_set_fresh k v d : k ∉ dict_keys d → dict_set k v d = d ++ [(k, v)].
Proof.
  unfold dict_keys. induction d as [|[k' v'] d IH]; simpl; [done |].
  intros Hnin. rewrite decide_False.
  - rewrite IH; [done |]. intros ?. apply Hnin. by right.
  - intros ->. apply Hnin. by left.
Qed.

End PyDictFacts.

(** ** The batch deduplicator *)

Lemma deduped_snoc rows r :
  deduped (rows ++ [r]) = dict_set (row_key r) r (deduped rows).
Proof. unfold deduped. by rewrite fold_left_app. Qed.

Lemma deduped_NoDup rows : NoDup (dict_keys (deduped rows)).
Proof.
  induction rows as [|r rows IH] using rev_ind.
  - apply NoDup_nil_2.
  - rewrite deduped_snoc. by apply dict_set_NoDup.
Qed.

Lemma deduped_get k rows : dict_get k (deduped rows) = last_with_key k rows.
Proof.
  unfold last_with_key. induction rows as [|r rows IH] using rev_ind; [done |].
  rewrite deduped_snoc, filter_app, filter_cons, filter_nil.
  destruct (decide (row_key r = k)) as [<-|Hne].
  - by rewrite dict_get_set_eq, last_snoc.
  - rewrite dict_get_set_ne by done. by rewrite app_nil_r.
Qed.

Lemma last_with_key_key k rows r : last_with_key k rows = Some r → row_key r = k.
Proof.
  unfold last_with_key. intros Hl.
  assert (r ∈ filter (fun r => row_key r = k) rows) as Hin.
  { apply last_Some in Hl as [l' ->]. apply elem_of_app. right. by left. }
  by apply list_elem_of_filter in Hin as [? _].
Qed.

Lemma deduped_keys_values rows :
  row_key <$> dict_values (deduped rows) = dict_keys (deduped rows).
Proof.
  assert (Forall (fun kv => row_key kv.2 = kv.1) (deduped rows)) as Hall.
  { apply Forall_forall. intros [k v] Hin. simpl.
    apply dict_elem_of_get in Hin; [| apply deduped_NoDup].
    rewrite deduped_get in Hin. by apply last_with_key_key in Hin. }
  unfold dict_values, dict_keys. induction Hall as [|[k v] d Hkv _ IH]; [done |].
  rewrite !fmap_cons. cbn [fst snd] in *. by rewrite Hkv, IH.
Qed.

(** C3: the Batch Deduplicator returns at most one record per
    case-insensitive sku; every record it returns is the last record of
    the input with that key; and every key of the input is retained. *)
Theorem C3_dedupe_batch_last_wins (rows : list ProductRow) :
  NoDup (row_key <$> _dedupe_batch rows) ∧
  (∀ r, r ∈ _dedupe_batch rows → last_with_key (row_key r) rows = Some r) ∧
  (∀ r, r ∈ rows → ∃ r', r' ∈ _dedupe_batch rows ∧ row_key r' = row_key r).
Proof.
  change (_dedupe_batch rows) with (dict_values (deduped rows)).
  split_and!.
  - rewrite deduped_keys_values. apply deduped_NoDup.
  - intros r Hin. unfold dict_values in Hin.
    apply list_elem_of_fmap in Hin as [[k v] [-> Hin]]. simpl.
    apply dict_elem_of_get in Hin; [| apply deduped_NoDup].
    rewrite deduped_get in Hin.
    by rewrite (last_with_key_key _ _ _ Hin).
  - intros r Hin.
    destruct (last_with_key (row_key r) rows) as [r'|] eqn:Hl.
    + exists r'. split; [| by eapply last_with_key_key].
      rewrite <- deduped_get in Hl. apply dict_get_elem_of in Hl.
      unfold dict_values. apply list_elem_of_fmap. by exists (row_key r, r').
    + unfold last_with_key in Hl. apply last_None in Hl.
      assert (r ∈ filter (fun x => row_key x = row_key r) rows) as Hf
        by by apply list_elem_of_filter.
      rewrite Hl in Hf. by apply elem_of_nil in Hf.
Qed.

(** ** The row normalizer on the price columns *)

(** C1 (the code departs from the claim): a [price_cents] cell goes
    through the same parser as a [price] cell, so its integer is
    multiplied by 100 ("1250" is stored as 125000), and a [price_cents]
    of 0 is falsy for [or], so the [price] column is consulted (and, when
    it has nothing, the price is absent although [price_cents] parsed). *)
Theorem C1_price_cents_column_is_scaled :
  price_cents <$> _normalize_row [("sku", Some "A1"); ("price_cents", Some "1250")]
    = Some (Some 125000%Z) ∧
  price_cents <$> _normalize_row
      [("sku", Some "A1"); ("price_cents", Some "0"); ("price", Some "5")]
    = Some (Some 500%Z) ∧
  price_cents <$> _normalize_row [("sku", Some "A1"); ("price_cents", Some "0")]
    = Some None.
Proof. split_and!; vm_compute; reflexivity. Qed.

(** ** The scenario of three data rows *)

(** C2, as the claim has it, fails: the published progress is not 2. *)
Lemma C2_progress_is_not_2 :
  redis sample_run.1 !! _task_key "t1" "progress" ≠ Some (RInt 2).
Proof. vm_compute. discriminate. Qed.

(** C2 (amended): on the three-row input, with the default batch size and
    an empty table, the job returns in the complete phase having published
    total 3, invalid 1 and progress 1 (the two rows of key A1 are merged
    before the upsert, which counts one row); the table then holds exactly
    one row for A1, named "Widget2" and priced 999. *)
Theorem C2_sample_import (utcnow : nat -> Z) (db_error_text : DbError -> string) :
  let out := import_with_batch_size csv_plain utcnow db_error_text
               "t1" "/tmp/u.csv" default_batch_size sample_world in
  out.2 = Ok tt ∧
  redis out.1 !! _task_key "t1" "status" = Some (RStr "complete") ∧
  redis out.1 !! _task_key "t1" "total" = Some (RInt 3) ∧
  redis out.1 !! _task_key "t1" "invalid" = Some (RInt 1) ∧
  redis out.1 !! _task_key "t1" "progress" = Some (RInt 1) ∧
  ∃ p, filter (fun p => Product.lower_sku p = "a1") (products (db out.1)) = [p] ∧
       Product.sku p = "A1" ∧
       Product.name p = Some "Widget2" ∧
       Product.price_cents p = Some 999%Z.
Proof.
  split_and!; try (vm_compute; reflexivity).
  eexists. split_and!; vm_compute; reflexivity.
Qed.

(** ** The bulk upsert *)

Section ChunkFacts.
Context {A : Type}.
Implicit Types (l : list A) (n : nat).

Lemma concat_chunks_fuel fuel n l :
  0 < n → length l ≤ fuel → concat (chunks_fuel fuel n l) = l.
Proof.
  intros Hn. revert l. induction fuel as [|fuel IH]; intros l Hl.
  - destruct l; [done | simpl in Hl; lia].
  - destruct l as [|a l]; [done |].
    cbn [chunks_fuel concat]. rewrite IH.
    + apply take_drop.
    + rewrite length_drop. simpl in *. lia.
Qed.

Lemma concat_chunks n l : 0 < n → concat (chunks n l) = l.
Proof. intros Hn. by apply concat_chunks_fuel. Qed.

Lemma chunks_fuel_Forall (P : list A → Prop) fuel n l :
  (∀ l n, P l → P (take n l)) → (∀ l n, P l → P (drop n l)) →
  P l → Forall P (chunks_fuel fuel n l).
Proof.
  intros Htake Hdrop. revert l. induction fuel as [|fuel IH]; intros l Hl.
  - constructor.
  - destruct l as [|a l]; [constructor |].
    cbn [chunks_fuel]. constructor; [by apply Htake | apply IH; by apply Hdrop].
Qed.
End ChunkFacts.

Lemma valid_batch_take n rows : valid_batch rows → valid_batch (take n rows).
Proof.
  intros [Hfit Hnd]. split; [by apply Forall_take |].
  rewrite fmap_take. eapply sublist_NoDup; [done | apply sublist_take].
Qed.

Lemma valid_batch_drop n rows : valid_batch rows → valid_batch (drop n rows).
Proof.
  intros [Hfit Hnd]. split; [by apply Forall_drop |].
  rewrite fmap_drop. eapply sublist_NoDup; [done | apply sublist_drop].
Qed.

Lemma on_conflict_set_key p r :
  Product.lower_sku (on_conflict_set p r) = Product.lower_sku p.
Proof. done. Qed.

Lemma on_conflict_set_id p r :
  Product.name p = name r → Product.description p = description r →
  Product.price_cents p = price_cents r → Product.active p = active r →
  on_conflict_set p r = p.
Proof. destruct p; simpl; intros; by subst. Qed.

Section InsertOrUpdate.
Implicit Types (r : ProductRow) (p fresh : Product.t) (ps : list Product.t).

Lemma insert_or_update_hit r fresh ps i p :
  unique_keys ps → ps !! i = Some p → Product.lower_sku p = row_key r →
  insert_or_update r fresh ps = <[i := on_conflict_set p r]> ps.
Proof.
  unfold unique_keys. revert i.
  induction ps as [|q ps IH]; intros i Hnd Hi Hk; [done |].
  rewrite fmap_cons in Hnd. apply NoDup_cons in Hnd as [Hq Hnd].
  cbn [insert_or_update]. destruct i as [|i]; simpl in Hi.
  - injection Hi as ->. by rewrite decide_True.
  - rewrite decide_False.
    + simpl. f_equal. by apply IH.
    + intros Hqk. apply Hq. rewrite Hqk, <- Hk.
      apply list_elem_of_fmap_2. by eapply list_elem_of_lookup_2.
Qed.

Lemma insert_or_update_miss r fresh ps :
  row_key r ∉ Product.lower_sku <$> ps →
  insert_or_update r fresh ps = ps ++ [fresh].
Proof.
  induction ps as [|q ps IH]; intros Hk; [done |].
  rewrite fmap_cons in Hk. apply not_elem_of_cons in Hk as [Hq Hk].
  cbn [insert_or_update]. rewrite decide_False by done.
  simpl. f_equal. by apply IH.
Qed.

Lemma insert_or_update_other r fresh ps i p :
  ps !! i = Some p → Product.lower_sku p ≠ row_key r →
  insert_or_update r fresh ps !! i = Some p.
Proof.
  revert i. induction ps as [|q ps IH]; intros i Hi Hk; [done |].
  cbn [insert_or_update]. destruct i as [|i]; simpl in Hi.
  - injection Hi as ->. by rewrite decide_False.
  - case_decide; [done |]. simpl. by apply IH.
Qed.

Lemma insert_or_update_keys r fresh ps :
  Product.lower_sku fresh = row_key r →
  Product.lower_sku <$> insert_or_update r fresh ps =
    if decide (row_key r ∈ Product.lower_sku <$> ps)
    then Product.lower_sku <$> ps
    else (Product.lower_sku <$> ps) ++ [row_key r].
Proof.
  intros Hf. induction ps as [|q ps IH].
  - cbn [insert_or_update]. rewrite decide_False by apply not_elem_of_nil.
    by rewrite !fmap_cons, Hf.
  - cbn [insert_or_update]. destruct (decide (Product.lower_sku q = row_key r)) as [Hq|Hq].
    + rewrite !fmap_cons, on_conflict_set_key.
      rewrite decide_True; [done | rewrite Hq; by left].
    + rewrite !fmap_cons, IH.
      destruct (decide (row_key r ∈ Product.lower_sku <$> ps)) as [Hin|Hnin].
      * rewrite decide_True; [done | by right].
      * rewrite decide_False; [done |].
        intros [?|?]%elem_of_cons; [by apply Hq | done].
Qed.

Lemma insert_or_update_unique r fresh ps :
  Product.lower_sku fresh = row_key r →
  unique_keys ps → unique_keys (insert_or_update r fresh ps).
Proof.
  intros Hf Hnd. unfold unique_keys. rewrite insert_or_update_keys by done.
  case_decide; [done |].
  apply NoDup_app. split_and!; [done | | apply NoDup_singleton].
  intros x Hx ->%list_elem_of_singleton. done.
Qed.

Lemma insert_or_update_settles r fresh ps :
  Product.lower_sku fresh = row_key r →
  Product.name fresh = name r → Product.description fresh = description r →
  Product.price_cents fresh = price_cents r → Product.active fresh = active r →
  settled r (insert_or_update r fresh ps).
Proof.
  intros Hk Hn Hd Hp Ha. induction ps as [|q ps IH]; cbn [insert_or_update].
  - exists fresh. split_and!; [by left | done..].
  - case_decide as Hq.
    + exists (on_conflict_set q r). split_and!; [by left | done..].
    + destruct IH as (p & Hin & ?). exists p. split; [by right | done].
Qed.

Lemma insert_or_update_keeps_settled r r' fresh ps :
  row_key r' ≠ row_key r → settled r ps →
  settled r (insert_or_update r' fresh ps).
Proof.
  intros Hne (p & Hin & Hk & Hrest).
  apply list_elem_of_lookup_1 in Hin as [i Hi].
  exists p. split; [| done].
  eapply list_elem_of_lookup_2, insert_or_update_other; [done |].
  by rewrite Hk.
Qed.

Lemma insert_or_update_noop r fresh ps :
  unique_keys ps → settled r ps → insert_or_update r fresh ps = ps.
Proof.
  intros Hnd (p & Hin & Hk & Hn & Hd & Hp & Ha).
  apply list_elem_of_lookup_1 in Hin as [i Hi].
  rewrite (insert_or_update_hit r fresh ps i p) by done.
  rewrite on_conflict_set_id by done. by apply list_insert_id.
Qed.

End InsertOrUpdate.

Section UpsertFacts.
Variable utcnow : nat -> Z.
Implicit Types (r : ProductRow) (rows chunk : list ProductRow) (st : Store).

Lemma proposed_key st r : Product.lower_sku (proposed utcnow st r) = row_key r.
Proof. done. Qed.

Lemma upsert_all_cons r rows st :
  upsert_all utcnow (r :: rows) st = upsert_all utcnow rows (upsert_one utcnow r st).
Proof. done. Qed.

Lemma upsert_all_app rows1 rows2 st :
  upsert_all utcnow (rows1 ++ rows2) st =
    upsert_all utcnow rows2 (upsert_all utcnow rows1 st).
Proof. unfold upsert_all. by rewrite fold_left_app. Qed.

Lemma upsert_one_unique r st :
  unique_keys (products st) → unique_keys (products (upsert_one utcnow r st)).
Proof. intros. by apply insert_or_update_unique. Qed.

Lemma upsert_all_unique rows st :
  unique_keys (products st) → unique_keys (products (upsert_all utcnow rows st)).
Proof.
  revert st. induction rows as [|r rows IH]; intros st Hnd; [done |].
  rewrite upsert_all_cons. by apply IH, upsert_one_unique.
Qed.

(** A stored row is out of reach of proposals for other keys. *)
Lemma upsert_all_lookup_other rows st i p :
  products st !! i = Some p →
  (∀ r, r ∈ rows → row_key r ≠ Product.lower_sku p) →
  products (upsert_all utcnow rows st) !! i = Some p.
Proof.
  revert st. induction rows as [|r rows IH]; intros st Hi Hne; [done |].
  rewrite upsert_all_cons. apply IH.
  - apply insert_or_update_other; [done |].
    intros Heq. eapply Hne; [by left | done].
  - intros r' Hin. apply Hne. by right.
Qed.

Lemma upsert_all_snoc rows r st :
  upsert_all utcnow (rows ++ [r]) st = upsert_one utcnow r (upsert_all utcnow rows st).
Proof. by rewrite upsert_all_app. Qed.

(** A stored row keeps its place; it carries the values of the last
    record of the batch that has its key, if there is one. *)
Lemma upsert_all_lookup rows st i p :
  unique_keys (products st) → products st !! i = Some p →
  products (upsert_all utcnow rows st) !! i =
    Some (from_option (on_conflict_set p) p (last_with_key (Product.lower_sku p) rows)).
Proof.
  intros Huniq Hi. induction rows as [|r rows IH] using rev_ind; [done |].
  rewrite upsert_all_snoc. unfold last_with_key in *.
  rewrite filter_app, filter_cons, filter_nil. cbn [upsert_one products].
  set (q := from_option (on_conflict_set p) p
              (last (filter (fun r => row_key r = Product.lower_sku p) rows))) in *.
  assert (Product.lower_sku q = Product.lower_sku p) as Hq.
  { unfold q. by destruct (last _). }
  destruct (decide (row_key r = Product.lower_sku p)) as [Hk|Hk].
  - rewrite last_snoc. cbn [from_option].
    rewrite (insert_or_update_hit _ _ _ i q); [| by apply upsert_all_unique | done | congruence].
    rewrite list_lookup_insert_eq by (by eapply lookup_lt_Some).
    unfold q. by destruct (last _).
  - rewrite app_nil_r. apply insert_or_update_other; [done |].
    fold q. rewrite Hq. intros Heq. by apply Hk.
Qed.

Lemma upsert_all_keeps_settled rows st r :
  settled r (products st) →
  (∀ r', r' ∈ rows → row_key r' ≠ row_key r) →
  settled r (products (upsert_all utcnow rows st)).
Proof.
  revert st. induction rows as [|r0 rows IH]; intros st Hs Hne; [done |].
  rewrite upsert_all_cons. apply IH.
  - apply insert_or_update_keeps_settled; [| done]. apply Hne. by left.
  - intros r' Hin. apply Hne. by right.
Qed.

(** After a batch of distinct keys, every record of it is in the table. *)
Lemma upsert_all_settles rows st r :
  NoDup (row_key <$> rows) → r ∈ rows →
  settled r (products (upsert_all utcnow rows st)).
Proof.
  revert st. induction rows as [|r0 rows IH]; intros st Hnd Hin.
  - by apply elem_of_nil in Hin.
  - rewrite fmap_cons in Hnd. apply NoDup_cons in Hnd as [Hr0 Hnd].
    rewrite upsert_all_cons. apply elem_of_cons in Hin as [->|Hin].
    + apply upsert_all_keeps_settled.
      * by apply insert_or_update_settles.
      * intros r' Hr' Heq. apply Hr0. rewrite <- Heq.
        by apply list_elem_of_fmap_2.
    + by apply IH.
Qed.

(** Proposing records that are already in the table changes no row. *)
Lemma upsert_all_noop rows st :
  unique_keys (products st) →
  (∀ r, r ∈ rows → settled r (products st)) →
  products (upsert_all utcnow rows st) = products st.
Proof.
  revert st. induction rows as [|r rows IH]; intros st Huniq Hs; [done |].
  rewrite upsert_all_cons.
  assert (products (upsert_one utcnow r st) = products st) as Hone.
  { apply insert_or_update_noop; [done |]. apply Hs. by left. }
  rewrite IH; [done | by rewrite Hone |].
  intros r' Hin. rewrite Hone. apply Hs. by right.
Qed.

Lemma execute_inr chunk touched st st' :
  execute utcnow chunk touched st = inr st' → st' = upsert_all utcnow chunk st.
Proof.
  revert touched st. induction chunk as [|r chunk IH]; intros touched st; simpl.
  - by intros [= <-].
  - destruct (check_columns r); [done |]. case_decide; [done |]. apply IH.
Qed.

Lemma execute_ok chunk touched st :
  valid_batch chunk → (∀ r, r ∈ chunk → row_key r ∉ touched) →
  execute utcnow chunk touched st = inr (upsert_all utcnow chunk st).
Proof.
  revert touched st. induction chunk as [|r chunk IH]; intros touched st [Hfit Hnd] Hfresh.
  - done.
  - apply Forall_cons in Hfit as [Hr Hfit].
    rewrite fmap_cons in Hnd. apply NoDup_cons in Hnd as [Hr0 Hnd].
    cbn [execute]. rewrite Hr. rewrite decide_False by (apply Hfresh; by left).
    rewrite upsert_all_cons. apply IH; [done |].
    intros r' Hr' [Heq|Hin]%elem_of_cons.
    + apply Hr0. rewrite <- Heq. by apply list_elem_of_fmap_2.
    + eapply Hfresh; [by right | done].
Qed.

Lemma execute_chunks_inr cs processed st st' n :
  execute_chunks utcnow cs processed st = inr (st', n) →
  st' = upsert_all utcnow (concat cs) st ∧
  n = (processed + Z.of_nat (length (concat cs)))%Z.
Proof.
  revert processed st. induction cs as [|chunk cs IH]; intros processed st; simpl.
  - intros [= <- <-]. split; [done | lia].
  - destruct (execute utcnow chunk [] st) as [e|st1] eqn:Hex; [done |].
    apply execute_inr in Hex as ->. intros [-> ->]%IH.
    rewrite upsert_all_app, length_app. split; [done |].
    destruct (Z.of_nat (length chunk) =? 0)%Z; lia.
Qed.

Lemma execute_chunks_ok cs processed st :
  Forall valid_batch cs →
  execute_chunks utcnow cs processed st =
    inr (upsert_all utcnow (concat cs) st,
         (processed + Z.of_nat (length (concat cs)))%Z).
Proof.
  intros Hcs. revert processed st.
  induction Hcs as [|chunk cs Hchunk _ IH]; intros processed st; simpl.
  - do 2 f_equal. lia.
  - rewrite execute_ok by (done || intros; apply not_elem_of_nil).
    rewrite IH, upsert_all_app, length_app. do 2 f_equal.
    destruct (Z.of_nat (length chunk) =? 0)%Z; lia.
Qed.

(** What a call that returns has done. *)
Lemma upsert_products_bulk_Ok rows chunk_size st st' n :
  upsert_products_bulk utcnow rows chunk_size st = Ok (st', n) →
  n = Z.of_nat (length rows) ∧
  (rows = [] ∧ st' = st ∨ rows ≠ [] ∧ st' = upsert_all utcnow rows st).
Proof.
  unfold upsert_products_bulk. destruct rows as [|r rows]; [by intros [= <- <-]; auto |].
  destruct chunk_size as [|m]; [done |].
  destruct execute_chunks as [e|[st1 n1]] eqn:Hex; [done |].
  intros [= <- <-]. apply execute_chunks_inr in Hex as [-> ->].
  rewrite concat_chunks by lia. split; [done | by right].
Qed.

(** A valid batch is accepted. *)
Lemma upsert_products_bulk_valid rows chunk_size st :
  0 < chunk_size → valid_batch rows → rows ≠ [] →
  upsert_products_bulk utcnow rows chunk_size st =
    Ok (upsert_all utcnow rows st, Z.of_nat (length rows)).
Proof.
  intros Hn Hvalid Hne. unfold upsert_products_bulk.
  destruct rows as [|r rows]; [done |]. destruct chunk_size as [|m]; [lia |].
  rewrite execute_chunks_ok.
  - by rewrite concat_chunks by lia.
  - apply chunks_fuel_Forall; auto using valid_batch_take, valid_batch_drop.
Qed.

End UpsertFacts.

Lemma unique_keys_filter ps i p :
  unique_keys ps → ps !! i = Some p →
  filter (fun q => Product.lower_sku q = Product.lower_sku p) ps = [p].
Proof.
  unfold unique_keys. revert i. induction ps as [|q ps IH]; intros i Hnd Hi; [done |].
  rewrite fmap_cons in Hnd. apply NoDup_cons in Hnd as [Hq Hnd].
  rewrite filter_cons. destruct i as [|i]; simpl in Hi.
  - injection Hi as ->. rewrite decide_True by done. f_equal.
    destruct (filter _ ps) as [|x l] eqn:Hf; [done |]. exfalso.
    assert (x ∈ filter (fun q => Product.lower_sku q = Product.lower_sku p) ps) as Hx
      by (rewrite Hf; by left).
    apply list_elem_of_filter in Hx as [Hk Hx]. apply Hq. rewrite <- Hk.
    by apply list_elem_of_fmap_2.
  - rewrite decide_False; [by eapply IH |].
    intros Hk. apply Hq. rewrite Hk. apply list_elem_of_fmap_2.
    by eapply list_elem_of_lookup_2.
Qed.

(** C6: when an upsert that returns meets a stored row with the key of a
    record of the batch (the last record with that key, which in a
    deduplicated batch is the only one), that row stays where it is with
    its id, sku and timestamps, takes name, description, price_cents and
    active from the record, and is the only row with that key. *)
Theorem C6_conflict_updates_mutable_columns_only
    (utcnow : nat -> Z) (rows : list ProductRow) (chunk_size : nat)
    (st st' : Store) (n : Z) (r : ProductRow) (i : nat) (p : Product.t) :
  unique_keys (products st) →
  upsert_products_bulk utcnow rows chunk_size st = Ok (st', n) →
  products st !! i = Some p →
  last_with_key (Product.lower_sku p) rows = Some r →
  ∃ p', products st' !! i = Some p' ∧
        Product.id p' = Product.id p ∧
        Product.sku p' = Product.sku p ∧
        Product.created_at p' = Product.created_at p ∧
        Product.updated_at p' = Product.updated_at p ∧
        Product.name p' = name r ∧
        Product.description p' = description r ∧
        Product.price_cents p' = price_cents r ∧
        Product.active p' = active r ∧
        filter (fun q => Product.lower_sku q = row_key r) (products st') = [p'].
Proof.
  intros Huniq Hup Hi Hlast.
  apply upsert_products_bulk_Ok in Hup as [_ [[-> _]|[_ ->]]]; [done |].
  exists (on_conflict_set p r).
  pose proof (upsert_all_lookup utcnow rows st i p Huniq Hi) as Hl.
  rewrite Hlast in Hl. cbn [from_option] in Hl.
  split_and!; try done.
  rewrite (last_with_key_key _ _ _ Hlast), <- (on_conflict_set_key p r).
  eapply unique_keys_filter; [by apply upsert_all_unique | done].
Qed.

(** The statement of C6 on the one-row table and the record that meets it. *)
Lemma C6_witness :
  ∃ p', products (upsert_all Z.of_nat [widget_row] widget_store) !! 0 = Some p' ∧
        Product.id p' = 7%Z ∧
        Product.sku p' = "a1" ∧
        Product.created_at p' = 100%Z ∧
        Product.updated_at p' = 100%Z ∧
        Product.name p' = Some "Widget" ∧
        Product.description p' = Some "w" ∧
        Product.price_cents p' = Some 1250%Z ∧
        Product.active p' = true ∧
        filter (fun q => Product.lower_sku q = row_key widget_row)
          (products (upsert_all Z.of_nat [widget_row] widget_store)) = [p'].
Proof.
  apply (C6_conflict_updates_mutable_columns_only Z.of_nat [widget_row]
           default_chunk_size widget_store _ 1%Z widget_row 0 stored_widget).
  - apply (bool_decide_unpack _). vm_compute. exact I.
  - reflexivity.
  - reflexivity.
  - reflexivity.
Defined.

(** C7: a valid deduplicated batch is accepted by any table that honours
    the unique index; upserting it again is accepted too, changes no
    stored row and reports the size of the batch; the empty batch leaves
    the store as it is and reports zero. *)
Theorem C7_upsert_twice_is_upsert_once
    (utcnow : nat -> Z) (rows : list ProductRow) (chunk_size : nat) (st : Store) :
  unique_keys (products st) → valid_batch rows → 0 < chunk_size →
  upsert_products_bulk utcnow [] chunk_size st = Ok (st, 0%Z) ∧
  ∃ st1 st2,
    upsert_products_bulk utcnow rows chunk_size st
      = Ok (st1, Z.of_nat (length rows)) ∧
    upsert_products_bulk utcnow rows chunk_size st1
      = Ok (st2, Z.of_nat (length rows)) ∧
    products st2 = products st1.
Proof.
  intros Huniq Hvalid Hn. split; [done |].
  destruct (decide (rows = [])) as [->|Hne].
  { by exists st, st. }
  exists (upsert_all utcnow rows st),
         (upsert_all utcnow rows (upsert_all utcnow rows st)).
  rewrite !upsert_products_bulk_valid by done. split_and!; [done | done |].
  apply upsert_all_noop; [by apply upsert_all_unique |].
  intros r Hr. apply upsert_all_settles; [apply Hvalid | done].
Qed.

(** The statement of C7 on the one-row table and a batch of one record. *)
Lemma C7_witness :
  upsert_products_bulk Z.of_nat [] 1 widget_store = Ok (widget_store, 0%Z) ∧
  ∃ st1 st2,
    upsert_products_bulk Z.of_nat [widget_row] 1 widget_store = Ok (st1, 1%Z) ∧
    upsert_products_bulk Z.of_nat [widget_row] 1 st1 = Ok (st2, 1%Z) ∧
    products st2 = products st1.
Proof.
  apply (C7_upsert_twice_is_upsert_once Z.of_nat [widget_row] 1 widget_store).
  - apply (bool_decide_unpack _). vm_compute. exact I.
  - split; [by repeat constructor | apply (bool_decide_unpack _); vm_compute; exact I].
  - lia.
Defined.

(** ** The status store and the file system *)

Lemma append_inj_l (s a b : string) : s +:+ a = s +:+ b → a = b.
Proof. induction s as [|c s IH]; simpl; [done |]. intros [= ?]. by apply IH. Qed.

Lemma task_key_inj task_id a b : _task_key task_id a = _task_key task_id b → a = b.
Proof.
  unfold _task_key. intros H.
  by do 3 apply append_inj_l in H.
Qed.

Ltac key_ne :=
  let H := fresh in intros H; apply task_key_inj in H; discriminate H.

(** Read a key back from a snapshot of explicit writes. *)
Ltac redis_lookup :=
  cbn [keyed map snapshot fold_left fst snd redis published files db
       remove_source with_db];
  repeat first [ rewrite lookup_insert_eq | rewrite lookup_insert_ne by key_ne ];
  try reflexivity.

Lemma snapshot_app r ws1 ws2 : snapshot r (ws1 ++ ws2) = snapshot (snapshot r ws1) ws2.
Proof. unfold snapshot. apply fold_left_app. Qed.

Lemma set_task_state_spec task_id state w :
  _set_task_state task_id state w =
    {| files := files w;
       redis := snapshot (redis w) (keyed task_id state);
       db := db w;
       published := published w ++ keyed task_id state |}.
Proof.
  revert w. induction state as [|kv state IH]; intros w.
  - destruct w. simpl. by rewrite app_nil_r.
  - unfold _set_task_state in *. cbn [fold_left]. rewrite IH.
    cbn [keyed map redis_set files redis db published snapshot fold_left].
    by rewrite <- app_assoc.
Qed.

Section JobFacts.
Variable csv_reader : string -> list (list string).
Variable utcnow : nat -> Z.
Variable db_error_text : DbError -> string.
Variable task_id file_path : string.
Variable batch_size : Z.

Local Abbreviation loop := (import_rows utcnow task_id batch_size).
Local Abbreviation body := (try_body csv_reader utcnow task_id file_path batch_size).
Local Abbreviation job :=
  (import_with_batch_size csv_reader utcnow db_error_text task_id file_path batch_size).

Lemma flush_Ok batch processed w w' processed' :
  flush utcnow batch processed w = Ok (w', processed') →
  files w' = files w ∧ redis w' = redis w ∧ published w' = published w ∧
  processed' = (processed + Z.of_nat (length (_dedupe_batch batch)))%Z.
Proof.
  unfold flush. destruct upsert_products_bulk as [[st n]|e] eqn:Hup; [| done].
  intros [= <- <-]. apply upsert_products_bulk_Ok in Hup as [-> _]. done.
Qed.

(** The loop writes to Redis only and never touches the files. *)
Lemma import_rows_files rows total batch processed invalid_rows w :
  files (loop rows total batch processed invalid_rows w).1 = files w.
Proof.
  revert batch processed invalid_rows w.
  induction rows as [|row rows IH]; intros batch processed invalid_rows w; [done |].
  cbn [import_rows]. destruct (_normalize_row row) as [product|]; [| apply IH].
  case_match; [| apply IH].
  destruct flush as [[w1 p1]|e] eqn:Hf; [| done].
  apply flush_Ok in Hf as (Hfiles & _). rewrite IH, set_task_state_spec. done.
Qed.

Lemma try_body_files w : files (body w).1 = files w.
Proof.
  unfold try_body, _count_rows, read_file.
  destruct (files w !! file_path) as [content|] eqn:Hfile; [| done].
  rewrite !set_task_state_spec. cbn [files]. rewrite Hfile.
  case_decide; [done |].
  match goal with |- context [loop ?rows ?total [] 0%Z 0%Z ?w0] =>
    pose proof (import_rows_files rows total [] 0%Z 0%Z w0) as Hfiles;
    destruct (loop rows total [] 0%Z 0%Z w0) as [w1 [[[batch processed] invalid_rows]|e]]
  end; [| done].
  cbn [fst files] in Hfiles.
  destruct batch as [|b batch].
  - rewrite set_task_state_spec. done.
  - destruct flush as [[w2 p2]|e] eqn:Hf; [| done].
    apply flush_Ok in Hf as (Hfiles2 & _). rewrite set_task_state_spec. cbn [fst files]. congruence.
Qed.

Lemma import_with_batch_size_files w :
  files (job w).1 = delete file_path (files w).
Proof.
  unfold import_with_batch_size. rewrite set_task_state_spec.
  match goal with |- context [body ?w0] =>
    pose proof (try_body_files w0) as Hfiles; destruct (body w0) as [w1 [[]|exc]]
  end; cbn [fst files] in *.
  - cbn [remove_source files]. by rewrite Hfiles.
  - unfold except_clause. rewrite set_task_state_spec.
    cbn [fst remove_source files]. by rewrite Hfiles.
Qed.

End JobFacts.

(** With a setting that [int] reads, the task is the task with that batch
    size. *)
Lemma import_products_task_read
    (csv_reader : string -> list (list string)) (utcnow : nat -> Z)
    (db_error_text : DbError -> string) (py_int : string -> option Z)
    (int_error_text : string -> string) (task_id file_path : string)
    (IMPORT_BATCH_SIZE : option string) (batch_size : Z) (w : World) :
  py_int (default "5000" IMPORT_BATCH_SIZE) = Some batch_size →
  import_products_task csv_reader utcnow db_error_text py_int int_error_text
    task_id file_path IMPORT_BATCH_SIZE w
  = import_with_batch_size csv_reader utcnow db_error_text task_id file_path
      batch_size w.
Proof. intros Hread. unfold import_products_task. by rewrite Hread. Qed.

(** C9, as the claim has it, fails: with a batch size setting that [int]
    refuses, the job raises before its [try] and the source file is still
    there afterwards. *)
Lemma C9_file_left_when_batch_size_is_refused :
  ¬ (files (import_products_task csv_plain (fun k => Z.of_nat k) (fun _ => "db error")
              int_plain int_plain_error "t1" "/tmp/u.csv" (Some "abc") sample_world).1
       !! "/tmp/u.csv" = None).
Proof. vm_compute. discriminate. Qed.

(** C9 (amended): once the batch size is read, whichever way the [try]
    statement ends, the source file is gone afterwards and no other file
    is touched; removing a file that is already absent raises nothing and
    changes nothing, so a second cleanup is a no-op.  A batch size setting
    that [int] refuses is the one exit on which the file stays: the job
    raises the [ValueError] of [int] and touches no file. *)
Theorem C9_source_file_removed_on_every_exit_of_try
    (csv_reader : string -> list (list string)) (utcnow : nat -> Z)
    (db_error_text : DbError -> string) (py_int : string -> option Z)
    (int_error_text : string -> string) (task_id file_path : string)
    (IMPORT_BATCH_SIZE : option string) (w : World) :
  let out := import_products_task csv_reader utcnow db_error_text py_int
               int_error_text task_id file_path IMPORT_BATCH_SIZE w in
  match py_int (default "5000" IMPORT_BATCH_SIZE) with
  | Some _ =>
      files out.1 !! file_path = None ∧
      files out.1 = delete file_path (files w) ∧
      remove_source file_path out.1 = out.1
  | None =>
      out.2 = Raise (ValueError (int_error_text (default "5000" IMPORT_BATCH_SIZE))) ∧
      files out.1 = files w
  end.
Proof.
  intros out. subst out. unfold import_products_task.
  destruct (py_int _) as [batch_size|].
  - pose proof (import_with_batch_size_files csv_reader utcnow db_error_text
                  task_id file_path batch_size w) as Hfiles.
    destruct (import_with_batch_size _ _ _ _ _ _ _) as [w' res]. cbn [fst] in *.
    split_and!.
    + rewrite Hfiles. apply lookup_delete_eq.
    + done.
    + unfold remove_source. rewrite Hfiles, delete_delete_eq, <- Hfiles. by destruct w'.
  - cbn [fst snd]. by rewrite set_task_state_spec.
Qed.

(** C8: when the job raises to its runner, the status record already
    says so: [status] is "error: " followed by the message and [error] is
    the message, and these two writes are the last the job made. *)
Theorem C8_error_status_written_before_reraise
    (csv_reader : string -> list (list string)) (utcnow : nat -> Z)
    (db_error_text : DbError -> string) (task_id file_path : string)
    (batch_size : Z) (w w' : World) (exc : Exn) :
  import_with_batch_size csv_reader utcnow db_error_text task_id file_path batch_size w
    = (w', Raise exc) →
  redis w' !! _task_key task_id "status"
    = Some (RStr ("error: " +:+ exn_str db_error_text exc)) ∧
  redis w' !! _task_key task_id "error" = Some (RStr (exn_str db_error_text exc)) ∧
  ∃ earlier,
    published w' =
      earlier ++ [(_task_key task_id "status", RStr ("error: " +:+ exn_str db_error_text exc));
                  (_task_key task_id "error", RStr (exn_str db_error_text exc))].
Proof.
  unfold import_with_batch_size.
  destruct (try_body _ _ _ _ _ _) as [w1 [[]|e]]; [done |].
  unfold except_clause. rewrite set_task_state_spec. intros [= <- <-].
  split_and!; [by redis_lookup | by redis_lookup |].
  by exists (published w1).
Qed.

(** The statement of C8 on the file without sku column. *)
Lemma C8_witness :
  let w' := (import_with_batch_size csv_plain Z.of_nat (fun _ => "db error")
               "t1" "/tmp/h.csv" default_batch_size headless_world).1 in
  let exc := ValueError missing_sku_message in
  redis w' !! _task_key "t1" "status"
    = Some (RStr ("error: " +:+ exn_str (fun _ => "db error") exc)) ∧
  redis w' !! _task_key "t1" "error" = Some (RStr (exn_str (fun _ => "db error") exc)) ∧
  ∃ earlier,
    published w' =
      earlier ++ [(_task_key "t1" "status", RStr ("error: " +:+ exn_str (fun _ => "db error") exc));
                  (_task_key "t1" "error", RStr (exn_str (fun _ => "db error") exc))].
Proof.
  intros w' exc.
  apply (C8_error_status_written_before_reraise csv_plain Z.of_nat (fun _ => "db error")
           "t1" "/tmp/h.csv" default_batch_size headless_world w' exc).
  vm_compute. reflexivity.
Defined.

(** C5: when the header of the file is absent or has no column that
    reads "sku" once stripped and lower-cased, the job raises the
    missing-column error with nothing done: the table is untouched, the
    published progress is still 0, the status and error fields carry the
    message, and between the parsing status and the error status nothing
    was published. *)
Theorem C5_missing_sku_header_is_fatal
    (csv_reader : string -> list (list string)) (utcnow : nat -> Z)
    (db_error_text : DbError -> string) (task_id file_path : string)
    (batch_size : Z) (w : World) (content : string) :
  files w !! file_path = Some content →
  "sku" ∉ header_set (csv_reader content) →
  let out := import_with_batch_size csv_reader utcnow db_error_text
               task_id file_path batch_size w in
  out.2 = Raise (ValueError missing_sku_message) ∧
  db out.1 = db w ∧
  redis out.1 !! _task_key task_id "status"
    = Some (RStr ("error: " +:+ missing_sku_message)) ∧
  redis out.1 !! _task_key task_id "error" = Some (RStr missing_sku_message) ∧
  redis out.1 !! _task_key task_id "progress" = Some (RInt 0) ∧
  published out.1 =
    published w ++
      keyed task_id
        [("status", RStr "initializing"); ("progress", RInt 0);
         ("total", RInt 0); ("invalid", RInt 0);
         ("status", RStr "parsing"); ("total", RInt (rows_count content));
         ("status", RStr ("error: " +:+ missing_sku_message));
         ("error", RStr missing_sku_message)].
Proof.
  intros Hfile Hsku out. subst out.
  unfold import_with_batch_size, try_body, _count_rows, read_file.
  do 3 (rewrite ?set_task_state_spec; cbn [files]; rewrite ?Hfile).
  rewrite decide_True by (by right).
  unfold except_clause. rewrite !set_task_state_spec.
  split_and!; try by redis_lookup.
  cbn [fst remove_source published keyed map]. by rewrite <- !app_assoc.
Qed.

(** The statement of C5 on the file without sku column. *)
Lemma C5_witness :
  let out := import_with_batch_size csv_plain Z.of_nat (fun _ => "db error")
               "t1" "/tmp/h.csv" default_batch_size headless_world in
  out.2 = Raise (ValueError missing_sku_message) ∧
  db out.1 = db headless_world ∧
  redis out.1 !! _task_key "t1" "status"
    = Some (RStr ("error: " +:+ missing_sku_message)) ∧
  redis out.1 !! _task_key "t1" "error" = Some (RStr missing_sku_message) ∧
  redis out.1 !! _task_key "t1" "progress" = Some (RInt 0) ∧
  published out.1 =
    published headless_world ++
      keyed "t1"
        [("status", RStr "initializing"); ("progress", RInt 0);
         ("total", RInt 0); ("invalid", RInt 0);
         ("status", RStr "parsing");
         ("total", RInt (rows_count ("name,price" +:+ String newline ("A,1" +:+ String newline ""))));
         ("status", RStr ("error: " +:+ missing_sku_message));
         ("error", RStr missing_sku_message)].
Proof.
  apply (C5_missing_sku_header_is_fatal csv_plain Z.of_nat (fun _ => "db error")
           "t1" "/tmp/h.csv" default_batch_size headless_world
           ("name,price" +:+ String newline ("A,1" +:+ String newline ""))).
  - reflexivity.
  - apply (bool_decide_unpack _). vm_compute. exact I.
Defined.

(** ** The normalizer and the counters of the loop *)

Lemma is_empty_true s : PyStr.is_empty s = true ↔ s = "".
Proof. by destruct s. Qed.




Lemma normalize_row_None row : _normalize_row row = None ↔ row_sku row = "".
Proof.
  unfold _normalize_row, row_sku.
  destruct (PyStr.is_empty _) eqn:He.
  - by rewrite <- is_empty_true.
  - split; [done |]. intros Hs. apply is_empty_true in Hs. congruence.
Qed.

Lemma missing_accepted_length rows :
  length (missing_sku rows) + length (accepted rows) = length rows.
Proof.
  unfold missing_sku, accepted. induction rows as [|row rows IH]; [done |].
  rewrite filter_cons. cbn [omap list_omap].
  destruct (_normalize_row row) as [product|] eqn:Hn.
  - rewrite decide_False; [simpl; lia |].
    intros Hs. apply normalize_row_None in Hs. congruence.
  - rewrite decide_True by (by apply normalize_row_None). simpl. lia.
Qed.

Lemma dict_set_length {K V} `{EqDecision K} (k : K) (v : V) d :
  length (dict_set k v d) ≤ S (length d).
Proof.
  induction d as [|[k' v'] d IH]; simpl; [lia |].
  case_decide; simpl; lia.
Qed.

Lemma dedupe_batch_length rows : length (_dedupe_batch rows) ≤ length rows.
Proof.
  change (_dedupe_batch rows) with (dict_values (deduped rows)).
  unfold dict_values. rewrite length_fmap.
  induction rows as [|r rows IH] using rev_ind; [done |].
  rewrite deduped_snoc, length_app. simpl.
  pose proof (dict_set_length (row_key r) r (deduped rows)). lia.
Qed.

Lemma deduped_distinct rows :
  NoDup (row_key <$> rows) → deduped rows = (fun r => (row_key r, r)) <$> rows.
Proof.
  induction rows as [|r rows IH] using rev_ind; [done |].
  rewrite fmap_app. intros (Hnd & Hfresh & _)%NoDup_app.
  rewrite deduped_snoc, IH, fmap_app by done. apply dict_set_fresh.
  unfold dict_keys. rewrite <- list_fmap_compose.
  intros Hin. apply (Hfresh _ Hin). by left.
Qed.

(** A batch of distinct keys passes the deduplicator unchanged. *)
Lemma dedupe_batch_distinct rows :
  NoDup (row_key <$> rows) → _dedupe_batch rows = rows.
Proof.
  intros Hnd. change (_dedupe_batch rows) with (dict_values (deduped rows)).
  rewrite deduped_distinct by done. unfold dict_values.
  rewrite <- list_fmap_compose. apply list_fmap_id.
Qed.

Section LoopFacts.
Variable utcnow : nat -> Z.
Variable task_id : string.
Variable batch_size : Z.

Local Abbreviation run_loop := (import_rows utcnow task_id batch_size).

(** The counters of a loop that ran to the end of the rows: every
    rejected row is counted once in [invalid_rows]; the accepted records
    are the flushed ones followed by the pending batch; [processed] grows
    by at most the number flushed, and by exactly that number when the
    keys are distinct. *)
Lemma import_rows_counters rows total batch processed invalid_rows w
    w' batch' processed' invalid_rows' :
  run_loop rows total batch processed invalid_rows w
    = (w', Ok (batch', processed', invalid_rows')) →
  invalid_rows' = (invalid_rows + Z.of_nat (length (missing_sku rows)))%Z ∧
  ∃ flushed,
    batch ++ accepted rows = flushed ++ batch' ∧
    (processed ≤ processed' ≤ processed + Z.of_nat (length flushed))%Z ∧
    (NoDup (row_key <$> batch ++ accepted rows) →
     processed' = (processed + Z.of_nat (length flushed))%Z).
Proof.
  revert batch processed invalid_rows w.
  induction rows as [|row rows IH]; intros batch processed invalid_rows w.
  - intros [= <- <- <- <-]. split; [simpl; lia |].
    exists []. cbn [accepted omap list_omap]. rewrite app_nil_r.
    split; [done |]. split; [simpl; lia |]. intros _. simpl. lia.
  - cbn [import_rows]. unfold missing_sku, accepted in *.
    rewrite filter_cons. cbn [omap list_omap].
    destruct (_normalize_row row) as [product|] eqn:Hn.
    + rewrite decide_False
        by (intros Hs; apply normalize_row_None in Hs; congruence).
      replace (batch ++ product :: omap _normalize_row rows)
        with ((batch ++ [product]) ++ omap _normalize_row rows)
        by (by rewrite <- app_assoc).
      case_match.
      * destruct (flush _ _ _ _) as [[w1 p1]|e] eqn:Hf; [| done].
        apply flush_Ok in Hf as (_ & _ & _ & ->).
        intros (-> & flushed & Hsplit & Hbound & Hexact)%IH.
        split; [done |]. exists ((batch ++ [product]) ++ flushed).
        cbn [app] in Hsplit, Hexact. rewrite Hsplit.
        pose proof (dedupe_batch_length (batch ++ [product])) as Hle.
        rewrite (length_app (batch ++ [product]) flushed).
        split; [by rewrite app_assoc |]. split; [lia |].
        rewrite fmap_app. intros (Hnd1 & _ & Hnd2)%NoDup_app.
        rewrite Hexact by (by rewrite Hsplit).
        rewrite dedupe_batch_distinct by done. lia.
      * by intros ?%IH.
    + rewrite decide_True by (by apply normalize_row_None).
      intros (-> & Hrest)%IH. split; [simpl; lia | done].
Qed.

End LoopFacts.

(** ** The order of publication *)

Lemma percent_le_refl a : percent_le a a.
Proof. unfold percent_le. right. split; [done | lia]. Qed.

(** Without a total there is no percentage, which comes before any. *)
Lemma percent_le_no_total x b : percent_le (percent_of x 0) b.
Proof.
  change (percent_of x 0) with NoPercent. unfold percent_le.
  destruct b as [|k|[]|]; cbn [percent_rank fst snd]; lia.
Qed.

Lemma percent_le_trans a b c : percent_le a b → percent_le b c → percent_le a c.
Proof. unfold percent_le. lia. Qed.

Section FloatFacts.
Local Open Scope Z_scope.

Lemma round_half_even_div_floor a b :
  0 < b →
  a / b ≤ round_half_even_div a b ≤ a / b + 1 ∧
  (round_half_even_div a b = a / b + 1 → b ≤ 2 * (a mod b)) ∧
  (round_half_even_div a b = a / b → 2 * (a mod b) ≤ b).
Proof.
  intros Hb. unfold round_half_even_div.
  destruct (Z.compare_spec (2 * (a mod b)) b); [destruct (Z.even (a / b)) | |]; lia.
Qed.

Lemma round_half_even_div_mono_frac a b c d :
  0 < b → 0 < d → a * d ≤ c * b →
  round_half_even_div a b ≤ round_half_even_div c d.
Proof.
  intros Hb Hd Hle. unfold round_half_even_div.
  pose proof (Z.div_mod a b ltac:(lia)) as Ha.
  pose proof (Z.div_mod c d ltac:(lia)) as Hc.
  pose proof (Z.mod_pos_bound a b Hb) as Hr.
  pose proof (Z.mod_pos_bound c d Hd) as Hr'.
  generalize dependent (a mod b). generalize dependent (c mod d).
  generalize dependent (a / b). generalize dependent (c / d).
  intros q' q r' Hc Hr' r Ha Hr. subst a c.
  assert (q ≤ q') as Hq.
  { destruct (decide (q ≤ q')) as [|Hgt]; [done | exfalso].
    assert (0 ≤ (q - q' - 1) * (b * d)) by (apply Z.mul_nonneg_nonneg; nia).
    assert (r' * b < d * b) by (apply Z.mul_lt_mono_pos_r; lia).
    assert (0 ≤ r * d) by (apply Z.mul_nonneg_nonneg; lia).
    nia. }
  destruct (decide (q = q')) as [<-|Hne].
  - assert (r * d ≤ r' * b) as Hrr by nia.
    destruct (Z.compare_spec (2 * r) b), (Z.compare_spec (2 * r') d);
      destruct (Z.even q); try lia; nia.
  - destruct (Z.compare_spec (2 * r) b), (Z.compare_spec (2 * r') d);
      destruct (Z.even q), (Z.even q'); lia.
Qed.

Lemma round_half_even_div_ge a b n :
  0 < b → n * b ≤ a → n ≤ round_half_even_div a b.
Proof.
  intros Hb Hn. pose proof (round_half_even_div_floor a b Hb) as [[Hlo _] _].
  assert (n ≤ a / b) by (apply Z.div_le_lower_bound; lia). lia.
Qed.

Lemma round_half_even_div_le a b n :
  0 < b → a ≤ n * b → round_half_even_div a b ≤ n.
Proof.
  intros Hb Hn. pose proof (round_half_even_div_floor a b Hb) as ([_ Hhi] & Hup & _).
  pose proof (Z.div_mod a b ltac:(lia)) as Ha.
  pose proof (Z.mod_pos_bound a b Hb) as Hr.
  assert (a / b ≤ n) by (apply Z.div_le_upper_bound; lia).
  destruct (decide (round_half_even_div a b = a / b + 1)) as [Heq|Hne]; [| lia].
  specialize (Hup Heq). destruct (decide (a / b = n)) as [Hq|]; [| lia]. nia.
Qed.

Lemma shift_spec a b :
  0 ≤ a → 0 < b →
  0 ≤ PyFloat.shift a b ∧ a < b * 2 ^ (PyFloat.shift a b + 53) ∧
  (PyFloat.shift a b = 0 ∨ b * 2 ^ (PyFloat.shift a b + 52) ≤ a).
Proof.
  intros Ha Hb. unfold PyFloat.shift.
  set (s := Z.max 0 (Z.log2 a - Z.log2 b - 53)).
  assert (0 ≤ s) as Hs by lia.
  pose proof (Z.log2_nonneg a) as Hla. pose proof (Z.log2_nonneg b) as Hlb.
  pose proof (Z.log2_spec b Hb) as [Hb1 Hb2].
  destruct (Z.ltb_spec a (b * 2 ^ (s + 53))) as [Hlt|Hge].
  - split; [done |]. split; [done |].
    destruct (decide (s = 0)) as [|Hne]; [by left | right].
    assert (0 < a) as Ha' by (destruct (decide (a = 0)) as [->|]; [simpl in s; lia | lia]).
    pose proof (Z.log2_spec a Ha') as [Ha1 _].
    assert (s = Z.log2 a - Z.log2 b - 53) as Hs' by lia.
    assert (2 ^ Z.log2 a = 2 ^ Z.succ (Z.log2 b) * 2 ^ (s + 52)) as Hpow
      by (rewrite <- Z.pow_add_r by lia; f_equal; lia).
    assert (0 < 2 ^ (s + 52)) by (apply Z.pow_pos_nonneg; lia). nia.
  - split; [lia |]. split; [| right; by replace (s + 1 + 52) with (s + 53) by lia].
    assert (0 < a) as Ha'.
    { assert (0 < 2 ^ (s + 53)) by (apply Z.pow_pos_nonneg; lia). nia. }
    pose proof (Z.log2_spec a Ha') as [_ Ha2].
    assert (2 ^ Z.succ (Z.log2 a) ≤ 2 ^ (Z.log2 b + (s + 1 + 53))) as Hpow
      by (apply Z.pow_le_mono_r; lia).
    rewrite Z.pow_add_r in Hpow by lia.
    assert (0 < 2 ^ (s + 1 + 53)) by (apply Z.pow_pos_nonneg; lia). nia.
Qed.

Lemma round53_mono a b c d :
  0 ≤ a → 0 < b → 0 < d → a * d ≤ c * b →
  PyFloat.round53 a b ≤ PyFloat.round53 c d.
Proof.
  intros Ha Hb Hd Hle.
  assert (0 ≤ c) as Hc by nia.
  destruct (shift_spec a b Ha Hb) as (Hs0 & Hs1 & Hs2).
  destruct (shift_spec c d Hc Hd) as (Ht0 & Ht1 & Ht2).
  unfold PyFloat.round53.
  set (s := PyFloat.shift a b) in *. set (t := PyFloat.shift c d) in *.
  assert (0 < 2 ^ s) as Hps by (apply Z.pow_pos_nonneg; lia).
  assert (0 < 2 ^ t) as Hpt by (apply Z.pow_pos_nonneg; lia).
  assert (s ≤ t) as Hst.
  { destruct (decide (s ≤ t)) as [|Hgt]; [done | exfalso].
    destruct Hs2 as [Hs2|Hs2]; [lia |].
    assert (2 ^ (t + 53) ≤ 2 ^ (s + 52)) as Hpow by (apply Z.pow_le_mono_r; lia).
    assert (0 < 2 ^ (t + 53)) by (apply Z.pow_pos_nonneg; lia). nia. }
  destruct (decide (s = t)) as [Heq|Hne].
  - rewrite <- Heq. apply Z.mul_le_mono_nonneg_r; [lia |].
    apply round_half_even_div_mono_frac; nia.
  - destruct Ht2 as [Ht2|Ht2]; [lia |].
    assert (2 ^ 52 ≤ round_half_even_div c (d * 2 ^ t)) as Hlow.
    { apply round_half_even_div_ge; [nia |].
      rewrite Z.pow_add_r in Ht2 by lia. lia. }
    assert (round_half_even_div a (b * 2 ^ s) ≤ 2 ^ 53) as Hhigh.
    { apply round_half_even_div_le; [nia |].
      rewrite Z.pow_add_r in Hs1 by lia. lia. }
    assert (2 ^ 53 * 2 ^ s ≤ 2 ^ 52 * 2 ^ t) as Hpow.
    { rewrite <- !Z.pow_add_r by lia. apply Z.pow_le_mono_r; lia. }
    nia.
Qed.

Lemma round53_nonneg a b : 0 ≤ a → 0 < b → 0 ≤ PyFloat.round53 a b.
Proof.
  intros Ha Hb. destruct (shift_spec a b Ha Hb) as (Hs0 & _).
  unfold PyFloat.round53.
  assert (0 < 2 ^ PyFloat.shift a b) by (apply Z.pow_pos_nonneg; lia).
  assert (0 ≤ round_half_even_div a (b * 2 ^ PyFloat.shift a b))
    by (apply round_half_even_div_ge; nia).
  nia.
Qed.

Lemma nearest_mono a b c d :
  0 ≤ a → 0 < b → 0 < d → a * d ≤ c * b →
  PyFloat.nearest a b ≤ PyFloat.nearest c d.
Proof.
  intros Ha Hb Hd Hle. unfold PyFloat.nearest.
  assert (0 < 2 ^ 1074) by (by apply Z.pow_pos_nonneg).
  apply round53_mono; nia.
Qed.

Lemma nearest_one : PyFloat.nearest 1 1 = 2 ^ 1074.
Proof. by vm_compute. Qed.

Lemma nearest_hundred : PyFloat.nearest 100 1 = 100 * 2 ^ 1074.
Proof. by vm_compute. Qed.

(** For counters that are not negative the percentage grows with the
    progress. *)
Lemma percent_of_mono p p' N :
  0 ≤ p ≤ p' → 0 < N → percent_le (percent_of p N) (percent_of p' N).
Proof.
  intros Hp HN. unfold percent_of.
  replace (N =? 0) with false by (symmetry; apply Z.eqb_neq; lia).
  replace (N <? 0) with false by (symmetry; apply Z.ltb_ge; lia).
  replace (p <? 0) with false by (symmetry; apply Z.ltb_ge; lia).
  replace (p' <? 0) with false by (symmetry; apply Z.ltb_ge; lia).
  cbn [xorb]. rewrite !Z.abs_eq by lia.
  assert (0 < 2 ^ 1074) as Hu by (by apply Z.pow_pos_nonneg).
  pose proof (nearest_mono p N p' N ltac:(lia) HN HN ltac:(nia)) as Hq.
  assert (0 ≤ PyFloat.nearest p N) as Hq0
    by (unfold PyFloat.nearest; apply round53_nonneg; nia).
  set (q := PyFloat.nearest p N) in *. set (q' := PyFloat.nearest p' N) in *.
  pose proof (nearest_mono (q * 100) (2 ^ 1074) (q' * 100) (2 ^ 1074)
                ltac:(lia) Hu Hu ltac:(nia)) as Hv.
  set (v := PyFloat.nearest (q * 100) (2 ^ 1074)) in *.
  set (v' := PyFloat.nearest (q' * 100) (2 ^ 1074)) in *.
  pose proof (round_half_even_div_mono_frac (100 * v) (2 ^ 1074) (100 * v') (2 ^ 1074)
                Hu Hu ltac:(nia)) as Hk.
  unfold PyFloat.overflows, percent_le.
  destruct (Z.leb_spec (2 ^ 2098) q), (Z.leb_spec (2 ^ 2098) q'),
           (Z.leb_spec (2 ^ 2098) v), (Z.leb_spec (2 ^ 2098) v');
    cbn [percent_rank fst snd]; lia.
Qed.

(** A progress within the total gives a percentage between 0 and 100. *)
Lemma percent_of_bounds p N :
  0 ≤ p ≤ N → 0 < N → ∃ k, percent_of p N = Hundredths k ∧ 0 ≤ k ≤ 10000.
Proof.
  intros Hp HN. unfold percent_of.
  replace (N =? 0) with false by (symmetry; apply Z.eqb_neq; lia).
  replace (N <? 0) with false by (symmetry; apply Z.ltb_ge; lia).
  replace (p <? 0) with false by (symmetry; apply Z.ltb_ge; lia).
  cbn [xorb]. rewrite !Z.abs_eq by lia.
  assert (0 < 2 ^ 1074) as Hu by (by apply Z.pow_pos_nonneg).
  assert (2 ^ 1074 * 100 < 2 ^ 2098) as Hbig by (by vm_compute).
  pose proof (nearest_mono p N 1 1 ltac:(lia) HN ltac:(lia) ltac:(lia)) as Hq.
  rewrite nearest_one in Hq.
  assert (0 ≤ PyFloat.nearest p N) as Hq0
    by (unfold PyFloat.nearest; apply round53_nonneg; nia).
  set (q := PyFloat.nearest p N) in *.
  pose proof (nearest_mono (q * 100) (2 ^ 1074) 100 1 ltac:(lia) Hu ltac:(lia)
                ltac:(lia)) as Hv.
  rewrite nearest_hundred in Hv.
  assert (0 ≤ PyFloat.nearest (q * 100) (2 ^ 1074)) as Hv0
    by (unfold PyFloat.nearest; apply round53_nonneg; nia).
  set (v := PyFloat.nearest (q * 100) (2 ^ 1074)) in *.
  unfold PyFloat.overflows.
  destruct (Z.leb_spec (2 ^ 2098) q); [lia |].
  destruct (Z.leb_spec (2 ^ 2098) v); [lia |].
  eexists. split; [done |]. split.
  - apply round_half_even_div_ge; lia.
  - apply round_half_even_div_le; lia.
Qed.

End FloatFacts.

Lemma int_writes_app key ws1 ws2 :
  int_writes key (ws1 ++ ws2) = int_writes key ws1 ++ int_writes key ws2.
Proof. unfold int_writes. apply omap_app. Qed.

Lemma default_last_cons (p z : Z) (l : list Z) :
  default p (last (z :: l)) = default z (last l).
Proof.
  revert p z. induction l as [|a l IH]; intros p z; [done |].
  rewrite last_cons_cons. by rewrite (IH p a), (IH z a).
Qed.

Section SteadyFacts.
Variables (pk tk : string) (N : Z).
Implicit Types (p : Z) (ws : list (string * RedisValue)).

Lemma steady_weaken p p' ws : (p' ≤ p)%Z → steady pk tk N p ws → steady pk tk N p' ws.
Proof.
  revert p p'. induction ws as [|[k v] ws IH]; intros p p' Hp; [done |].
  cbn [steady fst snd]. repeat case_decide.
  - destruct v; [done |]. intros [? ?]. split; [lia | done].
  - intros [? ?]. split; [done | by eapply IH].
  - by eapply IH.
Qed.

Lemma steady_app p ws1 ws2 :
  steady pk tk N p ws1 →
  steady pk tk N (default p (last (int_writes pk ws1))) ws2 →
  steady pk tk N p (ws1 ++ ws2).
Proof.
  revert p. induction ws1 as [|[k v] ws1 IH]; intros p; [done |].
  cbn [app steady int_writes omap list_omap fst snd].
  destruct (decide (k = pk)) as [->|Hk].
  - destruct v as [s|z]; [done |]. intros [Hp Hs] Hrest. split; [done |].
    apply IH; [done |]. fold (int_writes pk ws1) in Hrest.
    by rewrite default_last_cons in Hrest.
  - fold (int_writes pk ws1). destruct (decide (k = tk)).
    + intros [-> Hs] Hrest. split; [done |]. by apply IH.
    + intros Hs Hrest. by apply IH.
Qed.

(** The integers under [pk], with [p] before them, never go down. *)
Lemma steady_progress p ws i j x y :
  steady pk tk N p ws → i ≤ j →
  (p :: int_writes pk ws) !! i = Some x → (p :: int_writes pk ws) !! j = Some y →
  (x ≤ y)%Z.
Proof.
  revert p i j x y. induction ws as [|[k v] ws IH]; intros p i j x y.
  - intros _ Hij Hi Hj. destruct i, j; simplify_eq/=; lia.
  - cbn [steady int_writes omap list_omap fst snd]. fold (int_writes pk ws).
    destruct (decide (k = pk)) as [->|Hk].
    + destruct v as [s|z]; [done |]. intros [Hp Hs] Hij Hi Hj.
      destruct j as [|j].
      { assert (i = 0) as -> by lia. simplify_eq/=. lia. }
      destruct i as [|i]; simpl in Hi, Hj.
      * injection Hi as <-.
        pose proof (IH z 0 j z y Hs ltac:(lia) eq_refl Hj). lia.
      * eapply (IH z i j); [done | lia | done | done].
    + destruct (decide (k = tk)) as [->|Hk'].
      * intros [_ Hs]. by apply IH.
      * by apply IH.
Qed.

(** Every integer under [tk] is [N]. *)
Lemma steady_total p ws t :
  pk ≠ tk → steady pk tk N p ws → t ∈ int_writes tk ws → t = N.
Proof.
  intros Hne. revert p. induction ws as [|[k v] ws IH]; intros p.
  - intros _ Hin. by apply elem_of_nil in Hin.
  - cbn [steady int_writes omap list_omap fst snd]. fold (int_writes tk ws).
    destruct (decide (k = pk)) as [->|Hk].
    + rewrite decide_False by done. destruct v as [s|z]; [done |].
      intros [_ Hs]. by eapply IH.
    + destruct (decide (k = tk)) as [->|Hk'].
      * intros [-> Hs] [->|Hin]%elem_of_cons; [done | by eapply IH].
      * intros Hs. by eapply IH.
Qed.

End SteadyFacts.

Lemma int_value_insert_eq r task_id key z :
  _int_value (<[_task_key task_id key := RInt z]> r) task_id key = z.
Proof. unfold _int_value. by rewrite lookup_insert_eq. Qed.

Lemma int_value_insert_ne r task_id key k v :
  k ≠ _task_key task_id key →
  _int_value (<[k := v]> r) task_id key = _int_value r task_id key.
Proof. intros Hk. unfold _int_value. by rewrite lookup_insert_ne. Qed.

Section PercentFacts.
Variable task_id : string.
Variable N : Z.
Hypothesis N_nonneg : (0 ≤ N)%Z.

Local Abbreviation pk := (_task_key task_id "progress").
Local Abbreviation tk := (_task_key task_id "total").

Lemma steady_percent_step r p kv ws :
  (0 ≤ p)%Z → in_step task_id N r p → steady pk tk N p (kv :: ws) →
  percent_le (percent r task_id) (percent (<[kv.1 := kv.2]> r) task_id) ∧
  ∃ p', (0 ≤ p')%Z ∧ in_step task_id N (<[kv.1 := kv.2]> r) p' ∧ steady pk tk N p' ws.
Proof.
  destruct kv as [k v]. intros Hp0 [Hp Ht]. cbn [steady fst snd]. unfold percent, in_step.
  destruct (decide (k = pk)) as [->|Hk].
  - destruct v as [s|z]; [done |]. intros [Hle Hs].
    rewrite int_value_insert_eq, (int_value_insert_ne _ _ "total") by key_ne.
    split; [| exists z; split; [lia | done]]. rewrite Hp.
    destruct Ht as [->| ->]; [apply percent_le_no_total |].
    destruct (decide (N = 0%Z)) as [->|HN]; [apply percent_le_no_total |].
    apply percent_of_mono; lia.
  - destruct (decide (k = tk)) as [->|Hk'].
    + intros [-> Hs].
      rewrite int_value_insert_eq, (int_value_insert_ne _ _ "progress") by key_ne.
      split; [| exists p; by auto].
      destruct Ht as [->| ->]; [| apply percent_le_refl].
      apply percent_le_no_total.
    + intros Hs. rewrite !int_value_insert_ne by done.
      split; [apply percent_le_refl | by exists p].
Qed.

(** Along steady writes the percentage a reader derives never goes down. *)
Lemma steady_percent r p ws n m :
  (0 ≤ p)%Z → in_step task_id N r p → steady pk tk N p ws → n ≤ m →
  percent_le (percent (snapshot r (take n ws)) task_id)
             (percent (snapshot r (take m ws)) task_id).
Proof.
  revert r p n m. induction ws as [|kv ws IH]; intros r p n m Hp0 Hin Hs Hnm.
  - rewrite !take_nil. apply percent_le_refl.
  - destruct (steady_percent_step r p kv ws Hp0 Hin Hs) as (Hstep & p' & Hp0' & Hin' & Hs').
    destruct m as [|m].
    { assert (n = 0) as -> by lia. apply percent_le_refl. }
    destruct n as [|n]; cbn [take snapshot fold_left].
    + eapply percent_le_trans; [exact Hstep |].
      apply (IH _ p' 0 m Hp0' Hin' Hs'). lia.
    + apply (IH _ p' n m Hp0' Hin' Hs'). lia.
Qed.

End PercentFacts.

(** Decide the comparisons of two keys of one task. *)
Ltac decide_keys :=
  repeat match goal with
    | |- context [decide (_task_key ?t ?a = _task_key ?t ?b)] =>
        first [ rewrite (decide_True (P := _task_key t a = _task_key t b)) by reflexivity
              | rewrite (decide_False (P := _task_key t a = _task_key t b)) by key_ne ]
    end.

Ltac explicit_writes :=
  cbn [initializing_writes error_writes keyed map app steady int_writes
       omap list_omap fst snd];
  decide_keys.

Section WriteFacts.
Variable csv_reader : string -> list (list string).
Variable utcnow : nat -> Z.
Variable db_error_text : DbError -> string.
Variable task_id file_path : string.
Variable batch_size : Z.

Local Abbreviation pkey := (_task_key task_id "progress").
Local Abbreviation tkey := (_task_key task_id "total").
Local Abbreviation the_loop := (import_rows utcnow task_id batch_size).
Local Abbreviation the_body := (try_body csv_reader utcnow task_id file_path batch_size).
Local Abbreviation the_job :=
  (import_with_batch_size csv_reader utcnow db_error_text task_id file_path batch_size).

(** What the loop publishes: no total, and a progress that climbs from
    [processed] up to the count it returns. *)
Lemma import_rows_writes N rows total batch processed invalid_rows w :
  ∃ ws,
    published (the_loop rows total batch processed invalid_rows w).1 = published w ++ ws ∧
    redis (the_loop rows total batch processed invalid_rows w).1 = snapshot (redis w) ws ∧
    steady pkey tkey N processed ws ∧
    (∀ b p' i', (the_loop rows total batch processed invalid_rows w).2 = Ok (b, p', i') →
                (default processed (last (int_writes pkey ws)) ≤ p')%Z).
Proof.
  revert batch processed invalid_rows w.
  induction rows as [|row rows IH]; intros batch processed invalid_rows w.
  - exists []. cbn [import_rows fst snd]. rewrite app_nil_r.
    split_and!; try done. intros b p' i' [= _ <- _]. simpl. lia.
  - cbn [import_rows]. destruct (_normalize_row row) as [product|]; [| apply IH].
    case_match; [| apply IH].
    destruct (flush _ _ _ _) as [[w1 p1]|e] eqn:Hf.
    + apply flush_Ok in Hf as (_ & Hredis & Hpub & ->).
      rewrite set_task_state_spec.
      match goal with |- context [the_loop rows total [] ?p1 invalid_rows ?w2] =>
        destruct (IH [] p1 invalid_rows w2) as (ws & Hpub' & Hredis' & Hs & Hlast)
      end.
      destruct (the_loop rows total [] _ invalid_rows _) as [w3 res].
      cbn [fst snd published redis] in *.
      eexists (keyed task_id _ ++ ws).
      rewrite Hpub', Hredis', Hpub, Hredis, snapshot_app, <- app_assoc.
      split_and!; [done | done | |].
      * explicit_writes. split; [lia | done].
      * intros b p' i' Hok. specialize (Hlast b p' i' Hok).
        explicit_writes. fold (int_writes pkey ws).
        by rewrite default_last_cons.
    + exists []. cbn [fst snd]. rewrite app_nil_r. by split_and!.
Qed.

Lemma steady_error_writes N p msg : steady pkey tkey N p (error_writes task_id msg).
Proof. by explicit_writes. Qed.

(** What the [try] block publishes. *)
Lemma try_body_writes w :
  ∃ ws,
    published (the_body w).1 = published w ++ ws ∧
    redis (the_body w).1 = snapshot (redis w) ws ∧
    steady pkey tkey (counted_total file_path w) 0 ws ∧
    (files w !! file_path = None → ws = []).
Proof.
  unfold try_body, _count_rows, read_file, counted_total.
  destruct (files w !! file_path) as [content|] eqn:Hfile; cbn [from_option].
  2:{ exists []. rewrite app_nil_r. by split_and!. }
  do 2 (rewrite ?set_task_state_spec; cbn [files]; rewrite ?Hfile).
  fold (rows_count content).
  set (parsing := keyed task_id [("status", RStr "parsing"); ("total", RInt (rows_count content))]).
  assert (steady pkey tkey (rows_count content) 0 parsing) as Hparsing
    by (subst parsing; by explicit_writes).
  assert (int_writes pkey parsing = []) as Hnone
    by (subst parsing; by explicit_writes).
  case_decide.
  { exists parsing. by split_and!. }
  match goal with |- context [the_loop ?rows ?total [] 0%Z 0%Z ?w0] =>
    destruct (import_rows_writes (rows_count content) rows total [] 0%Z 0%Z w0)
      as (ws & Hpub & Hredis & Hs & Hlast);
    destruct (the_loop rows total [] 0%Z 0%Z w0) as [w1 [[[batch processed] invalid_rows]|e]]
  end; cbn [fst snd published redis] in *.
  2:{ exists (parsing ++ ws). rewrite Hpub, Hredis, snapshot_app, <- app_assoc.
      split_and!; try done. apply steady_app; [done | by rewrite Hnone]. }
  specialize (Hlast _ _ _ eq_refl).
  assert (∀ w2 pf, redis w2 = redis w1 → published w2 = published w1 → (processed ≤ pf)%Z →
    ∃ ws0,
      published (_set_task_state task_id
                   [("status", RStr "complete"); ("progress", RInt pf);
                    ("total", RInt (rows_count content)); ("invalid", RInt invalid_rows)] w2)
        = published w ++ ws0 ∧
      redis (_set_task_state task_id
               [("status", RStr "complete"); ("progress", RInt pf);
                ("total", RInt (rows_count content)); ("invalid", RInt invalid_rows)] w2)
        = snapshot (redis w) ws0 ∧
      steady pkey tkey (rows_count content) 0 ws0 ∧
      (Some content = None → ws0 = [])) as Hcomplete.
  { intros w2 pf Hr2 Hp2 Hpf. rewrite set_task_state_spec. cbn [published redis].
    eexists ((parsing ++ ws) ++ keyed task_id _).
    rewrite Hp2, Hr2, Hpub, Hredis, !snapshot_app, <- !app_assoc.
    split_and!; try done. rewrite app_assoc.
    apply steady_app; [apply steady_app; [done | by rewrite Hnone] |].
    explicit_writes. split; [| done].
    rewrite int_writes_app, Hnone. cbn [app]. lia. }
  destruct batch as [|b batch].
  - apply Hcomplete; [done | done | lia].
  - destruct (flush _ _ _ _) as [[w2 p2]|e] eqn:Hf.
    + apply flush_Ok in Hf as (_ & Hr2 & Hp2 & ->). apply Hcomplete; [done | done | lia].
    + exists (parsing ++ ws). cbn [fst].
      rewrite Hpub, Hredis, snapshot_app, <- app_assoc.
      split_and!; try done. apply steady_app; [done | by rewrite Hnone].
Qed.

(** What the whole job publishes: the four initial writes, then steady
    ones. *)
Lemma import_with_batch_size_writes w :
  ∃ ws,
    published (the_job w).1 = published w ++ initializing_writes task_id ++ ws ∧
    redis (the_job w).1 = snapshot (redis w) (initializing_writes task_id ++ ws) ∧
    steady pkey tkey (counted_total file_path w) 0 ws ∧
    (files w !! file_path = None → int_writes tkey ws = []).
Proof.
  unfold import_with_batch_size. rewrite set_task_state_spec.
  fold (initializing_writes task_id).
  match goal with |- context [the_body ?w0] =>
    destruct (try_body_writes w0) as (ws & Hpub & Hredis & Hs & Hnone);
    destruct (the_body w0) as [w1 [[]|exc]]
  end; cbn [fst snd published redis files] in *.
  - exists ws. cbn [remove_source published redis].
    rewrite Hpub, Hredis, snapshot_app, <- app_assoc.
    split_and!; try done. intros Hfile. by rewrite (Hnone Hfile).
  - unfold except_clause. rewrite set_task_state_spec.
    fold (error_writes task_id (exn_str db_error_text exc)).
    exists (ws ++ error_writes task_id (exn_str db_error_text exc)).
    cbn [fst remove_source published redis].
    rewrite Hpub, Hredis, !snapshot_app, <- !app_assoc.
    split_and!; try done.
    + apply steady_app; [done | apply steady_error_writes].
    + intros Hfile. rewrite (Hnone Hfile). by explicit_writes.
Qed.

End WriteFacts.

Lemma counted_total_nonneg file_path w : (0 ≤ counted_total file_path w)%Z.
Proof.
  unfold counted_total, rows_count. destruct (files w !! file_path); simpl; lia.
Qed.

(** While the four initial writes are under way a reader derives no
    percentage. *)
Lemma percent_initializing task_id r n ws :
  r !! _task_key task_id "total" = None → n ≤ 4 →
  percent (snapshot r (take n (initializing_writes task_id ++ ws))) task_id = NoPercent.
Proof.
  intros Htotal Hn. rewrite take_app_le by done.
  unfold percent, _int_value.
  destruct n as [|[|[|[|[|n]]]]]; [..| lia];
    cbn [initializing_writes keyed map take snapshot fold_left fst snd];
    repeat first [ rewrite lookup_insert_eq | rewrite lookup_insert_ne by key_ne ];
    rewrite ?Htotal; done.
Qed.

Lemma in_step_initialized task_id N r :
  in_step task_id N (snapshot r (initializing_writes task_id)) 0.
Proof.
  unfold in_step, _int_value.
  cbn [initializing_writes keyed map snapshot fold_left fst snd].
  repeat first [ rewrite lookup_insert_eq | rewrite lookup_insert_ne by key_ne ].
  by auto.
Qed.

(** C10, as the claim has it, fails: on the three-row input the totals
    written are 0, 3 and 3, so total changes after it is first published. *)
Lemma C10_total_changes_after_first_write :
  ¬ constant (int_writes (_task_key "t1" "total") (published sample_run.1)).
Proof.
  intros Hconst.
  assert (int_writes (_task_key "t1" "total") (published sample_run.1) = [0; 3; 3]%Z) as Heq
    by (vm_compute; reflexivity).
  rewrite Heq in Hconst.
  specialize (Hconst 0%Z 3%Z). discriminate Hconst; [by left | right; by left].
Qed.

(** C10 (amended): the writes of one job, in order, are such that the
    progress written never decreases; total is written as 0 by the
    initial write and as the counted number of data rows by every later
    one; and for a job whose keys were not in the store before (a fresh
    task id), the percentage a reader derives from the store after [n]
    writes, absent while total reads 0, is present and at least as large
    after any later write.  The percentage is the float the reader
    computes; were the counters so large that its product is [inf] or
    its division raises, the reader would get that from then on. *)
Theorem C10_progress_and_percent_never_decrease
    (csv_reader : string -> list (list string)) (utcnow : nat -> Z)
    (db_error_text : DbError -> string) (task_id file_path : string)
    (batch_size : Z) (w : World) :
  redis w !! _task_key task_id "progress" = None →
  redis w !! _task_key task_id "total" = None →
  let out := import_with_batch_size csv_reader utcnow db_error_text
               task_id file_path batch_size w in
  ∃ ws,
    published out.1 = published w ++ ws ∧
    redis out.1 = snapshot (redis w) ws ∧
    (∀ i j x y, i ≤ j →
       int_writes (_task_key task_id "progress") ws !! i = Some x →
       int_writes (_task_key task_id "progress") ws !! j = Some y → (x ≤ y)%Z) ∧
    (∃ later,
       int_writes (_task_key task_id "total") ws = 0%Z :: later ∧
       ∀ t, t ∈ later → t = counted_total file_path w) ∧
    (∀ n m, n ≤ m →
       percent_le (percent (snapshot (redis w) (take n ws)) task_id)
                  (percent (snapshot (redis w) (take m ws)) task_id)).
Proof.
  intros Hprogress Htotal out. subst out.
  destruct (import_with_batch_size_writes csv_reader utcnow db_error_text task_id
              file_path batch_size w) as (ws & Hpub & Hredis & Hs & _).
  exists (initializing_writes task_id ++ ws). split_and!; [done | done | | |].
  - intros i j x y Hij. rewrite int_writes_app.
    replace (int_writes (_task_key task_id "progress") (initializing_writes task_id))
      with [0%Z] by (by explicit_writes).
    cbn [app]. by eapply steady_progress.
  - exists (int_writes (_task_key task_id "total") ws). split.
    + rewrite int_writes_app. by explicit_writes.
    + intros t Ht. eapply steady_total; [| done | done]. key_ne.
  - intros n m Hnm. destruct (decide (n ≤ 4)) as [Hn|Hn].
    { rewrite percent_initializing by done. apply (percent_le_no_total 0). }
    rewrite !take_app_ge by (cbn; lia). rewrite !snapshot_app.
    eapply (steady_percent _ _ (counted_total_nonneg _ _) _ 0%Z);
      [done | apply in_step_initialized | done | lia].
Qed.

(** The statement of C10 on the three-row input. *)
Lemma C10_witness :
  let out := sample_run in
  ∃ ws,
    published out.1 = published sample_world ++ ws ∧
    redis out.1 = snapshot (redis sample_world) ws ∧
    (∀ i j x y, i ≤ j →
       int_writes (_task_key "t1" "progress") ws !! i = Some x →
       int_writes (_task_key "t1" "progress") ws !! j = Some y → (x ≤ y)%Z) ∧
    (∃ later,
       int_writes (_task_key "t1" "total") ws = 0%Z :: later ∧
       ∀ t, t ∈ later → t = counted_total "/tmp/u.csv" sample_world) ∧
    (∀ n m, n ≤ m →
       percent_le (percent (snapshot (redis sample_world) (take n ws)) "t1")
                  (percent (snapshot (redis sample_world) (take m ws)) "t1")).
Proof.
  apply (C10_progress_and_percent_never_decrease csv_plain (fun k => Z.of_nat k)
           (fun _ => "db error") "t1" "/tmp/u.csv" default_batch_size sample_world).
  - reflexivity.
  - reflexivity.
Defined.

(** * Further properties of the code *)

(** ** Trimming *)

Lemma lstrip_head s :
  match PyStr.lstrip s with
  | EmptyString => True
  | String c _ => PyStr.is_space c = false
  end.
Proof.
  induction s as [|c s IH]; [done |]. cbn [PyStr.lstrip].
  by destruct (PyStr.is_space c) eqn:Hc.
Qed.

Lemma lstrip_id s :
  match s with
  | EmptyString => True
  | String c _ => PyStr.is_space c = false
  end → PyStr.lstrip s = s.
Proof. destruct s as [|c s]; [done |]. cbn [PyStr.lstrip]. by intros ->. Qed.

Lemma rstrip_head s :
  match s with
  | EmptyString => True
  | String c _ => PyStr.is_space c = false
  end →
  match PyStr.rstrip s with
  | EmptyString => True
  | String c _ => PyStr.is_space c = false
  end.
Proof.
  destruct s as [|c s]; [done |]. cbn [PyStr.rstrip]. intros Hc.
  destruct (PyStr.rstrip s); by rewrite ?Hc.
Qed.

Lemma rstrip_idem s : PyStr.rstrip (PyStr.rstrip s) = PyStr.rstrip s.
Proof.
  induction s as [|c s IH]; [done |]. cbn [PyStr.rstrip].
  destruct (PyStr.rstrip s) as [|c' r] eqn:Hr.
  - destruct (PyStr.is_space c) eqn:Hc; [done |]. cbn [PyStr.rstrip]. by rewrite Hc.
  - change (PyStr.rstrip (String c (String c' r)))
      with (match PyStr.rstrip (String c' r) with
            | EmptyString => if PyStr.is_space c then EmptyString else String c EmptyString
            | r0 => String c r0
            end).
    by rewrite IH.
Qed.

Lemma strip_idem s : PyStr.strip (PyStr.strip s) = PyStr.strip s.
Proof.
  unfold PyStr.strip.
  rewrite (lstrip_id (PyStr.rstrip (PyStr.lstrip s))) by apply rstrip_head, lstrip_head.
  apply rstrip_idem.
Qed.

Lemma or_none_Some s n : PyStr.or_none s = Some n → n = s ∧ s ≠ "".
Proof. unfold PyStr.or_none. destruct s; [done |]. by intros [= <-]. Qed.

Lemma parse_price_to_cents_nonneg value c :
  _parse_price_to_cents value = Some c → (0 ≤ c)%Z.
Proof.
  unfold _parse_price_to_cents. destruct value as [v|]; [| done].
  repeat case_match; try done. intros [= <-]. lia.
Qed.

Lemma normalize_keys_same row row' :
  Forall2 (fun a b => PyStr.lower (PyStr.strip a.1) = PyStr.lower (PyStr.strip b.1)
                      ∧ a.2 = b.2) row row' →
  normalize_keys row = normalize_keys row'.
Proof.
  unfold normalize_keys. generalize (@nil (string * option string)).
  intros d H. revert d. induction H as [|a b row row' [Hk Hv] _ IH]; intros d; [done |].
  cbn [fold_left]. rewrite Hk, Hv. apply IH.
Qed.


(** ** The row normalizer *)

(** X1: a record the normalizer accepts is canonical: its sku is not
    empty and carries no surrounding white space, a name or description
    that is present is not empty and is trimmed, and a price that is
    present is not negative. *)
Theorem normalize_row_record_is_canonical (row : RawRow) (r : ProductRow) :
  _normalize_row row = Some r →
  sku r ≠ "" ∧ PyStr.strip (sku r) = sku r ∧
  (∀ n, name r = Some n → n ≠ "" ∧ PyStr.strip n = n) ∧
  (∀ d, description r = Some d → d ≠ "" ∧ PyStr.strip d = d) ∧
  (∀ c, price_cents r = Some c → (0 ≤ c)%Z).
Proof.
  unfold _normalize_row.
  destruct (PyStr.is_empty _) eqn:He; [done |]. intros [= <-]. cbn [sku name description price_cents].
  split_and!.
  - intros Hs. by rewrite Hs in He.
  - apply strip_idem.
  - intros n [-> Hn]%or_none_Some. split; [done | apply strip_idem].
  - intros d [-> Hd]%or_none_Some. split; [done | apply strip_idem].
  - intros c. unfold py_or_int.
    destruct (_parse_price_to_cents (get_cell _ "price_cents")) as [a|] eqn:Ha.
    + destruct (a =? 0)%Z.
      * apply parse_price_to_cents_nonneg.
      * intros [= <-]. by eapply parse_price_to_cents_nonneg.
    + apply parse_price_to_cents_nonneg.
Qed.

(** The statement of X1 on a row with padded cells. *)
Lemma normalize_row_record_is_canonical_witness :
  let r := {| sku := "A1"; name := Some "Widget"; description := None;
              price_cents := Some 125050%Z; active := true |} in
  sku r ≠ "" ∧ PyStr.strip (sku r) = sku r ∧
  (∀ n, name r = Some n → n ≠ "" ∧ PyStr.strip n = n) ∧
  (∀ d, description r = Some d → d ≠ "" ∧ PyStr.strip d = d) ∧
  (∀ c, price_cents r = Some c → (0 ≤ c)%Z).
Proof.
  apply (normalize_row_record_is_canonical shouting_row). vm_compute. reflexivity.
Defined.

(** X2: header names are matched without regard to case or surrounding
    white space: two rows whose headers agree once stripped and
    lower-cased, cell by cell, are normalised alike. *)
Theorem normalize_row_ignores_header_spelling (row row' : RawRow) :
  Forall2 (fun a b => PyStr.lower (PyStr.strip a.1) = PyStr.lower (PyStr.strip b.1)
                      ∧ a.2 = b.2) row row' →
  _normalize_row row = _normalize_row row'.
Proof.
  intros H. unfold _normalize_row. by rewrite (normalize_keys_same row row' H).
Qed.

(** The statement of X2 on the same record under two spellings. *)
Lemma normalize_row_ignores_header_spelling_witness :
  _normalize_row shouting_row = _normalize_row plain_row.
Proof.
  apply normalize_row_ignores_header_spelling.
  repeat constructor.
Defined.

Lemma remove_char_idem c s :
  PyStr.remove_char c (PyStr.remove_char c s) = PyStr.remove_char c s.
Proof.
  induction s as [|a s IH]; [done |]. cbn [PyStr.remove_char].
  destruct (Ascii.eqb a c) eqn:Ha; [done |]. cbn [PyStr.remove_char]. by rewrite Ha, IH.
Qed.

Lemma remove_char_comm c d s :
  PyStr.remove_char c (PyStr.remove_char d s) = PyStr.remove_char d (PyStr.remove_char c s).
Proof.
  induction s as [|a s IH]; [done |]. cbn [PyStr.remove_char].
  destruct (Ascii.eqb a d) eqn:Hd, (Ascii.eqb a c) eqn:Hc;
    cbn [PyStr.remove_char]; rewrite ?Hd, ?Hc, ?IH; done.
Qed.

(** X3: dollar signs and commas count for nothing wherever they stand in
    a price: a text and the same text without them give the same cents. *)
Theorem parse_price_to_cents_ignores_symbols (s : string) :
  _parse_price_to_cents (Some s)
  = _parse_price_to_cents (Some (PyStr.remove_char "," (PyStr.remove_char "$" s))).
Proof.
  unfold _parse_price_to_cents.
  rewrite (remove_char_comm "$" "," (PyStr.remove_char "$" s)).
  rewrite !remove_char_idem.
  destruct s as [|a s]; [done |]. cbn [PyStr.is_empty].
  destruct (PyStr.remove_char "," (PyStr.remove_char "$" (String a s))) as [|b t] eqn:Hc; done.
Qed.

(** ** The batch deduplicator, continued *)

(** X4: the deduplicator returns its input unchanged exactly when the
    case-insensitive skus of the input are pairwise distinct; in
    particular, deduplicating twice is deduplicating once. *)
Theorem dedupe_batch_fixed_points (rows : list ProductRow) :
  (_dedupe_batch rows = rows ↔ NoDup (row_key <$> rows)) ∧
  _dedupe_batch (_dedupe_batch rows) = _dedupe_batch rows.
Proof.
  assert (NoDup (row_key <$> _dedupe_batch rows)) as Hnd.
  { change (_dedupe_batch rows) with (dict_values (deduped rows)).
    rewrite deduped_keys_values. apply deduped_NoDup. }
  split; [| by apply dedupe_batch_distinct].
  split; [by intros <- | apply dedupe_batch_distinct].
Qed.

(** X5: the records come out in the order in which their keys first
    appear in the input: the keys of the output are the keys of the
    input with every later repetition dropped. *)
Theorem dedupe_batch_keeps_first_positions (rows : list ProductRow) :
  row_key <$> _dedupe_batch rows
  = reverse (remove_dups (reverse (row_key <$> rows))).
Proof.
  change (_dedupe_batch rows) with (dict_values (deduped rows)).
  rewrite deduped_keys_values.
  induction rows as [|r rows IH] using rev_ind; [done |].
  rewrite deduped_snoc, dict_keys_set, fmap_app, reverse_app. cbn [fmap list_fmap reverse app].
  rewrite reverse_singleton. cbn [app remove_dups].
  rewrite IH.
  destruct (decide (row_key r ∈ reverse (remove_dups (reverse (row_key <$> rows)))))
    as [Hin|Hnin];
    destruct (decide_rel elem_of (row_key r) (reverse (row_key <$> rows))) as [Hin'|Hnin'].
  - done.
  - exfalso. apply Hnin'. by rewrite elem_of_reverse, elem_of_remove_dups in Hin.
  - exfalso. apply Hnin. by rewrite elem_of_reverse, elem_of_remove_dups.
  - by rewrite reverse_cons.
Qed.


(** ** The bulk upsert, continued *)

Lemma chunks_fuel_nil {A} fuel n : chunks_fuel fuel n (@nil A) = [].
Proof. by destruct fuel. Qed.

Lemma chunks_fuel_lookup {A} fuel n (l : list A) i :
  0 < n → length l ≤ fuel →
  chunks_fuel fuel n l !! i =
    if decide (i * n < length l) then Some (take n (drop (i * n) l)) else None.
Proof.
  intros Hn. revert l i. induction fuel as [|fuel IH]; intros l i Hl.
  - destruct l; [| simpl in Hl; lia]. cbn [chunks_fuel]. rewrite lookup_nil.
    destruct (decide (i * n < length [])) as [Hi|Hi]; [simpl in Hi; lia | done].
  - destruct l as [|a l].
    { cbn [chunks_fuel]. rewrite lookup_nil.
      destruct (decide (i * n < length [])) as [Hi|Hi]; [simpl in Hi; lia | done]. }
    cbn [chunks_fuel]. destruct i as [|i].
    + cbn [lookup list_lookup].
      destruct (decide (0 * n < length (a :: l))) as [Hi|Hi]; [done | simpl in Hi; lia].
    + cbn [lookup list_lookup]. rewrite IH by (rewrite length_drop; simpl in *; lia).
      rewrite length_drop, drop_drop.
      clear IH.
      destruct (decide (i * n < length (a :: l) - n)) as [Hi|Hi];
        destruct (decide (S i * n < length (a :: l))) as [Hi'|Hi']; try lia; done.
Qed.

(** X6: the chunks are the slices [rows_list[i : i + chunk_size]] for
    [i] = 0, [chunk_size], [2 * chunk_size], ... below the length: the
    [k]-th chunk is that slice when it starts inside the list, and there
    is no [k]-th chunk otherwise; joined together they give the list. *)
Theorem chunks_are_the_slices {A : Type} (n : nat) (l : list A) (k : nat) :
  0 < n →
  chunks n l !! k =
    (if decide (k * n < length l) then Some (take n (drop (k * n) l)) else None) ∧
  concat (chunks n l) = l.
Proof.
  intros Hn. split; [by apply chunks_fuel_lookup | by apply concat_chunks].
Qed.

(** The statement of X6 on five elements cut by two. *)
Lemma chunks_are_the_slices_witness :
  chunks 2 [1; 2; 3; 4; 5] !! 2 =
    (if decide (2 * 2 < length [1; 2; 3; 4; 5])
     then Some (take 2 (drop (2 * 2) [1; 2; 3; 4; 5])) else None) ∧
  concat (chunks 2 [1; 2; 3; 4; 5]) = [1; 2; 3; 4; 5].
Proof. apply (chunks_are_the_slices 2 [1; 2; 3; 4; 5] 2). lia. Defined.

Section UpsertMore.
Variable utcnow : nat -> Z.
Implicit Types (r : ProductRow) (rows chunk : list ProductRow) (st : Store).

Lemma execute_inr_valid chunk touched st st' :
  execute utcnow chunk touched st = inr st' →
  valid_batch chunk ∧ ∀ r, r ∈ chunk → row_key r ∉ touched.
Proof.
  revert touched st. induction chunk as [|r chunk IH]; intros touched st; cbn [execute].
  - intros _. split; [split; [constructor | rewrite fmap_nil; apply NoDup_nil_2] |].
    intros r Hr. by apply elem_of_nil in Hr.
  - destruct (check_columns r) eqn:Hc; [done |]. case_decide as Ht; [done |].
    intros [[Hfit Hnd] Hfresh]%IH. split; [split |].
    + by constructor.
    + rewrite fmap_cons. apply NoDup_cons. split; [| done].
      intros [r' [Hk Hr']]%list_elem_of_fmap.
      apply (Hfresh r' Hr'). rewrite <- Hk. by left.
    + intros r' [->|Hr']%elem_of_cons; [done |].
      intros Hin. apply (Hfresh r' Hr'). by right.
Qed.

Lemma execute_chunks_inr_valid cs processed st st' n :
  execute_chunks utcnow cs processed st = inr (st', n) → Forall valid_batch cs.
Proof.
  revert processed st. induction cs as [|chunk cs IH]; intros processed st; cbn [execute_chunks].
  - by constructor.
  - destruct (execute utcnow chunk [] st) as [e|st1] eqn:Hex; [done |].
    apply execute_inr_valid in Hex as [Hv _]. intros ?%IH. by constructor.
Qed.

(** A chunk whose records fit the columns but repeat a key, or meet a key
    the statement has already touched, is refused as a second touch. *)
Lemma execute_repeated_key chunk touched st :
  Forall (fun r => check_columns r = None) chunk →
  ¬ (NoDup (row_key <$> chunk) ∧ ∀ r, r ∈ chunk → row_key r ∉ touched) →
  execute utcnow chunk touched st = inl CardinalityViolation.
Proof.
  revert touched st. induction chunk as [|r chunk IH]; intros touched st Hfit Hbad.
  - exfalso. apply Hbad. split; [rewrite fmap_nil; apply NoDup_nil_2 |].
    intros r Hr. by apply elem_of_nil in Hr.
  - apply Forall_cons in Hfit as [Hr Hfit]. cbn [execute]. rewrite Hr.
    case_decide as Ht; [done |]. apply IH; [done |].
    intros [Hnd Hfresh]. apply Hbad. split.
    + rewrite fmap_cons. apply NoDup_cons. split; [| done].
      intros [r' [Hk Hr']]%list_elem_of_fmap.
      apply (Hfresh r' Hr'). rewrite <- Hk. by left.
    + intros r' [->|Hr']%elem_of_cons; [done |].
      intros Hin. apply (Hfresh r' Hr'). by right.
Qed.

Lemma upsert_all_keys rows st k :
  k ∈ Product.lower_sku <$> products (upsert_all utcnow rows st) ↔
  k ∈ Product.lower_sku <$> products st ∨ k ∈ row_key <$> rows.
Proof.
  revert st. induction rows as [|r rows IH]; intros st.
  - rewrite fmap_nil. split; [by left | intros [?|Hin]; [done | by apply elem_of_nil in Hin]].
  - rewrite upsert_all_cons, IH, fmap_cons. cbn [upsert_one products].
    rewrite insert_or_update_keys by done.
    case_decide as Hin; rewrite ?elem_of_app, ?list_elem_of_singleton, elem_of_cons.
    + split; [intros [?|?]; auto | intros [?|[->|?]]; auto].
    + split; [intros [[?|?]|?]; auto | intros [?|[?|?]]; auto].
Qed.

Lemma insert_or_update_length r fresh ps :
  length ps ≤ length (insert_or_update r fresh ps).
Proof.
  induction ps as [|q ps IH]; cbn [insert_or_update]; [simpl; lia |].
  case_decide; simpl; lia.
Qed.

Lemma upsert_all_length rows st :
  length (products st) ≤ length (products (upsert_all utcnow rows st)).
Proof.
  revert st. induction rows as [|r rows IH]; intros st; [done |].
  rewrite upsert_all_cons. etrans; [| apply IH].
  apply insert_or_update_length.
Qed.

(** After the rows of a batch, the stored row for a key of the batch has
    the values of the last record with that key. *)
Lemma upsert_all_settles_last rows st r :
  last_with_key (row_key r) rows = Some r →
  settled r (products (upsert_all utcnow rows st)).
Proof.
  unfold last_with_key. revert r. induction rows as [|r0 rows IH] using rev_ind; intros r; [done |].
  rewrite upsert_all_snoc, filter_app, filter_cons, filter_nil.
  destruct (decide (row_key r0 = row_key r)) as [Hk|Hk].
  - rewrite last_snoc. intros [= ->]. by apply insert_or_update_settles.
  - rewrite app_nil_r. intros Hl. apply insert_or_update_keeps_settled; [done | by apply IH].
Qed.

Lemma upsert_one_ids_fresh r st : ids_fresh st → ids_fresh (upsert_one utcnow r st).
Proof.
  intros [Hlt Hnd]. unfold ids_fresh. cbn [upsert_one products next_id].
  assert (Product.id <$> insert_or_update r (proposed utcnow st r) (products st)
          = Product.id <$> products st
          ∨ Product.id <$> insert_or_update r (proposed utcnow st r) (products st)
            = (Product.id <$> products st) ++ [next_id st]) as Hids.
  { clear. induction (products st) as [|q ps IH]; cbn [insert_or_update]; [by right |].
    case_decide; [by left |]. rewrite !fmap_cons. destruct IH as [->| ->]; auto. }
  assert (Forall (fun i => (i < next_id st)%Z) (Product.id <$> products st)) as Hlt'
    by (by apply Forall_fmap).
  split.
  - apply (proj1 (Forall_fmap Product.id (fun i : Z => (i < next_id st + 1)%Z) _)).
    destruct Hids as [->| ->].
    + eapply Forall_impl; [done |]. simpl. lia.
    + apply Forall_app. split; [| repeat constructor; lia].
      eapply Forall_impl; [done |]. simpl. lia.
  - destruct Hids as [->| ->]; [done |].
    apply NoDup_app. split_and!; [done | | apply NoDup_singleton].
    intros x Hx ->%list_elem_of_singleton.
    rewrite Forall_forall in Hlt'. specialize (Hlt' _ Hx). lia.
Qed.

Lemma upsert_all_ids_fresh rows st : ids_fresh st → ids_fresh (upsert_all utcnow rows st).
Proof.
  revert st. induction rows as [|r rows IH]; intros st H; [done |].
  rewrite upsert_all_cons. by apply IH, upsert_one_ids_fresh.
Qed.

End UpsertMore.

Lemma chunks_single {A} n (l : list A) : l ≠ [] → length l ≤ n → chunks n l = [l].
Proof.
  intros Hne Hn. unfold chunks. destruct l as [|a l]; [done |].
  cbn [length chunks_fuel]. rewrite take_ge, drop_ge by done.
  by rewrite chunks_fuel_nil.
Qed.

(** X7: a call with a positive chunk size returns exactly when every
    chunk is acceptable on its own (its records fit the column types and
    no two of them share a key); it then has proposed every record and
    reports their number.  Otherwise it raises a database error.  Records
    that share a key but fall into different chunks are no obstacle. *)
Theorem upsert_products_bulk_accepts_iff
    (utcnow : nat -> Z) (rows : list ProductRow) (n : nat) (st : Store) :
  0 < n →
  (Forall valid_batch (chunks n rows) →
   upsert_products_bulk utcnow rows n st
     = Ok (upsert_all utcnow rows st, Z.of_nat (length rows))) ∧
  (¬ Forall valid_batch (chunks n rows) →
   ∃ e, upsert_products_bulk utcnow rows n st = Raise (DBAPIError e)).
Proof.
  intros Hn. unfold upsert_products_bulk. destruct rows as [|r rows].
  { split; [done |]. intros Hbad. exfalso. apply Hbad. constructor. }
  destruct n as [|m]; [lia |]. split.
  - intros Hvalid. rewrite execute_chunks_ok by done.
    by rewrite concat_chunks by lia.
  - intros Hbad.
    destruct (execute_chunks utcnow (chunks (S m) (r :: rows)) 0 st) as [e|[st' c]] eqn:Hex.
    + by exists e.
    + exfalso. apply Hbad. by eapply execute_chunks_inr_valid.
Qed.

(** The statement of X7 on a batch of two records for one key, cut into
    chunks of one (accepted) and of two (refused). *)
Lemma upsert_products_bulk_accepts_iff_witness :
  (Forall valid_batch (chunks 1 [widget_row; widget_row_again]) →
   upsert_products_bulk Z.of_nat [widget_row; widget_row_again] 1 widget_store
     = Ok (upsert_all Z.of_nat [widget_row; widget_row_again] widget_store,
           Z.of_nat (length [widget_row; widget_row_again]))) ∧
  (¬ Forall valid_batch (chunks 1 [widget_row; widget_row_again]) →
   ∃ e, upsert_products_bulk Z.of_nat [widget_row; widget_row_again] 1 widget_store
        = Raise (DBAPIError e)).
Proof.
  apply (upsert_products_bulk_accepts_iff Z.of_nat [widget_row; widget_row_again] 1 widget_store).
  lia.
Defined.

(** X8: a batch that goes into one statement, whose records fit the
    column types but in which two records share a case-insensitive sku,
    is refused: the statement may not touch a row twice.  This is what
    the deduplicator is there to prevent. *)
Theorem upsert_products_bulk_refuses_repeated_key
    (utcnow : nat -> Z) (rows : list ProductRow) (n : nat) (st : Store) :
  Forall (fun r => check_columns r = None) rows →
  ¬ NoDup (row_key <$> rows) →
  length rows ≤ n →
  upsert_products_bulk utcnow rows n st = Raise (DBAPIError CardinalityViolation).
Proof.
  intros Hfit Hdup Hlen. unfold upsert_products_bulk.
  destruct rows as [|r rows]; [exfalso; apply Hdup; apply NoDup_nil_2 |].
  destruct n as [|m]; [simpl in Hlen; lia |].
  rewrite chunks_single by done. cbn [execute_chunks].
  rewrite execute_repeated_key; [done | done |]. by intros [? _].
Qed.

(** The statement of X8 on two records for the key a1. *)
Lemma upsert_products_bulk_refuses_repeated_key_witness :
  upsert_products_bulk Z.of_nat [widget_row; widget_row_again] default_chunk_size widget_store
  = Raise (DBAPIError CardinalityViolation).
Proof.
  apply upsert_products_bulk_refuses_repeated_key.
  - by repeat constructor.
  - intros Hnd. apply (bool_decide_pack _) in Hnd. vm_compute in Hnd. exact Hnd.
  - vm_compute. lia.
Defined.

(** X9: an upsert that returns keeps the unique index, deletes and moves
    nothing, and reaches only the keys of its batch: the keys stored
    afterwards are those stored before and those of the batch, the table
    is at least as long, and a stored row whose key is not in the batch is
    where and what it was. *)
Theorem upsert_products_bulk_touches_batch_keys_only
    (utcnow : nat -> Z) (rows : list ProductRow) (n : nat) (st st' : Store) (c : Z) :
  unique_keys (products st) →
  upsert_products_bulk utcnow rows n st = Ok (st', c) →
  unique_keys (products st') ∧
  (∀ k, k ∈ Product.lower_sku <$> products st' ↔
        k ∈ Product.lower_sku <$> products st ∨ k ∈ row_key <$> rows) ∧
  length (products st) ≤ length (products st') ∧
  (∀ i p, products st !! i = Some p → Product.lower_sku p ∉ row_key <$> rows →
          products st' !! i = Some p).
Proof.
  intros Huniq Hup.
  apply upsert_products_bulk_Ok in Hup as [_ [[-> ->]|[_ ->]]].
  { split_and!; try done. intros k. rewrite fmap_nil.
    split; [by left | intros [?|Hin]; [done | by apply elem_of_nil in Hin]]. }
  split_and!.
  - by apply upsert_all_unique.
  - apply upsert_all_keys.
  - apply upsert_all_length.
  - intros i p Hi Hk. apply upsert_all_lookup_other; [done |].
    intros r Hr Heq. apply Hk. rewrite <- Heq. by apply list_elem_of_fmap_2.
Qed.

(** The statement of X9 on the one-row table and a record for a new key. *)
Lemma upsert_products_bulk_touches_batch_keys_only_witness :
  let st' := upsert_all Z.of_nat [gadget_row] widget_store in
  unique_keys (products st') ∧
  (∀ k, k ∈ Product.lower_sku <$> products st' ↔
        k ∈ Product.lower_sku <$> products widget_store ∨ k ∈ row_key <$> [gadget_row]) ∧
  length (products widget_store) ≤ length (products st') ∧
  (∀ i p, products widget_store !! i = Some p →
          Product.lower_sku p ∉ row_key <$> [gadget_row] →
          products st' !! i = Some p).
Proof.
  apply (upsert_products_bulk_touches_batch_keys_only Z.of_nat [gadget_row]
           default_chunk_size widget_store _ 1%Z).
  - apply (bool_decide_unpack _). vm_compute. exact I.
  - reflexivity.
Defined.

(** X10: an upsert that returns stores, for every key of its batch, the
    values of the last record of the batch with that key: some stored row
    has that key and that record's name, description, price and active
    flag. *)
Theorem upsert_products_bulk_stores_last_values
    (utcnow : nat -> Z) (rows : list ProductRow) (n : nat) (st st' : Store) (c : Z)
    (r : ProductRow) :
  upsert_products_bulk utcnow rows n st = Ok (st', c) →
  last_with_key (row_key r) rows = Some r →
  settled r (products st').
Proof.
  intros Hup Hlast.
  apply upsert_products_bulk_Ok in Hup as [_ [[-> ->]|[_ ->]]]; [done |].
  by apply upsert_all_settles_last.
Qed.

(** The statement of X10 on two records for one key in chunks of one. *)
Lemma upsert_products_bulk_stores_last_values_witness :
  settled widget_row_again
    (products (upsert_all Z.of_nat [widget_row; widget_row_again] widget_store)).
Proof.
  apply (upsert_products_bulk_stores_last_values Z.of_nat [widget_row; widget_row_again]
           1 widget_store _ 2%Z widget_row_again).
  - reflexivity.
  - reflexivity.
Defined.

(** X11: the primary key is kept: if the ids of the table are pairwise
    distinct and below the next value of the sequence, they still are
    after an upsert that returns. *)
Theorem upsert_products_bulk_keeps_ids_fresh
    (utcnow : nat -> Z) (rows : list ProductRow) (n : nat) (st st' : Store) (c : Z) :
  ids_fresh st →
  upsert_products_bulk utcnow rows n st = Ok (st', c) →
  ids_fresh st'.
Proof.
  intros Hids Hup.
  apply upsert_products_bulk_Ok in Hup as [_ [[-> ->]|[_ ->]]]; [done |].
  by apply upsert_all_ids_fresh.
Qed.

(** The statement of X11 on the one-row table and a record for a new key. *)
Lemma upsert_products_bulk_keeps_ids_fresh_witness :
  ids_fresh (upsert_all Z.of_nat [gadget_row] widget_store).
Proof.
  apply (upsert_products_bulk_keeps_ids_fresh Z.of_nat [gadget_row]
           default_chunk_size widget_store _ 1%Z).
  - split; [by repeat constructor | apply (bool_decide_unpack _); vm_compute; exact I].
  - reflexivity.
Defined.


(** ** The import job, continued *)

Section JobMore.
Variable csv_reader : string -> list (list string).
Variable utcnow : nat -> Z.
Variable db_error_text : DbError -> string.
Variable task_id file_path : string.
Variable batch_size : Z.

Local Abbreviation loop' := (import_rows utcnow task_id batch_size).
Local Abbreviation job' :=
  (import_with_batch_size csv_reader utcnow db_error_text task_id file_path batch_size).
Local Abbreviation B := (effective_batch_size batch_size).

Lemma flush_db batch processed w w' processed' :
  flush utcnow batch processed w = Ok (w', processed') →
  db w' = upsert_all utcnow (_dedupe_batch batch) (db w).
Proof.
  unfold flush. destruct upsert_products_bulk as [[st n]|e] eqn:Hup; [| done].
  intros [= <- <-]. by apply upsert_products_bulk_Ok in Hup as [_ [[-> ->]|[_ ->]]].
Qed.

(** The loop, whatever its outcome: what it has published, which batches
    it has flushed and what the table holds. *)
Lemma import_rows_log rows total batch processed invalid_rows w :
  ∃ steps fbs rest,
    published (loop' rows total batch processed invalid_rows w).1
      = published w ++ importing_log task_id total steps ∧
    redis (loop' rows total batch processed invalid_rows w).1
      = snapshot (redis w) (importing_log task_id total steps) ∧
    length steps = length fbs ∧
    batch ++ accepted rows = concat fbs ++ rest ∧
    db (loop' rows total batch processed invalid_rows w).1
      = upsert_all utcnow (concat (_dedupe_batch <$> fbs)) (db w) ∧
    ((Z.of_nat (length batch) < B)%Z →
     Forall (fun b => Z.of_nat (length b) = B) fbs) ∧
    (∀ b p i, (loop' rows total batch processed invalid_rows w).2 = Ok (b, p, i) →
              rest = b ∧ ((Z.of_nat (length batch) < B)%Z → (Z.of_nat (length b) < B)%Z)).
Proof.
  unfold effective_batch_size.
  revert batch processed invalid_rows w.
  induction rows as [|row rows IH]; intros batch processed invalid_rows w.
  - exists [], [], batch. cbn [import_rows fst snd importing_log fmap list_fmap concat].
    rewrite !app_nil_r. split_and!; try done.
    intros b p i [= <- _ _]. done.
  - cbn [import_rows]. unfold accepted in *. cbn [omap list_omap].
    destruct (_normalize_row row) as [product|]; [| apply IH].
    replace (batch ++ product :: omap _normalize_row rows)
      with ((batch ++ [product]) ++ omap _normalize_row rows) by (by rewrite <- app_assoc).
    destruct (batch_size <=? Z.of_nat (length (batch ++ [product])))%Z eqn:Hfull.
    2:{ destruct (IH (batch ++ [product]) processed invalid_rows w)
          as (steps & fbs & rest & Hpub & Hredis & Hlen & Hsplit & Hdb & Hsize & Hok).
        exists steps, fbs, rest. rewrite length_app in Hsize, Hok. simpl in Hsize, Hok.
        apply Z.leb_gt in Hfull. rewrite length_app in Hfull. simpl in Hfull.
        split_and!; try done.
        - intros Hb. apply Hsize. lia.
        - intros b p i Heq. destruct (Hok b p i Heq) as [-> Hb]. split; [done |].
          intros ?. apply Hb. lia. }
    apply Z.leb_le in Hfull. rewrite length_app in Hfull. simpl in Hfull.
    destruct (flush utcnow (batch ++ [product]) processed w) as [[w1 p1]|e] eqn:Hf.
    2:{ exists [], [], ((batch ++ [product]) ++ omap _normalize_row rows).
        cbn [fst snd importing_log fmap list_fmap concat]. rewrite !app_nil_r.
        split_and!; done. }
    pose proof (flush_db _ _ _ _ _ Hf) as Hdb1.
    apply flush_Ok in Hf as (_ & Hredis1 & Hpub1 & ->).
    rewrite set_task_state_spec.
    match goal with |- context [loop' rows total [] ?p1 invalid_rows ?w2] =>
      destruct (IH [] p1 invalid_rows w2)
        as (steps & fbs & rest & Hpub & Hredis & Hlen & Hsplit & Hdb & Hsize & Hok);
      destruct (loop' rows total [] p1 invalid_rows w2) as [w3 res]
    end.
    cbn [fst snd published redis db app length] in *.
    exists ((processed + Z.of_nat (length (_dedupe_batch (batch ++ [product]))), invalid_rows)%Z
            :: steps),
           ((batch ++ [product]) :: fbs), rest.
    cbn [importing_log fmap list_fmap concat importing_writes fst snd length].
    fold (importing_log task_id total steps).
    rewrite Hpub, Hredis, Hdb, Hdb1, Hpub1, Hredis1, Hsplit, Hlen.
    rewrite snapshot_app, upsert_all_app, <- !app_assoc.
    split_and!; try done.
    + intros Hb. constructor; [rewrite length_app; simpl; lia | apply Hsize; lia].
    + intros b p i Heq. destruct (Hok b p i Heq) as [-> Hb]. split; [done |].
      intros ?. apply Hb. lia.
Qed.

End JobMore.

Section JobCases.
Variable csv_reader : string -> list (list string).
Variable utcnow : nat -> Z.
Variable db_error_text : DbError -> string.
Variable task_id file_path : string.
Variable batch_size : Z.

Local Abbreviation loop'' := (import_rows utcnow task_id batch_size).
Local Abbreviation body'' := (try_body csv_reader utcnow task_id file_path batch_size).

(** The ways through the [try] block for a file that exists. *)
Lemma try_body_cases w content :
  files w !! file_path = Some content →
  (("sku" ∉ header_set (csv_reader content)) ∧
   body'' w = (_set_task_state task_id [("status", RStr "parsing");
                                         ("total", RInt (rows_count content))] w,
               Raise (ValueError missing_sku_message))) ∨
  ("sku" ∈ header_set (csv_reader content) ∧
   ∃ w1 res,
     loop'' (data_rows csv_reader content) (rows_count content) [] 0%Z 0%Z
       (_set_task_state task_id [("status", RStr "parsing");
                                 ("total", RInt (rows_count content))] w) = (w1, res) ∧
     match res with
     | Raise e => body'' w = (w1, Raise e)
     | Ok (batch, processed, invalid_rows) =>
         (∃ e, batch ≠ [] ∧ flush utcnow batch processed w1 = Raise e ∧
               body'' w = (w1, Raise e)) ∨
         (∃ w2, redis w2 = redis w1 ∧ published w2 = published w1 ∧
                db w2 = upsert_all utcnow (_dedupe_batch batch) (db w1) ∧
                body'' w =
                  (_set_task_state task_id
                     [("status", RStr "complete");
                      ("progress", RInt (processed + Z.of_nat (length (_dedupe_batch batch))));
                      ("total", RInt (rows_count content));
                      ("invalid", RInt invalid_rows)] w2, Ok tt))
     end).
Proof.
  intros Hfile. unfold try_body, _count_rows, read_file. rewrite Hfile.
  fold (rows_count content).
  assert (files (_set_task_state task_id [("status", RStr "parsing");
                                          ("total", RInt (rows_count content))] w)
          !! file_path = Some content) as Hfile'
    by (by rewrite set_task_state_spec).
  rewrite Hfile'. clear Hfile'.
  destruct (decide (header_set (csv_reader content) = []
                    ∨ "sku" ∉ header_set (csv_reader content))) as [Hh|Hh].
  { left. split; [| done]. destruct Hh as [->|?]; [apply not_elem_of_nil | done]. }
  right. split.
  { destruct (decide ("sku" ∈ header_set (csv_reader content))); [done |].
    exfalso. apply Hh. by right. }
  fold (data_rows csv_reader content).
  destruct (loop'' _ _ _ _ _ _) as [w1 [[[batch processed] invalid_rows]|e]] eqn:Hloop.
  2:{ by exists w1, (Raise e). }
  exists w1, (Ok (batch, processed, invalid_rows)). split; [done |].
  destruct batch as [|b batch].
  - right. exists w1. split_and!; try done. simpl. by rewrite Z.add_0_r.
  - destruct (flush utcnow (b :: batch) processed w1) as [[w2 p2]|e] eqn:Hf.
    + right. exists w2. pose proof Hf as Hdb. apply flush_db in Hdb.
      apply flush_Ok in Hf as (_ & ? & ? & ->). by split_and!.
    + left. by exists e.
Qed.

End JobCases.

Lemma snapshot_other r ws k :
  Forall (fun kv => kv.1 ≠ k) ws → snapshot r ws !! k = r !! k.
Proof.
  revert r. induction ws as [|kv ws IH]; intros r Hall; [done |].
  apply Forall_cons in Hall as [Hk Hall]. cbn [snapshot fold_left].
  fold (snapshot (<[kv.1:=kv.2]> r) ws). rewrite IH by done.
  by apply lookup_insert_ne.
Qed.

Lemma own_write_keyed task_id state :
  Forall (fun kv => kv.1 ∈ job_fields) state →
  Forall (own_write task_id) (keyed task_id state).
Proof.
  induction 1 as [|kv state Hkv _ IH]; [constructor |].
  cbn [keyed map]. constructor; [| done]. by exists kv.1.
Qed.

Lemma quiet_keyed task_id state :
  Forall (fun kv => kv.1 ≠ "error") state →
  Forall (fun kv => kv.1 ≠ _task_key task_id "error") (keyed task_id state).
Proof.
  induction 1 as [|kv state Hkv _ IH]; [constructor |].
  cbn [keyed map]. constructor; [| done]. cbn [fst].
  intros Heq. by apply task_key_inj in Heq.
Qed.

Ltac fields_ok :=
  repeat constructor; cbn [fst]; first [ discriminate | set_solver ].

Lemma own_importing_log task_id total steps :
  Forall (own_write task_id) (importing_log task_id total steps) ∧
  Forall (fun kv => kv.1 ≠ _task_key task_id "error") (importing_log task_id total steps).
Proof.
  unfold importing_log. induction steps as [|step steps [IH1 IH2]]; [by split |].
  rewrite fmap_cons. cbn [concat]. split; apply Forall_app; (split; [| done]).
  - apply own_write_keyed. fields_ok.
  - apply quiet_keyed. fields_ok.
Qed.

Lemma int_writes_importing_log task_id total steps :
  int_writes (_task_key task_id "progress") (importing_log task_id total steps) = steps.*1.
Proof.
  unfold importing_log. induction steps as [|step steps IH]; [done |].
  rewrite !fmap_cons. cbn [concat]. rewrite int_writes_app, IH.
  unfold importing_writes. by explicit_writes.
Qed.

Section JobTrace.
Variable csv_reader : string -> list (list string).
Variable utcnow : nat -> Z.
Variable db_error_text : DbError -> string.
Variable task_id file_path : string.
Variable batch_size : Z.

Local Abbreviation the_loop' := (import_rows utcnow task_id batch_size).
Local Abbreviation the_job' :=
  (import_with_batch_size csv_reader utcnow db_error_text task_id file_path batch_size).

(** The job, whatever its outcome: what it has published and what the
    table holds. *)
Lemma import_with_batch_size_trace w :
  ∃ ws fbs rest,
    published (the_job' w).1 = published w ++ ws ∧
    redis (the_job' w).1 = snapshot (redis w) ws ∧
    Forall (own_write task_id) ws ∧
    match (the_job' w).2 with
    | Ok _ => Forall (fun kv => kv.1 ≠ _task_key task_id "error") ws ∧ rest = []
    | Raise exc => ∃ pre, ws = pre ++ error_writes task_id (exn_str db_error_text exc)
    end ∧
    db (the_job' w).1 = upsert_all utcnow (concat (_dedupe_batch <$> fbs)) (db w) ∧
    (∀ content, files w !! file_path = Some content →
                accepted (data_rows csv_reader content) = concat fbs ++ rest).
Proof.
  assert (Forall (own_write task_id) (initializing_writes task_id)) as Hinit
    by (apply own_write_keyed; fields_ok).
  assert (Forall (fun kv => kv.1 ≠ _task_key task_id "error") (initializing_writes task_id))
    as Hinit' by (apply quiet_keyed; fields_ok).
  assert (∀ msg, Forall (own_write task_id) (error_writes task_id msg)) as Herr
    by (intros msg; apply own_write_keyed; fields_ok).
  unfold import_with_batch_size.
  set (w0 := _set_task_state task_id
               [("status", RStr "initializing"); ("progress", RInt 0);
                ("total", RInt 0); ("invalid", RInt 0)] w).
  assert (files w0 = files w ∧ db w0 = db w ∧
          redis w0 = snapshot (redis w) (initializing_writes task_id) ∧
          published w0 = published w ++ initializing_writes task_id) as (Hf0 & Hd0 & Hr0 & Hp0)
    by (subst w0; by rewrite set_task_state_spec).
  destruct (files w !! file_path) as [content|] eqn:Hfile.
  2:{ unfold try_body, _count_rows, read_file. rewrite Hf0, Hfile.
      unfold except_clause. rewrite set_task_state_spec.
      fold (error_writes task_id (exn_str db_error_text (FileNotFoundError file_path))).
      exists (initializing_writes task_id
              ++ error_writes task_id (exn_str db_error_text (FileNotFoundError file_path))),
             [], [].
      cbn [fst snd remove_source published redis db].
      rewrite Hp0, Hr0, Hd0, snapshot_app, <- app_assoc.
      split_and!; try done.
      - apply Forall_app. by split.
      - by eexists. }
  assert (files w0 !! file_path = Some content) as Hfile0 by (by rewrite Hf0).
  pose proof (parsing_ok := own_write_keyed task_id
    [("status", RStr "parsing"); ("total", RInt (rows_count content))] ltac:(fields_ok)).
  pose proof (parsing_quiet := quiet_keyed task_id
    [("status", RStr "parsing"); ("total", RInt (rows_count content))] ltac:(fields_ok)).
  fold (parsing_writes task_id (rows_count content)) in parsing_ok, parsing_quiet.
  destruct (try_body_cases csv_reader utcnow task_id file_path batch_size w0 content Hfile0)
    as [[_ ->]|[_ (w1 & res & Hloop & Hres)]].
  { unfold except_clause. rewrite !set_task_state_spec.
    fold (parsing_writes task_id (rows_count content)).
    fold (error_writes task_id (exn_str db_error_text (ValueError missing_sku_message))).
    exists (initializing_writes task_id ++ parsing_writes task_id (rows_count content)
            ++ error_writes task_id (exn_str db_error_text (ValueError missing_sku_message))),
           [], (accepted (data_rows csv_reader content)).
    cbn [fst snd remove_source published redis db].
    rewrite Hp0, Hr0, Hd0, !snapshot_app, <- !app_assoc.
    split_and!; try done.
    - repeat (apply Forall_app; split); done.
    - eexists (initializing_writes task_id ++ parsing_writes task_id (rows_count content)).
      by rewrite <- app_assoc.
    - intros content' [= <-]. done. }
  destruct (import_rows_log utcnow task_id batch_size (data_rows csv_reader content)
              (rows_count content) [] 0%Z 0%Z
              (_set_task_state task_id [("status", RStr "parsing");
                                        ("total", RInt (rows_count content))] w0))
    as (steps & fbs & rest & Hpub & Hredis & _ & Hsplit & Hdb & _ & Hok).
  rewrite Hloop in Hpub, Hredis, Hdb, Hok. rewrite set_task_state_spec in Hpub, Hredis, Hdb.
  cbn [fst snd published redis db app] in Hpub, Hredis, Hdb, Hsplit, Hok.
  fold (parsing_writes task_id (rows_count content)) in Hpub, Hredis.
  destruct (own_importing_log task_id (rows_count content) steps) as [Hlog Hlog'].
  assert (∀ exc, ∃ ws fbs0 rest0,
    published (remove_source file_path
                 (_set_task_state task_id
                    [("status", RStr ("error: " +:+ exn_str db_error_text exc));
                     ("error", RStr (exn_str db_error_text exc))] w1))
      = published w ++ ws ∧
    redis (remove_source file_path
             (_set_task_state task_id
                [("status", RStr ("error: " +:+ exn_str db_error_text exc));
                 ("error", RStr (exn_str db_error_text exc))] w1))
      = snapshot (redis w) ws ∧
    Forall (own_write task_id) ws ∧
    (∃ pre, ws = pre ++ error_writes task_id (exn_str db_error_text exc)) ∧
    db (remove_source file_path
          (_set_task_state task_id
             [("status", RStr ("error: " +:+ exn_str db_error_text exc));
              ("error", RStr (exn_str db_error_text exc))] w1))
      = upsert_all utcnow (concat (_dedupe_batch <$> fbs0)) (db w) ∧
    accepted (data_rows csv_reader content) = concat fbs0 ++ rest0) as Hraise.
  { intros exc. rewrite set_task_state_spec.
    fold (error_writes task_id (exn_str db_error_text exc)).
    exists (initializing_writes task_id ++ parsing_writes task_id (rows_count content)
            ++ importing_log task_id (rows_count content) steps
            ++ error_writes task_id (exn_str db_error_text exc)), fbs, rest.
    cbn [fst snd remove_source published redis db].
    rewrite Hpub, Hredis, Hdb, Hp0, Hr0, Hd0, !snapshot_app, <- !app_assoc.
    split_and!; try done.
    - repeat (apply Forall_app; split); done.
    - eexists (initializing_writes task_id ++ parsing_writes task_id (rows_count content)
               ++ importing_log task_id (rows_count content) steps).
      by rewrite <- !app_assoc. }
  destruct res as [[[batch processed] invalid_rows]|e].
  2:{ rewrite Hres. unfold except_clause. cbn [fst snd].
      destruct (Hraise e) as (ws & fbs0 & rest0 & ? & ? & ? & ? & ? & ?).
      exists ws, fbs0, rest0. split_and!; try done. by intros ? [= <-]. }
  destruct Hres as [(e & _ & _ & ->)|(w2 & Hr2 & Hp2 & Hd2 & ->)].
  { unfold except_clause. cbn [fst snd].
    destruct (Hraise e) as (ws & fbs0 & rest0 & ? & ? & ? & ? & ? & ?).
    exists ws, fbs0, rest0. split_and!; try done. by intros ? [= <-]. }
  destruct (Hok _ _ _ eq_refl) as [-> _].
  rewrite set_task_state_spec.
  match goal with |- context [keyed task_id ?st] =>
    pose proof (complete_ok := own_write_keyed task_id st ltac:(fields_ok));
    pose proof (complete_quiet := quiet_keyed task_id st ltac:(fields_ok));
    set (complete := keyed task_id st) in *
  end.
  exists (initializing_writes task_id ++ parsing_writes task_id (rows_count content)
          ++ importing_log task_id (rows_count content) steps ++ complete),
         (fbs ++ [batch]), [].
  cbn [fst snd remove_source published redis db].
  rewrite Hp2, Hr2, Hd2, Hpub, Hredis, Hdb, Hp0, Hr0, Hd0, !snapshot_app, <- !app_assoc.
  rewrite fmap_app, !concat_app. cbn [fmap list_fmap concat]. rewrite !app_nil_r.
  rewrite upsert_all_app.
  split_and!; try done.
  - repeat (apply Forall_app; split); done.
  - repeat (apply Forall_app; split); done.
  - by intros ? [= <-].
Qed.

End JobTrace.


Lemma task_key_colon_free t t' f f' :
  colon_free t = true → colon_free t' = true →
  _task_key t f = _task_key t' f' → t = t' ∧ f = f'.
Proof.
  unfold _task_key. intros Ht Ht' Heq. apply append_inj_l in Heq.
  revert t' Ht' Heq. induction t as [|c t IH]; intros [|c' t'] Ht' Heq.
  - change (String ":" f = String ":" f') in Heq. by injection Heq as ->.
  - change (String ":" f = String c' (t' +:+ ":" +:+ f')) in Heq.
    injection Heq as <- _. done.
  - change (String c (t +:+ ":" +:+ f) = String ":" f') in Heq.
    injection Heq as -> _. done.
  - change (String c (t +:+ ":" +:+ f) = String c' (t' +:+ ":" +:+ f')) in Heq.
    injection Heq as <- Heq. cbn [colon_free] in Ht, Ht'.
    apply andb_true_iff in Ht as [_ Ht], Ht' as [_ Ht'].
    destruct (IH Ht t' Ht' Heq) as [-> ->]. done.
Qed.

Lemma last_with_key_app k l1 l2 :
  last_with_key k (l1 ++ l2) =
    match last_with_key k l2 with
    | Some r => Some r
    | None => last_with_key k l1
    end.
Proof.
  unfold last_with_key. rewrite filter_app.
  destruct (filter _ l2) as [|r l] eqn:Hf using rev_ind.
  - by rewrite app_nil_r.
  - by rewrite app_assoc, !last_snoc.
Qed.

Lemma last_with_key_None k l : last_with_key k l = None ↔ k ∉ row_key <$> l.
Proof.
  unfold last_with_key. rewrite last_None. split.
  - intros Hf [r [-> Hr]]%list_elem_of_fmap.
    assert (r ∈ filter (fun x => row_key x = row_key r) l) as Hin
      by by apply list_elem_of_filter.
    rewrite Hf in Hin. by apply elem_of_nil in Hin.
  - intros Hk. destruct (filter _ l) as [|r f] eqn:Hf; [done |]. exfalso.
    assert (r ∈ filter (fun x => row_key x = k) l) as Hin by (rewrite Hf; by left).
    apply list_elem_of_filter in Hin as [<- Hin]. apply Hk. by apply list_elem_of_fmap_2.
Qed.

Lemma dict_values_last k (d : list (string * ProductRow)) :
  NoDup d.*1 → Forall (fun kv => row_key kv.2 = kv.1) d →
  last_with_key k d.*2 = dict_get k d.
Proof.
  unfold last_with_key. intros Hnd Hall.
  induction Hall as [|[k0 v0] d Hkv Hall IH]; [done |].
  rewrite fmap_cons in Hnd. apply NoDup_cons in Hnd as [Hk0 Hnd].
  rewrite fmap_cons, filter_cons. cbn [fst snd dict_get] in *.
  destruct (decide (row_key v0 = k)) as [Hk|Hk].
  - rewrite decide_True by congruence.
    destruct (filter (fun r => row_key r = k) d.*2) as [|x l] eqn:Hf; [done |]. exfalso.
    assert (x ∈ filter (fun r => row_key r = k) d.*2) as Hx by (rewrite Hf; by left).
    apply list_elem_of_filter in Hx as [Hxk Hx].
    apply list_elem_of_fmap in Hx as [[k1 v1] [-> Hx]]. cbn [snd] in Hxk.
    rewrite Forall_forall in Hall. specialize (Hall _ Hx). cbn [fst snd] in Hall.
    apply Hk0. apply list_elem_of_fmap. exists (k1, v1). split; [cbn; congruence | done].
  - rewrite decide_False by congruence. by apply IH.
Qed.

Lemma last_with_key_dedupe k rows :
  last_with_key k (_dedupe_batch rows) = last_with_key k rows.
Proof.
  change (_dedupe_batch rows) with (dict_values (deduped rows)). unfold dict_values.
  rewrite dict_values_last, deduped_get; [done | apply deduped_NoDup |].
  apply Forall_forall. intros [k' v] Hin. simpl.
  apply dict_elem_of_get in Hin; [| apply deduped_NoDup].
  rewrite deduped_get in Hin. by apply last_with_key_key in Hin.
Qed.

Lemma last_with_key_dedupe_batches k (bs : list (list ProductRow)) :
  last_with_key k (concat (_dedupe_batch <$> bs)) = last_with_key k (concat bs).
Proof.
  induction bs as [|b bs IH]; [done |].
  rewrite fmap_cons. cbn [concat].
  by rewrite !last_with_key_app, IH, last_with_key_dedupe.
Qed.

(** X12: a job writes to the store nothing but the five status fields of
    its own task (status, progress, total, invalid, error): every write
    it makes is to one of them, and every other key of the store reads
    afterwards as it did before; so does every status field of a task
    with another id, provided the ids carry no colon. *)
Theorem import_writes_only_its_status_fields
    (csv_reader : string -> list (list string)) (utcnow : nat -> Z)
    (db_error_text : DbError -> string) (task_id file_path : string)
    (batch_size : Z) (w : World) :
  let out := import_with_batch_size csv_reader utcnow db_error_text
               task_id file_path batch_size w in
  (∃ ws, published out.1 = published w ++ ws ∧ Forall (own_write task_id) ws) ∧
  (∀ k, (∀ f, f ∈ job_fields → k ≠ _task_key task_id f) →
        redis out.1 !! k = redis w !! k) ∧
  (∀ other f, colon_free task_id = true → colon_free other = true → other ≠ task_id →
              redis out.1 !! _task_key other f = redis w !! _task_key other f).
Proof.
  intros out. subst out.
  destruct (import_with_batch_size_trace csv_reader utcnow db_error_text task_id
              file_path batch_size w) as (ws & fbs & rest & Hpub & Hredis & Hown & _).
  assert (∀ k, (∀ f, f ∈ job_fields → k ≠ _task_key task_id f) →
               redis (import_with_batch_size csv_reader utcnow db_error_text task_id
                        file_path batch_size w).1 !! k = redis w !! k) as Hother.
  { intros k Hk. rewrite Hredis. apply snapshot_other.
    eapply Forall_impl; [exact Hown |]. intros kv (f & Hf & Hkv) <-. by apply (Hk f). }
  split_and!; [by exists ws | done |].
  intros other f Ht Ho Hne. apply Hother. intros f' _ Heq.
  by apply task_key_colon_free in Heq as [? _].
Qed.

(** Once the batch size is read, the error field is written exactly when
    the job raises. *)
Lemma error_field_of_try
    (csv_reader : string -> list (list string)) (utcnow : nat -> Z)
    (db_error_text : DbError -> string) (task_id file_path : string)
    (batch_size : Z) (w : World) :
  let out := import_with_batch_size csv_reader utcnow db_error_text
               task_id file_path batch_size w in
  ∃ ws,
    published out.1 = published w ++ ws ∧
    ((∃ v, (_task_key task_id "error", v) ∈ ws) ↔ ∃ exc, out.2 = Raise exc) ∧
    (out.2 = Ok tt →
     redis out.1 !! _task_key task_id "error" = redis w !! _task_key task_id "error").
Proof.
  intros out. subst out.
  destruct (import_with_batch_size_trace csv_reader utcnow db_error_text task_id
              file_path batch_size w) as (ws & fbs & rest & Hpub & Hredis & Hown & Hout & _).
  exists ws. split; [done |].
  destruct (import_with_batch_size _ _ _ _ _ _ _).2 as [[]|exc] eqn:Hres.
  - destruct Hout as [Hquiet _]. split.
    + split; [| by intros [? ?]]. intros [v Hv].
      rewrite Forall_forall in Hquiet. by specialize (Hquiet _ Hv).
    + intros _. rewrite Hredis. by apply snapshot_other.
  - destruct Hout as [pre ->]. split; [| done]. split; [by eexists |]. intros _.
    eexists. apply elem_of_app. right. unfold error_writes. cbn [keyed map fst snd].
    right. left.
Qed.

(** X13: the error field is written exactly when the job raises from
    inside its [try] statement.  A job that returns has made no write to
    it, and neither has a job that raises before the [try], on a batch
    size setting that [int] refuses: in both cases it reads as before.  A
    job that raises once the batch size is read has written it. *)
Theorem error_field_written_exactly_on_failure_in_try
    (csv_reader : string -> list (list string)) (utcnow : nat -> Z)
    (db_error_text : DbError -> string) (py_int : string -> option Z)
    (int_error_text : string -> string) (task_id file_path : string)
    (IMPORT_BATCH_SIZE : option string) (w : World) :
  let out := import_products_task csv_reader utcnow db_error_text py_int
               int_error_text task_id file_path IMPORT_BATCH_SIZE w in
  let batch_size := py_int (default "5000" IMPORT_BATCH_SIZE) in
  ∃ ws,
    published out.1 = published w ++ ws ∧
    ((∃ v, (_task_key task_id "error", v) ∈ ws)
       ↔ (∃ exc, out.2 = Raise exc) ∧ batch_size ≠ None) ∧
    (out.2 = Ok tt ∨ batch_size = None →
     redis out.1 !! _task_key task_id "error" = redis w !! _task_key task_id "error") ∧
    (batch_size = None → ∃ exc, out.2 = Raise exc).
Proof.
  intros out batch_size. subst out batch_size. unfold import_products_task.
  destruct (py_int _) as [batch_size|].
  - destruct (error_field_of_try csv_reader utcnow db_error_text task_id file_path
                batch_size w) as (ws & Hpub & Hiff & Hok).
    exists ws. split_and!; [done | | | done].
    + rewrite Hiff. split; [by intros ? | by intros [? _]].
    + intros [?|?]; [by apply Hok | done].
  - rewrite set_task_state_spec. cbn [fst snd published redis].
    eexists. split; [done |]. split_and!.
    + split; [| by intros [_ ?]]. intros [v Hv]. exfalso.
      match type of Hv with _ ∈ keyed task_id ?st =>
        pose proof (quiet_keyed task_id st ltac:(fields_ok)) as Hquiet
      end.
      rewrite Forall_forall in Hquiet. by apply (Hquiet _ Hv).
    + intros _. apply snapshot_other. apply quiet_keyed. fields_ok.
    + intros _. by eexists.
Qed.

Lemma elem_of_keys_dedupe_batches k (bs : list (list ProductRow)) :
  k ∈ row_key <$> concat (_dedupe_batch <$> bs) ↔ k ∈ row_key <$> concat bs.
Proof.
  pose proof (last_with_key_dedupe_batches k bs) as Heq.
  destruct (decide (k ∈ row_key <$> concat (_dedupe_batch <$> bs))) as [Hin|Hnin];
    destruct (decide (k ∈ row_key <$> concat bs)) as [Hin'|Hnin']; try done; exfalso.
  - apply last_with_key_None in Hnin'. rewrite Hnin' in Heq.
    by apply last_with_key_None in Heq.
  - apply last_with_key_None in Hnin. rewrite Hnin in Heq. symmetry in Heq.
    by apply last_with_key_None in Heq.
Qed.

(** X15: when the job returns, the table holds for every key of the file
    the values of the last accepted row with that key, wherever in the
    file and in whichever batch the earlier rows with that key stood; the
    keys stored are those stored before and those of the file; rows with
    other keys are where and what they were; and the unique index holds. *)
Theorem import_stores_last_occurrence
    (csv_reader : string -> list (list string)) (utcnow : nat -> Z)
    (db_error_text : DbError -> string) (task_id file_path : string)
    (batch_size : Z) (w w' : World) (content : string) :
  files w !! file_path = Some content →
  unique_keys (products (db w)) →
  import_with_batch_size csv_reader utcnow db_error_text task_id file_path batch_size w
    = (w', Ok tt) →
  let recs := accepted (data_rows csv_reader content) in
  unique_keys (products (db w')) ∧
  (∀ r, last_with_key (row_key r) recs = Some r → settled r (products (db w'))) ∧
  (∀ k, k ∈ Product.lower_sku <$> products (db w') ↔
        k ∈ Product.lower_sku <$> products (db w) ∨ k ∈ row_key <$> recs) ∧
  (∀ i p, products (db w) !! i = Some p → Product.lower_sku p ∉ row_key <$> recs →
          products (db w') !! i = Some p).
Proof.
  intros Hfile Huniq Hrun recs. subst recs.
  destruct (import_with_batch_size_trace csv_reader utcnow db_error_text task_id
              file_path batch_size w)
    as (ws & fbs & rest & _ & _ & _ & Hout & Hdb & Hsplit).
  rewrite Hrun in Hout, Hdb. cbn [fst snd] in Hout, Hdb. destruct Hout as [_ ->].
  rewrite (Hsplit content Hfile), app_nil_r, Hdb.
  split_and!.
  - by apply upsert_all_unique.
  - intros r Hlast. apply upsert_all_settles_last.
    by rewrite last_with_key_dedupe_batches.
  - intros k. by rewrite upsert_all_keys, elem_of_keys_dedupe_batches.
  - intros i p Hi Hk. apply upsert_all_lookup_other; [done |].
    intros r Hr Heq. apply Hk. apply elem_of_keys_dedupe_batches.
    rewrite <- Heq. by apply list_elem_of_fmap_2.
Qed.

(** The statement of X15 on the three-row input. *)
Lemma import_stores_last_occurrence_witness :
  let w' := sample_run.1 in
  let recs := accepted (data_rows csv_plain sample_csv) in
  unique_keys (products (db w')) ∧
  (∀ r, last_with_key (row_key r) recs = Some r → settled r (products (db w'))) ∧
  (∀ k, k ∈ Product.lower_sku <$> products (db w') ↔
        k ∈ Product.lower_sku <$> products (db sample_world) ∨ k ∈ row_key <$> recs) ∧
  (∀ i p, products (db sample_world) !! i = Some p →
          Product.lower_sku p ∉ row_key <$> recs →
          products (db w') !! i = Some p).
Proof.
  intros w'.
  apply (import_stores_last_occurrence csv_plain (fun k => Z.of_nat k) (fun _ => "db error")
           "t1" "/tmp/u.csv" default_batch_size sample_world w' sample_csv).
  - reflexivity.
  - apply NoDup_nil_2.
  - vm_compute. reflexivity.
Defined.

Lemma concat_length_uniform {A} (n : Z) (ls : list (list A)) :
  Forall (fun l => Z.of_nat (length l) = n) ls →
  Z.of_nat (length (concat ls)) = (n * Z.of_nat (length ls))%Z.
Proof.
  induction 1 as [|l ls Hl _ IH]; [simpl; lia |].
  cbn [concat length]. rewrite length_app. lia.
Qed.

Section JobOk.
Variable csv_reader : string -> list (list string).
Variable utcnow : nat -> Z.
Variable db_error_text : DbError -> string.
Variable task_id file_path : string.
Variable batch_size : Z.

Local Abbreviation ok_job :=
  (import_with_batch_size csv_reader utcnow db_error_text task_id file_path batch_size).

(** A job that returns: the writes it has made, the batches it has
    flushed in the loop, the batch left for the final flush, and its
    counters. *)
Lemma import_with_batch_size_Ok_log w w' content :
  files w !! file_path = Some content →
  ok_job w = (w', Ok tt) →
  ∃ steps fbs batch processed invalid_rows,
    published w' = published w ++ initializing_writes task_id
      ++ parsing_writes task_id (rows_count content)
      ++ importing_log task_id (rows_count content) steps
      ++ complete_writes task_id processed (rows_count content) invalid_rows ∧
    redis w' = snapshot (redis w) (initializing_writes task_id
      ++ parsing_writes task_id (rows_count content)
      ++ importing_log task_id (rows_count content) steps
      ++ complete_writes task_id processed (rows_count content) invalid_rows) ∧
    "sku" ∈ header_set (csv_reader content) ∧
    length steps = length fbs ∧
    accepted (data_rows csv_reader content) = concat fbs ++ batch ∧
    Forall (fun b => Z.of_nat (length b) = effective_batch_size batch_size) fbs ∧
    (Z.of_nat (length batch) < effective_batch_size batch_size)%Z ∧
    invalid_rows = Z.of_nat (length (missing_sku (data_rows csv_reader content))) ∧
    (0 ≤ processed ≤ Z.of_nat (length (accepted (data_rows csv_reader content))))%Z.
Proof.
  intros Hfile. unfold import_with_batch_size.
  set (w0 := _set_task_state task_id
               [("status", RStr "initializing"); ("progress", RInt 0);
                ("total", RInt 0); ("invalid", RInt 0)] w).
  assert (files w0 = files w ∧
          redis w0 = snapshot (redis w) (initializing_writes task_id) ∧
          published w0 = published w ++ initializing_writes task_id) as (Hf0 & Hr0 & Hp0)
    by (subst w0; by rewrite set_task_state_spec).
  assert (files w0 !! file_path = Some content) as Hfile0 by (by rewrite Hf0).
  destruct (try_body_cases csv_reader utcnow task_id file_path batch_size w0 content Hfile0)
    as [[_ ->]|[Hsku (w1 & res & Hloop & Hres)]]; [done |].
  destruct (import_rows_log utcnow task_id batch_size (data_rows csv_reader content)
              (rows_count content) [] 0%Z 0%Z
              (_set_task_state task_id [("status", RStr "parsing");
                                        ("total", RInt (rows_count content))] w0))
    as (steps & fbs & rest & Hpub & Hredis & Hlen & Hsplit & _ & Hsize & Hok).
  rewrite Hloop in Hpub, Hredis, Hok. rewrite set_task_state_spec in Hpub, Hredis.
  cbn [fst snd published redis db app] in Hpub, Hredis, Hsplit, Hok.
  fold (parsing_writes task_id (rows_count content)) in Hpub, Hredis.
  destruct res as [[[batch processed] invalid_rows]|e]; [| by rewrite Hres].
  destruct Hres as [(e & _ & _ & ->)|(w2 & Hr2 & Hp2 & _ & ->)]; [done |].
  rewrite set_task_state_spec. intros [= <-].
  destruct (Hok _ _ _ eq_refl) as [-> Hlast].
  apply import_rows_counters in Hloop as (Hinv & flushed & Hfl & Hbound & _).
  cbn [app] in Hfl.
  assert ((0 < effective_batch_size batch_size)%Z) as HB
    by (unfold effective_batch_size; lia).
  pose proof (dedupe_batch_length batch) as Hdd.
  assert (length flushed = length (concat fbs)) as Hflen.
  { rewrite Hsplit in Hfl. apply (f_equal length) in Hfl.
    rewrite !length_app in Hfl. lia. }
  exists steps, fbs, batch,
    (processed + Z.of_nat (length (_dedupe_batch batch)))%Z, invalid_rows.
  cbn [remove_source published redis].
  fold (complete_writes task_id (processed + Z.of_nat (length (_dedupe_batch batch)))
          (rows_count content) invalid_rows).
  rewrite Hp2, Hr2, Hpub, Hredis, Hp0, Hr0, !snapshot_app, <- !app_assoc.
  split_and!; [done | done | done | done | done | | | lia | lia |].
  - apply Hsize. simpl. lia.
  - apply Hlast. simpl. lia.
  - rewrite Hsplit, length_app. lia.
Qed.

End JobOk.

(** X16: a job that returns has published the progress counter once when
    it started, once after each full batch of accepted rows and once on
    completion: 2 + n / B times for n accepted rows and a batch size B,
    a batch size below 1 acting as 1.  Rows left over after the last full
    batch are reported by the completion write only. *)
Theorem import_publishes_progress_per_full_batch
    (csv_reader : string -> list (list string)) (utcnow : nat -> Z)
    (db_error_text : DbError -> string) (task_id file_path : string)
    (batch_size : Z) (w w' : World) (content : string) :
  files w !! file_path = Some content →
  import_with_batch_size csv_reader utcnow db_error_text task_id file_path batch_size w
    = (w', Ok tt) →
  ∃ ws, published w' = published w ++ ws ∧
    Z.of_nat (length (int_writes (_task_key task_id "progress") ws)) =
      (2 + Z.of_nat (length (accepted (data_rows csv_reader content)))
           / effective_batch_size batch_size)%Z.
Proof.
  intros Hfile Hrun.
  destruct (import_with_batch_size_Ok_log _ _ _ _ _ _ _ _ _ Hfile Hrun)
    as (steps & fbs & batch & processed & invalid_rows
        & Hpub & _ & _ & Hlen & Hsplit & Hsize & Hlast & _ & _).
  eexists. split; [exact Hpub |].
  rewrite !int_writes_app, int_writes_importing_log.
  unfold parsing_writes, complete_writes. explicit_writes.
  rewrite !length_app, length_fmap, Hlen. cbn [length app].
  rewrite Hsplit, length_app, (Nat2Z.inj_add (length (concat fbs))).
  rewrite (concat_length_uniform _ _ Hsize).
  assert ((0 < effective_batch_size batch_size)%Z) as HB
    by (unfold effective_batch_size; lia).
  rewrite (Z.mul_comm (effective_batch_size batch_size)), Z.div_add_l by lia.
  rewrite Z.div_small by lia. lia.
Qed.

(** The statement of X16 on the three-row input with a batch size of 2. *)
Lemma import_publishes_progress_per_full_batch_witness :
  ∃ ws,
    published (import_with_batch_size csv_plain (fun k => Z.of_nat k) (fun _ => "db error")
                 "t1" "/tmp/u.csv" 2 sample_world).1 = published sample_world ++ ws ∧
    Z.of_nat (length (int_writes (_task_key "t1" "progress") ws)) =
      (2 + Z.of_nat (length (accepted (data_rows csv_plain sample_csv)))
           / effective_batch_size 2)%Z.
Proof.
  apply (import_publishes_progress_per_full_batch csv_plain (fun k => Z.of_nat k)
           (fun _ => "db error") "t1" "/tmp/u.csv" 2 sample_world _ sample_csv).
  - reflexivity.
  - vm_compute. reflexivity.
Defined.

Lemma data_rows_length csv_reader content :
  length (data_rows csv_reader content) ≤ length (csv_reader content) - 1.
Proof.
  unfold data_rows, dict_rows. rewrite length_fmap.
  etransitivity; [apply length_filter |].
  destruct (csv_reader content); simpl; lia.
Qed.

(** X17: when the job returns and the reader yields at most one record
    per line of the file, the counters it leaves add up: progress and
    invalid are not negative, invalid is the number of rows without sku,
    total is the line count less the header, progress + invalid is at
    most total, and the percentage a poller derives, in floating point,
    is a float between 0 and 100 (none when total is 0). *)
Theorem import_counters_within_total
    (csv_reader : string -> list (list string)) (utcnow : nat -> Z)
    (db_error_text : DbError -> string) (task_id file_path : string)
    (batch_size : Z) (w w' : World) (content : string) :
  files w !! file_path = Some content →
  length (csv_reader content) ≤ count_lines content →
  import_with_batch_size csv_reader utcnow db_error_text task_id file_path batch_size w
    = (w', Ok tt) →
  let p := _int_value (redis w') task_id "progress" in
  let i := _int_value (redis w') task_id "invalid" in
  let t := _int_value (redis w') task_id "total" in
  t = rows_count content ∧
  i = Z.of_nat (length (missing_sku (data_rows csv_reader content))) ∧
  (0 ≤ p ∧ p + i ≤ t)%Z ∧
  match percent (redis w') task_id with
  | NoPercent => t = 0%Z
  | Hundredths k => (0 ≤ k ≤ 10000)%Z
  | InfPercent _ | DivisionOverflow => False
  end.
Proof.
  intros Hfile Hlines Hrun.
  destruct (import_with_batch_size_Ok_log _ _ _ _ _ _ _ _ _ Hfile Hrun)
    as (steps & fbs & batch & processed & invalid_rows
        & _ & Hredis & _ & _ & _ & _ & _ & Hinv & Hproc).
  rewrite !app_assoc, snapshot_app in Hredis.
  unfold percent, _int_value. rewrite Hredis. unfold complete_writes.
  redis_lookup. cbv zeta.
  pose proof (missing_accepted_length (data_rows csv_reader content)) as Hsum.
  pose proof (data_rows_length csv_reader content) as Hrows.
  assert (processed + invalid_rows ≤ rows_count content)%Z as Hle
    by (unfold rows_count; lia).
  split_and!; [done | done | lia | lia |].
  destruct (decide (rows_count content = 0%Z)) as [Hz|Hz]; [by rewrite Hz |].
  destruct (percent_of_bounds processed (rows_count content)) as (k & -> & Hk); lia.
Qed.

(** The statement of X17 on the three-row input. *)
Lemma import_counters_within_total_witness :
  let w' := sample_run.1 in
  let p := _int_value (redis w') "t1" "progress" in
  let i := _int_value (redis w') "t1" "invalid" in
  let t := _int_value (redis w') "t1" "total" in
  t = rows_count sample_csv ∧
  i = Z.of_nat (length (missing_sku (data_rows csv_plain sample_csv))) ∧
  (0 ≤ p ∧ p + i ≤ t)%Z ∧
  match percent (redis w') "t1" with
  | NoPercent => t = 0%Z
  | Hundredths k => (0 ≤ k ≤ 10000)%Z
  | InfPercent _ | DivisionOverflow => False
  end.
Proof.
  intros w'.
  apply (import_counters_within_total csv_plain (fun k => Z.of_nat k) (fun _ => "db error")
           "t1" "/tmp/u.csv" default_batch_size sample_world w' sample_csv).
  - reflexivity.
  - vm_compute. lia.
  - vm_compute. reflexivity.
Defined.

(** ** The filters and the form fields *)

Lemma is_space_lower_char c : PyStr.is_space (PyStr.lower_char c) = PyStr.is_space c.
Proof. by destruct c as [[] [] [] [] [] [] [] []]. Qed.

Lemma lower_is_empty s : PyStr.is_empty (PyStr.lower s) = PyStr.is_empty s.
Proof. by destruct s. Qed.

Lemma lstrip_lower s : PyStr.lstrip (PyStr.lower s) = PyStr.lower (PyStr.lstrip s).
Proof.
  induction s as [|c s IH]; [done |]. cbn [PyStr.lower PyStr.lstrip].
  rewrite is_space_lower_char. by destruct (PyStr.is_space c).
Qed.

Lemma rstrip_lower s : PyStr.rstrip (PyStr.lower s) = PyStr.lower (PyStr.rstrip s).
Proof.
  induction s as [|c s IH]; [done |]. cbn [PyStr.lower PyStr.rstrip].
  rewrite IH, is_space_lower_char.
  destruct (PyStr.rstrip s); [by destruct (PyStr.is_space c) | done].
Qed.

Lemma strip_lower s : PyStr.strip (PyStr.lower s) = PyStr.lower (PyStr.strip s).
Proof. unfold PyStr.strip. by rewrite lstrip_lower, rstrip_lower. Qed.

Lemma sanitize_filters_range (page per_page : Z)
    (filter_sku filter_name filter_description filter_active : option string) :
  let f := _sanitize_filters page per_page filter_sku filter_name
             filter_description filter_active in
  (1 ≤ Filters.page f)%Z ∧ (1 ≤ Filters.per_page f ≤ MAX_PER_PAGE)%Z.
Proof. unfold _sanitize_filters, MAX_PER_PAGE. simpl. lia. Qed.

(** X18: the filters [_sanitize_filters] returns are in range (page at
    least 1, per_page between 1 and 200, the active filter one of all,
    active and inactive, the texts without surrounding white space), and
    sanitising them again, as happens when a form posts them back,
    returns them unchanged. *)
Theorem sanitize_filters_in_range_and_stable (page per_page : Z)
    (filter_sku filter_name filter_description filter_active : option string) :
  let f := _sanitize_filters page per_page filter_sku filter_name
             filter_description filter_active in
  (1 ≤ Filters.page f)%Z ∧
  (1 ≤ Filters.per_page f ≤ MAX_PER_PAGE)%Z ∧
  Filters.filter_active f ∈ active_choices ∧
  PyStr.strip (Filters.filter_sku f) = Filters.filter_sku f ∧
  PyStr.strip (Filters.filter_name f) = Filters.filter_name f ∧
  PyStr.strip (Filters.filter_description f) = Filters.filter_description f ∧
  _sanitize_filters (Filters.page f) (Filters.per_page f)
    (Some (Filters.filter_sku f)) (Some (Filters.filter_name f))
    (Some (Filters.filter_description f)) (Some (Filters.filter_active f)) = f.
Proof.
  intros f. subst f. unfold _sanitize_filters, MAX_PER_PAGE.
  cbn [Filters.page Filters.per_page Filters.filter_sku Filters.filter_name
       Filters.filter_description Filters.filter_active PyStr.or_empty].
  set (a := if decide (PyStr.lower (or_all filter_active) ∈ active_choices)
            then PyStr.lower (or_all filter_active) else "all").
  assert (a ∈ active_choices) as Ha.
  { subst a. case_decide; [done |]. unfold active_choices. set_solver. }
  assert ((if decide (PyStr.lower (or_all (Some a)) ∈ active_choices)
           then PyStr.lower (or_all (Some a)) else "all") = a) as Hfix.
  { unfold active_choices in Ha.
    apply elem_of_cons in Ha as [->|Ha]; [done |].
    apply elem_of_cons in Ha as [->|Ha]; [done |].
    apply list_elem_of_singleton in Ha as ->. done. }
  rewrite !strip_idem, Hfix.
  split_and!; [lia | lia | lia | done | done | done | done |].
  f_equal; lia.
Qed.

(** X19: the price field of the forms and the price cell of an import
    are read alike: what [_parse_price] returns is what
    [_parse_price_to_cents] returns for the same text, a price returned is
    never negative, and a text the form refuses (or fails on) is a text
    for which the import stores no price. *)
Theorem parse_price_agrees_with_importer (value : option string) :
  match _parse_price value with
  | Price cents =>
      _parse_price_to_cents value = cents ∧ (∀ n, cents = Some n → (0 ≤ n)%Z)
  | _ => _parse_price_to_cents value = None
  end.
Proof.
  destruct value as [v|]; [| done].
  unfold _parse_price, _parse_price_to_cents.
  destruct (PyStr.is_empty v) eqn:Hv.
  { destruct v; [| done]. simpl. split; [done | by intros ? [=]]. }
  destruct (PyStr.is_empty (PyStr.strip _)); [split; [done | by intros ? [=]] |].
  destruct (PyDecimal.of_string _) as [d|]; [| done].
  destruct (PyDecimal.mul_100 d) as [[neg c e|neg|]|]; [| done | done | done].
  cbn [PyDecimal.to_int].
  match goal with |- context [(?m <? 0)%Z] =>
    destruct (Z.ltb_spec m 0); destruct (Z.leb_spec 0 m); try lia; try done
  end.
  split; [done |]. intros n [= <-]. done.
Qed.

(** X20: an active field the forms read as true, an import reads as
    active: [_parse_bool] and [_normalize_row] never disagree in that
    direction on the same text. *)
Theorem parse_bool_true_is_active_in_import (row : RawRow) (r : ProductRow)
    (v : string) (default : bool) :
  get_cell (normalize_keys row) "active" = Some v →
  _normalize_row row = Some r →
  _parse_bool (Some v) default = true →
  active r = true.
Proof.
  intros Hcell Hrow Hform. unfold _normalize_row in Hrow.
  destruct (PyStr.is_empty _); [done |]. injection Hrow as <-. cbn [active].
  rewrite Hcell. cbn [PyStr.or_empty]. rewrite <- strip_lower.
  apply bool_decide_eq_true_1 in Hform. unfold truthy_words in Hform.
  rewrite decide_False; [done |].
  repeat (apply elem_of_cons in Hform as [->|Hform];
          [apply (bool_decide_unpack _); vm_compute; exact I |]).
  by apply elem_of_nil in Hform.
Qed.

(** The statement of X20 on a row with the cell YES. *)
Lemma parse_bool_true_is_active_in_import_witness :
  ∃ r, _normalize_row yes_row = Some r ∧ active r = true.
Proof.
  eexists. split; [reflexivity |].
  apply (parse_bool_true_is_active_in_import yes_row _ "YES" false); reflexivity.
Defined.


(** ** The product listing *)

Lemma ceil_div_spec a b :
  (0 < b)%Z → ((ceil_div a b - 1) * b < a ≤ ceil_div a b * b)%Z.
Proof.
  intros Hb. unfold ceil_div.
  pose proof (Z.div_mod (- a) b ltac:(lia)) as Hdm.
  pose proof (Z.mod_pos_bound (- a) b Hb) as Hr.
  generalize dependent ((- a) / b)%Z. generalize dependent ((- a) mod b)%Z.
  intros r Hr q Hdm. nia.
Qed.

Lemma concat_slices {A} (n : nat) (l : list A) (m : nat) :
  0 < n → length l ≤ m * n →
  concat ((fun i => take n (drop (i * n) l)) <$> seq 0 m) = l.
Proof.
  intros Hn. revert l. induction m as [|m IH]; intros l Hlen.
  - destruct l; [done | simpl in Hlen; lia].
  - cbn [seq fmap list_fmap concat]. rewrite <- fmap_S_seq, <- list_fmap_compose.
    cbn [Nat.mul drop]. etransitivity; [| apply (take_drop n l)]. f_equal.
    rewrite <- (IH (drop n l)) by (rewrite length_drop; lia).
    f_equal. apply list_fmap_ext. intros i k _. cbn [compose Nat.mul].
    by rewrite drop_drop.
Qed.

Section FetchFacts.
Variable ilike : string -> string -> bool.
Variable order_by_created_at_desc : list Product.t -> list Product.t.

Local Abbreviation fetch := (_fetch_products ilike order_by_created_at_desc).
Local Abbreviation matching :=
  (fun st f => order_by_created_at_desc (List.filter (where_clause ilike f) (products st))).

(** The page count for [total] rows in pages of [per_page]. *)
Lemma page_count_spec total per_page :
  (0 ≤ total)%Z → (1 ≤ per_page)%Z →
  let pages := if (total =? 0)%Z then 1%Z else Z.max (ceil_div total per_page) 1 in
  (1 ≤ pages)%Z ∧ ((pages - 1) * per_page < Z.max total 1 ≤ pages * per_page)%Z.
Proof.
  intros Ht Hp. cbv zeta.
  destruct (total =? 0)%Z eqn:Hz; [apply Z.eqb_eq in Hz; lia |].
  apply Z.eqb_neq in Hz.
  pose proof (ceil_div_spec total per_page ltac:(lia)) as Hc.
  assert (1 ≤ ceil_div total per_page)%Z by nia.
  rewrite Z.max_l by lia. lia.
Qed.

(** A call with a page of at least 1 and a page size of at least 1. *)
Lemma fetch_products_spec st f :
  (1 ≤ Filters.page f)%Z → (1 ≤ Filters.per_page f)%Z →
  let total := Z.of_nat (length (List.filter (where_clause ilike f) (products st))) in
  let pages :=
    if (total =? 0)%Z then 1%Z else Z.max (ceil_div total (Filters.per_page f)) 1 in
  let page := Z.min (Filters.page f) pages in
  fetch st f =
    inr ({| Listing.products :=
              take (Z.to_nat (Filters.per_page f))
                   (drop (Z.to_nat ((page - 1) * Filters.per_page f)) (matching st f));
            Listing.total := total;
            Listing.pages := pages;
            Listing.page := page |},
         with_page f page).
Proof.
  intros Hpage Hper total pages page. unfold _fetch_products.
  fold total. fold pages.
  pose proof (page_count_spec total (Filters.per_page f) ltac:(lia) Hper) as [Hpages _].
  fold pages in Hpages.
  replace (Filters.per_page f =? 0)%Z with false by (symmetry; apply Z.eqb_neq; lia).
  rewrite andb_false_r.
  replace (Filters.per_page f <? 0)%Z with false by (symmetry; apply Z.ltb_ge; lia).
  destruct (Z.ltb_spec pages (Filters.page f)) as [Hlt|Hge].
  - assert (page = pages) as -> by (subst page; lia).
    replace ((pages - 1) * Filters.per_page f <? 0)%Z with false
      by (symmetry; apply Z.ltb_ge; nia).
    done.
  - assert (page = Filters.page f) as -> by (subst page; lia).
    replace ((Filters.page f - 1) * Filters.per_page f <? 0)%Z with false
      by (symmetry; apply Z.ltb_ge; nia).
    cbn [orb]. by destruct f.
Qed.

End FetchFacts.

(** X21: on the filters [_sanitize_filters] returns, [_fetch_products]
    does not raise; it reports the number of matching rows, the least
    number of pages that hold them (1 when nothing matches), and a page
    that is the requested one cut down to the last page, which it also
    writes back into the filters. *)
Theorem fetch_products_after_sanitize
    (ilike : string -> string -> bool)
    (order_by_created_at_desc : list Product.t -> list Product.t)
    (st : Store) (page per_page : Z)
    (filter_sku filter_name filter_description filter_active : option string) :
  let f := _sanitize_filters page per_page filter_sku filter_name
             filter_description filter_active in
  ∃ l,
    _fetch_products ilike order_by_created_at_desc st f
      = inr (l, with_page f (Listing.page l)) ∧
    Listing.total l
      = Z.of_nat (length (List.filter (where_clause ilike f) (products st))) ∧
    (1 ≤ Listing.page l ≤ Listing.pages l)%Z ∧
    Listing.page l = Z.min (Filters.page f) (Listing.pages l) ∧
    ((Listing.pages l - 1) * Filters.per_page f < Z.max (Listing.total l) 1
       ≤ Listing.pages l * Filters.per_page f)%Z.
Proof.
  intros f.
  destruct (sanitize_filters_range page per_page filter_sku filter_name
              filter_description filter_active) as (Hpage & Hper).
  fold f in Hpage, Hper.
  pose proof (fetch_products_spec ilike order_by_created_at_desc st f Hpage
                ltac:(lia)) as Hfetch.
  pose proof (page_count_spec
                (Z.of_nat (length (List.filter (where_clause ilike f) (products st))))
                (Filters.per_page f) ltac:(lia) ltac:(lia)) as [Hpages Hleast].
  cbv zeta in Hfetch, Hpages, Hleast.
  eexists. split; [exact Hfetch |]. cbn [Listing.total Listing.pages Listing.page].
  split_and!; [done | lia | lia | done | lia | lia].
Qed.

(** X22: for filters with a page size of at least 1, and a database that
    returns every selected row once, every page from 1 on can be fetched,
    holds at most per_page rows and is not empty when a row matches; the
    page count does not depend on the page asked for, and pages 1 to the
    page count laid end to end are the matching rows in the order of the
    database, each once. *)
Theorem fetch_products_pages_partition
    (ilike : string -> string -> bool)
    (order_by_created_at_desc : list Product.t -> list Product.t)
    (st : Store) (f : Filters.t) :
  (1 ≤ Filters.per_page f)%Z →
  (∀ l, length (order_by_created_at_desc l) = length l) →
  let rows :=
    order_by_created_at_desc (List.filter (where_clause ilike f) (products st)) in
  ∃ n,
    (∀ k, (1 ≤ k)%Z →
       ∃ l, listing ilike order_by_created_at_desc st (with_page f k) = Some l ∧
            Listing.pages l = Z.of_nat n ∧
            (Z.of_nat (length (Listing.products l)) ≤ Filters.per_page f)%Z ∧
            (rows ≠ [] → Listing.products l ≠ [])) ∧
    concat ((fun k => from_option Listing.products []
                        (listing ilike order_by_created_at_desc st
                           (with_page f (Z.of_nat k))))
            <$> seq 1 n) = rows.
Proof.
  intros Hper Hlen rows.
  set (base := List.filter (where_clause ilike f) (products st)) in *.
  set (total := Z.of_nat (length base)).
  set (pages := if (total =? 0)%Z then 1%Z
                else Z.max (ceil_div total (Filters.per_page f)) 1).
  pose proof (page_count_spec total (Filters.per_page f) ltac:(lia) Hper)
    as [Hpages Hleast]. cbv zeta in Hpages, Hleast. fold pages in Hpages, Hleast.
  assert (Z.of_nat (length rows) = total) as Hrows by (subst rows total; by rewrite Hlen).
  assert (∀ k, (1 ≤ k)%Z →
    listing ilike order_by_created_at_desc st (with_page f k) =
      Some {| Listing.products :=
                take (Z.to_nat (Filters.per_page f))
                     (drop (Z.to_nat ((Z.min k pages - 1) * Filters.per_page f)) rows);
              Listing.total := total;
              Listing.pages := pages;
              Listing.page := Z.min k pages |}) as Hlist.
  { intros k Hk. unfold listing.
    by rewrite (fetch_products_spec ilike order_by_created_at_desc st (with_page f k) Hk Hper). }
  exists (Z.to_nat pages). split.
  - intros k Hk. eexists. split; [by apply Hlist |].
    cbn [Listing.pages Listing.products]. split_and!.
    + lia.
    + rewrite length_take. lia.
    + intros Hne. intros Hnil. apply (f_equal length) in Hnil.
      rewrite length_take, length_drop in Hnil. cbn [length] in Hnil.
      assert (0 < total)%Z by (destruct rows; [done | simpl in Hrows; lia]).
      assert ((Z.min k pages - 1) * Filters.per_page f < total)%Z by nia.
      lia.
  - rewrite <- fmap_S_seq, <- list_fmap_compose.
    etransitivity;
      [| apply (concat_slices (Z.to_nat (Filters.per_page f)) rows (Z.to_nat pages));
         [lia | nia]].
    f_equal. apply list_fmap_ext. intros i k [-> Hi]%lookup_seq. cbn [compose].
    rewrite Hlist by lia. cbn [from_option Listing.products]. do 2 f_equal.
    rewrite Z.min_l by lia. nia.
Qed.

(** The statement of X22 on three stored rows in pages of two, the order
    of the database being the newest first. *)
Lemma fetch_products_pages_partition_witness :
  let f := _sanitize_filters 1 2 None None None (Some "ALL") in
  let rows := reverse (List.filter (where_clause ilike_prefix f) (products three_rows)) in
  ∃ n,
    (∀ k, (1 ≤ k)%Z →
       ∃ l, listing ilike_prefix reverse three_rows (with_page f k) = Some l ∧
            Listing.pages l = Z.of_nat n ∧
            (Z.of_nat (length (Listing.products l)) ≤ Filters.per_page f)%Z ∧
            (rows ≠ [] → Listing.products l ≠ [])) ∧
    concat ((fun k => from_option Listing.products []
                        (listing ilike_prefix reverse three_rows
                           (with_page f (Z.of_nat k))))
            <$> seq 1 n) = rows.
Proof.
  intros f.
  apply (fetch_products_pages_partition ilike_prefix reverse three_rows f).
  - vm_compute. discriminate.
  - intros l. apply length_reverse.
Defined.

(** ** The product endpoints *)

Lemma find_Some_elem {A} (f : A -> bool) (l : list A) x :
  List.find f l = Some x → x ∈ l ∧ f x = true.
Proof.
  induction l as [|a l IH]; [done |]. cbn [List.find].
  destruct (f a) eqn:Hfa.
  - intros [= <-]. split; [apply list_elem_of_here | done].
  - intros [Hx ?]%IH. split; [by apply list_elem_of_further | done].
Qed.

Lemma find_None_elem {A} (f : A -> bool) (l : list A) :
  List.find f l = None → ∀ x, x ∈ l → f x = false.
Proof.
  induction l as [|a l IH]; cbn [List.find]; [by intros _ x ?%elem_of_nil |].
  destruct (f a) eqn:Hfa; [done |].
  intros Hnone x [->|Hx]%elem_of_cons; [done | by apply IH].
Qed.

Lemma NoDup_fmap_eq {A B} (f : A -> B) (l : list A) i j x y :
  NoDup (f <$> l) → l !! i = Some x → l !! j = Some y → f x = f y → i = j.
Proof.
  intros Hnd Hi Hj Heq. apply (NoDup_lookup (f <$> l) i j (f x)); [done | |].
  - by rewrite list_lookup_fmap, Hi.
  - by rewrite list_lookup_fmap, Hj, Heq.
Qed.

(** An [UPDATE ... WHERE id = ...] on a table with a primary key writes
    one row. *)
Lemma update_by_id_insert (ps : list Product.t) i p row :
  NoDup (Product.id <$> ps) → ps !! i = Some p →
  (fun q => if decide (Product.id q = Product.id p) then row else q) <$> ps
    = <[i := row]> ps.
Proof.
  intros Hnd Hi. apply list_eq. intros j.
  rewrite list_lookup_fmap.
  destruct (decide (i = j)) as [<-|Hne].
  - rewrite list_lookup_insert_eq by (by eapply lookup_lt_Some).
    rewrite Hi. cbn [fmap option_fmap option_map]. by rewrite decide_True.
  - rewrite list_lookup_insert_ne by done.
    destruct (ps !! j) as [q|] eqn:Hj; [| done].
    cbn [fmap option_fmap option_map]. rewrite decide_False; [done |].
    intros Heq. apply Hne. symmetry. by eapply (NoDup_fmap_eq Product.id).
Qed.

Lemma NoDup_insert_fresh {A} (l : list A) i k :
  NoDup l → (∀ j x, l !! j = Some x → j ≠ i → x ≠ k) → NoDup (<[i := k]> l).
Proof.
  intros Hnd Hk. apply NoDup_alt. intros a b x Ha Hb.
  destruct (decide (i = a)) as [<-|Hia]; destruct (decide (i = b)) as [<-|Hib];
    [done | | |].
  - apply list_lookup_insert_Some in Ha as [(_ & <- & _)|[? _]]; [| done].
    rewrite list_lookup_insert_ne in Hb by done. by destruct (Hk b k Hb).
  - apply list_lookup_insert_Some in Hb as [(_ & <- & _)|[? _]]; [| done].
    rewrite list_lookup_insert_ne in Ha by done. by destruct (Hk a k Ha).
  - rewrite list_lookup_insert_ne in Ha, Hb by done.
    by eapply NoDup_lookup.
Qed.

Section EndpointFacts.
Variable utcnow : nat -> Z.

(** The flush of a modified object whose key no other row holds does not
    meet the unique index. *)
Lemma flush_update_unique old new st :
  unique_keys (products st) → NoDup (Product.id <$> products st) →
  old ∈ products st →
  (∀ q, q ∈ products st → Product.id q ≠ Product.id old →
        Product.lower_sku q ≠ Product.lower_sku new) →
  flush_update utcnow old new st ≠ inl UniqueViolation.
Proof.
  intros Huniq Hids Hold Hother. unfold flush_update.
  case_decide; [done |]. destruct (changed_columns_error old new); [done |].
  rewrite decide_True; [done |].
  apply list_elem_of_lookup_1 in Hold as [i Hi].
  rewrite (update_by_id_insert _ i old) by done.
  rewrite list_fmap_insert. apply NoDup_insert_fresh; [done |].
  intros j x Hj Hne. rewrite list_lookup_fmap in Hj.
  destruct (products st !! j) as [q|] eqn:Hq; [| done].
  injection Hj as <-. change (Product.lower_sku q ≠ Product.lower_sku new).
  apply Hother; [by eapply list_elem_of_lookup_2 |].
  intros Heq. apply Hne. by eapply (NoDup_fmap_eq Product.id).
Qed.

End EndpointFacts.

(** X23: on a table that satisfies its unique index and its primary key,
    neither form ever fails on the unique index: [create_product] turns a
    sku that is taken, in whatever case, into an update of the row that
    has it, and [update_product] refuses one that another row has before
    it writes. *)
Theorem product_forms_never_violate_unique_index
    (utcnow : nat -> Z) (st : Store) :
  unique_keys (products st) →
  NoDup (Product.id <$> products st) →
  (∀ sku name description price active,
     (create_product utcnow sku name description price active st).2
       ≠ Unhandled (FlushFault UniqueViolation)) ∧
  (∀ product_id sku name description price active,
     (update_product utcnow product_id sku name description price active st).2
       ≠ Unhandled (FlushFault UniqueViolation)).
Proof.
  intros Huniq Hids. split.
  - intros sku0 name0 description0 price active0. unfold create_product.
    destruct (PyStr.is_empty _); [done |].
    destruct (_parse_price price) as [cents| |]; [| done | done].
    destruct (first_with_key _ _) as [p|] eqn:Hfind.
    + apply find_Some_elem in Hfind as [Hp Hkey]. apply bool_decide_eq_true_1 in Hkey.
      match goal with |- context [flush_update utcnow p ?m st] =>
        pose proof (flush_update_unique utcnow p m st Huniq Hids Hp) as Hflush;
        destruct (flush_update utcnow p m st) as [e|st'] eqn:Hf
      end; [| done].
      cbn [snd]. intros [= ->]. apply Hflush; [| done].
      intros q Hq Hid Heq. apply Hid. f_equal.
      apply list_elem_of_lookup_1 in Hq as [i Hi]. apply list_elem_of_lookup_1 in Hp as [j Hj].
      assert (i = j) as -> by (by eapply (NoDup_fmap_eq Product.lower_sku)).
      congruence.
    + pose proof (find_None_elem _ _ Hfind) as Hnone.
      unfold flush_insert. destruct (check_columns _); [done |].
      rewrite decide_True; [done |].
      rewrite fmap_app. apply NoDup_app. split_and!; [done | | apply NoDup_singleton].
      intros k (q & -> & Hq)%list_elem_of_fmap Heq%list_elem_of_singleton.
      apply Hnone in Hq. by apply bool_decide_eq_false_1 in Hq.
  - intros product_id sku0 name0 description0 price active0. unfold update_product.
    destruct (get_product _ _) as [p|] eqn:Hget; [| done].
    apply find_Some_elem in Hget as [Hp Hid]. apply bool_decide_eq_true_1 in Hid.
    destruct (List.find _ _) as [c|] eqn:Hconflict; [done |].
    pose proof (find_None_elem _ _ Hconflict) as Hnone.
    destruct (_parse_price price) as [cents| |]; [| done | done].
    match goal with |- context [flush_update utcnow p ?m st] =>
      pose proof (flush_update_unique utcnow p m st Huniq Hids Hp) as Hflush;
      destruct (flush_update utcnow p m st) as [e|st'] eqn:Hf
    end; [| done].
    cbn [snd]. intros [= ->]. apply Hflush; [| done].
    intros q Hq Hne Heq. apply Hnone in Hq.
    apply andb_false_iff in Hq as [Hq|Hq].
    + by apply bool_decide_eq_false_1 in Hq.
    + apply bool_decide_eq_false_1 in Hq. apply Hq. by rewrite <- Hid.
Qed.

(** The statement of X23 on the one-row table. *)
Lemma product_forms_never_violate_unique_index_witness :
  (∀ sku name description price active,
     (create_product Z.of_nat sku name description price active widget_store).2
       ≠ Unhandled (FlushFault UniqueViolation)) ∧
  (∀ product_id sku name description price active,
     (update_product Z.of_nat product_id sku name description price active widget_store).2
       ≠ Unhandled (FlushFault UniqueViolation)).
Proof.
  apply (product_forms_never_violate_unique_index Z.of_nat widget_store).
  - apply (bool_decide_unpack _). vm_compute. exact I.
  - apply (bool_decide_unpack _). vm_compute. exact I.
Defined.

(** X24: a product created through the form changes the table as the
    import of one record with the submitted values does: on a table that
    satisfies its unique index and its primary key, the rows after
    [create_product] are those after the upsert of that record, apart from
    [updated_at]; the payload reports "updated" when the sku was taken
    and "created" when not, with the id of the row that now has the key. *)
Theorem create_product_is_the_upsert_of_one_record
    (utcnow : nat -> Z) (sku0 : string) (name0 description0 price active0 : option string)
    (st st' : Store) (payload : list (string * PayloadValue)) :
  unique_keys (products st) →
  NoDup (Product.id <$> products st) →
  create_product utcnow sku0 name0 description0 price active0 st
    = (st', JSONResponse payload) →
  ∃ cents p,
    _parse_price price = Price cents ∧
    let r := {| sku := PyStr.strip sku0;
                name := strip_if_any name0;
                description := strip_if_any description0;
                price_cents := cents;
                active := _parse_bool active0 true |} in
    with_updated_at 0 <$> products st'
      = with_updated_at 0 <$> products (upsert_one utcnow r st) ∧
    p ∈ products st' ∧ Product.lower_sku p = row_key r ∧
    payload =
      [("result", PStr (if decide (row_key r ∈ Product.lower_sku <$> products st)
                        then "updated" else "created"));
       ("id", PInt (Product.id p))].
Proof.
  intros Huniq Hids. unfold create_product.
  destruct (PyStr.is_empty _); [done |].
  destruct (_parse_price price) as [cents| |]; [| done | done].
  destruct (first_with_key _ _) as [p|] eqn:Hfind.
  - apply find_Some_elem in Hfind as [Hp Hkey]. apply bool_decide_eq_true_1 in Hkey.
    destruct (flush_update _ _ _ _) as [e|st''] eqn:Hf; [done |].
    intros [= <- <-]. exists cents.
    set (r := {| sku := PyStr.strip sku0; name := strip_if_any name0;
                 description := strip_if_any description0; price_cents := cents;
                 active := _parse_bool active0 true |}).
    assert (row_key r ∈ Product.lower_sku <$> products st) as Hin.
    { change (row_key r) with (PyStr.lower (PyStr.strip sku0)). rewrite <- Hkey.
      by apply list_elem_of_fmap_2. }
    pose proof Hp as [i Hi]%list_elem_of_lookup_1.
    cbn [upsert_one products].
    rewrite (insert_or_update_hit r _ _ i p Huniq Hi Hkey).
    unfold flush_update in Hf. case_decide as Hcols.
    + injection Hf as <-. injection Hcols as Hn Hd Hc Ha. exists p.
      cbv zeta. rewrite decide_True by done.
      assert (on_conflict_set p r = p) as ->
        by (destruct p; simpl in *; by subst).
      rewrite list_insert_id by done. by split_and!.
    + destruct (changed_columns_error _ _); [done |].
      case_decide; [| done]. injection Hf as <-. cbn [products].
      rewrite (update_by_id_insert _ i p) by done.
      match goal with |- context [<[i := with_updated_at ?t ?m]> (products st)] =>
        exists (with_updated_at t m)
      end.
      cbv zeta. rewrite decide_True by done.
      rewrite !list_fmap_insert. split_and!; [done | done | | done | done].
      apply list_elem_of_insert. by eapply lookup_lt_Some.
  - pose proof (find_None_elem _ _ Hfind) as Hnone.
    unfold flush_insert. destruct (check_columns _); [done |].
    case_decide; [| done]. intros [= <- <-]. exists cents.
    set (r := {| sku := PyStr.strip sku0; name := strip_if_any name0;
                 description := strip_if_any description0; price_cents := cents;
                 active := _parse_bool active0 true |}).
    assert (row_key r ∉ Product.lower_sku <$> products st) as Hnin.
    { intros (q & Heq & Hq)%list_elem_of_fmap. apply Hnone in Hq.
      apply bool_decide_eq_false_1 in Hq. by apply Hq. }
    exists (proposed utcnow st r). cbv zeta. rewrite decide_False by done.
    cbn [upsert_one products]. rewrite insert_or_update_miss by done.
    split_and!; [done | done | | done | done].
    apply elem_of_app. right. apply list_elem_of_here.
Qed.

(** The statement of X24 on the one-row table and a sku that is taken in
    another case. *)
Lemma create_product_is_the_upsert_of_one_record_witness :
  let st' := (create_product Z.of_nat " A1 " (Some "New") None (Some "$1.50") None
                widget_store).1 in
  ∃ payload cents p,
    _parse_price (Some "$1.50") = Price cents ∧
    let r := {| sku := PyStr.strip " A1 ";
                name := strip_if_any (Some "New");
                description := strip_if_any None;
                price_cents := cents;
                active := _parse_bool None true |} in
    with_updated_at 0 <$> products st'
      = with_updated_at 0 <$> products (upsert_one Z.of_nat r widget_store) ∧
    p ∈ products st' ∧ Product.lower_sku p = row_key r ∧
    payload =
      [("result", PStr (if decide (row_key r ∈ Product.lower_sku <$> products widget_store)
                        then "updated" else "created"));
       ("id", PInt (Product.id p))].
Proof.
  intros st'. eexists.
  apply (create_product_is_the_upsert_of_one_record Z.of_nat " A1 " (Some "New") None
           (Some "$1.50") None widget_store st').
  - apply (bool_decide_unpack _). vm_compute. exact I.
  - apply (bool_decide_unpack _). vm_compute. exact I.
  - vm_compute. reflexivity.
Defined.

Lemma parse_price_details value detail :
  _parse_price value = BadRequest detail →
  detail = "Price must be a valid number" ∨ detail = "Price cannot be negative".
Proof.
  unfold _parse_price. destruct value as [v|]; [| done].
  destruct (PyStr.is_empty _); [done |].
  destruct (PyDecimal.of_string _) as [d|]; [| intros [= <-]; by left].
  destruct (PyDecimal.mul_100 d) as [[neg c e|neg|]|];
    [| done | intros [= <-]; by left | done].
  cbn [PyDecimal.to_int]. case_match; [intros [= <-]; by right | done].
Qed.

(** X25: the outcomes of [update_product] on a table that satisfies its
    primary key.  It answers 404 exactly when no row has the id, and 400
    "SKU already exists" exactly when the row exists and another row has
    the submitted sku in some case.  When it answers with a payload it has
    written one row, the one with the id, which now carries the submitted
    values under the id and creation time it had; every other answer
    leaves the store as it was. *)
Theorem update_product_outcomes
    (utcnow : nat -> Z) (product_id : Z) (sku0 : string)
    (name0 description0 price active0 : option string) (st : Store) :
  NoDup (Product.id <$> products st) →
  let out := update_product utcnow product_id sku0 name0 description0 price active0 st in
  (out.2 = HTTPException 404 "Product not found"
     ↔ product_id ∉ Product.id <$> products st) ∧
  (out.2 = HTTPException 400 "SKU already exists"
     ↔ product_id ∈ Product.id <$> products st ∧
       ∃ q, q ∈ products st ∧ Product.id q ≠ product_id ∧
            Product.lower_sku q = PyStr.lower (PyStr.strip sku0)) ∧
  (∀ payload, out.2 = JSONResponse payload →
     ∃ i old new,
       products st !! i = Some old ∧ Product.id old = product_id ∧
       products out.1 = <[i := new]> (products st) ∧
       Product.id new = product_id ∧
       Product.sku new = PyStr.strip sku0 ∧
       Product.name new = strip_if_any name0 ∧
       Product.description new = strip_if_any description0 ∧
       _parse_price price = Price (Product.price_cents new) ∧
       Product.active new = _parse_bool active0 (Product.active old) ∧
       Product.created_at new = Product.created_at old) ∧
  ((∀ payload, out.2 ≠ JSONResponse payload) → out.1 = st).
Proof.
  intros Hids out. subst out. unfold update_product.
  destruct (get_product _ _) as [p|] eqn:Hget.
  2:{ pose proof (find_None_elem _ _ Hget) as Hnone. cbn [fst snd].
      assert (product_id ∉ Product.id <$> products st) as Hnin.
      { intros (q & -> & Hq)%list_elem_of_fmap. apply Hnone in Hq.
        by apply bool_decide_eq_false_1 in Hq. }
      split_and!; [done | | done | done]. split; [done | by intros [? _]]. }
  apply find_Some_elem in Hget as [Hp Hid]. apply bool_decide_eq_true_1 in Hid.
  assert (product_id ∈ Product.id <$> products st) as Hin
    by (rewrite <- Hid; by apply list_elem_of_fmap_2).
  destruct (List.find _ _) as [c|] eqn:Hconflict.
  { apply find_Some_elem in Hconflict as [Hc [Hck Hcid]%andb_true_iff].
    apply bool_decide_eq_true_1 in Hck, Hcid. cbn [fst snd].
    split_and!; [done | | done | done]. split; [| done].
    intros _. split; [done |]. by exists c. }
  pose proof (find_None_elem _ _ Hconflict) as Hnone.
  assert (¬ ∃ q, q ∈ products st ∧ Product.id q ≠ product_id ∧
                 Product.lower_sku q = PyStr.lower (PyStr.strip sku0)) as Hfree.
  { intros (q & Hq & Hqid & Hqk). apply Hnone in Hq.
    apply andb_false_iff in Hq as [Hq|Hq]; by apply bool_decide_eq_false_1 in Hq. }
  destruct (_parse_price price) as [cents|detail|] eqn:Hprice.
  2:{ cbn [fst snd]. split_and!; [done | | done | done]. split; [| by intros [_ ?]].
      intros [= ->]. by destruct (parse_price_details _ _ Hprice). }
  2:{ cbn [fst snd]. split_and!; [done | | done | done]. split; [done | by intros [_ ?]]. }
  destruct (flush_update _ _ _ _) as [e|st'] eqn:Hf.
  { cbn [fst snd]. split_and!; [done | | done | done]. split; [done | by intros [_ ?]]. }
  cbn [fst snd].
  split_and!; [done | split; [done | by intros [_ ?]] | | by intros Hno; destruct (Hno _ eq_refl)].
  intros payload _. pose proof Hp as [i Hi]%list_elem_of_lookup_1.
  unfold flush_update in Hf. case_decide as Hcols.
  - injection Hf as <-. injection Hcols as Hs Hn Hd Hc Ha.
    exists i, p, p. rewrite list_insert_id by done. rewrite <- Hc. by split_and!.
  - destruct (changed_columns_error _ _); [done |].
    case_decide; [| done]. injection Hf as <-. cbn [products].
    rewrite (update_by_id_insert _ i p) by done.
    eexists i, p, _. by split_and!.
Qed.

(** The statement of X25 on the one-row table. *)
Lemma update_product_outcomes_witness :
  let out := update_product Z.of_nat 7 " B2 " (Some "Bee") None (Some "2") (Some "no")
               widget_store in
  (out.2 = HTTPException 404 "Product not found"
     ↔ 7%Z ∉ Product.id <$> products widget_store) ∧
  (out.2 = HTTPException 400 "SKU already exists"
     ↔ 7%Z ∈ Product.id <$> products widget_store ∧
       ∃ q, q ∈ products widget_store ∧ Product.id q ≠ 7%Z ∧
            Product.lower_sku q = PyStr.lower (PyStr.strip " B2 ")) ∧
  (∀ payload, out.2 = JSONResponse payload →
     ∃ i old new,
       products widget_store !! i = Some old ∧ Product.id old = 7%Z ∧
       products out.1 = <[i := new]> (products widget_store) ∧
       Product.id new = 7%Z ∧
       Product.sku new = PyStr.strip " B2 " ∧
       Product.name new = strip_if_any (Some "Bee") ∧
       Product.description new = strip_if_any None ∧
       _parse_price (Some "2") = Price (Product.price_cents new) ∧
       Product.active new = _parse_bool (Some "no") (Product.active old) ∧
       Product.created_at new = Product.created_at old) ∧
  ((∀ payload, out.2 ≠ JSONResponse payload) → out.1 = widget_store).
Proof.
  apply (update_product_outcomes Z.of_nat 7 " B2 " (Some "Bee") None (Some "2") (Some "no")
           widget_store).
  apply (bool_decide_unpack _). vm_compute. exact I.
Defined.


Lemma List_filter_sublist {A} (g : A -> bool) (l : list A) :
  List.filter g l `sublist_of` l.
Proof.
  induction l as [|a l IH]; [constructor |]. cbn [List.filter].
  destruct (g a); by constructor.
Qed.

Lemma List_filter_Forall {A} (P : A -> Prop) (g : A -> bool) (l : list A) :
  Forall P l → Forall P (List.filter g l).
Proof.
  induction 1 as [|a l Ha _ IH]; [constructor |]. cbn [List.filter].
  destruct (g a); [by constructor | done].
Qed.

Section EndpointInvariant.
Variable utcnow : nat -> Z.

Lemma flush_update_consistent old new st st' :
  consistent st → Product.id new = Product.id old →
  flush_update utcnow old new st = inr st' → consistent st'.
Proof.
  intros [Huniq [Hlt Hnd]] Hid. unfold flush_update.
  case_decide; [by intros [= <-] |].
  destruct (changed_columns_error old new); [done |].
  case_decide as Hkeys; [| done]. intros [= <-].
  assert (Product.id <$> ((fun p => if decide (Product.id p = Product.id old)
                                    then with_updated_at (utcnow (clock_reads st)) new
                                    else p) <$> products st)
          = Product.id <$> products st) as Hids.
  { rewrite <- list_fmap_compose. apply list_fmap_ext. intros i q _.
    cbn [compose]. case_decide; [by cbn; congruence | done]. }
  split; [done |]. split; cbn [products next_id].
  - apply (proj1 (Forall_fmap Product.id (fun i : Z => (i < next_id st)%Z) _)).
    rewrite Hids. by apply Forall_fmap.
  - by rewrite Hids.
Qed.

Lemma flush_insert_consistent r st st' :
  consistent st → flush_insert utcnow r st = inr st' → consistent st'.
Proof.
  intros [Huniq [Hlt Hnd]]. unfold flush_insert.
  destruct (check_columns r); [done |]. case_decide as Hkeys; [| done].
  intros [= <-]. split; [done |]. split; cbn [products next_id].
  - apply Forall_app. split.
    + eapply Forall_impl; [done |]. intros p ?. cbn beta in *. lia.
    + constructor; [cbn; lia | constructor].
  - rewrite fmap_app. apply NoDup_app. split_and!; [done | | apply NoDup_singleton].
    intros i (q & -> & Hq)%list_elem_of_fmap Heq%list_elem_of_singleton.
    rewrite Forall_forall in Hlt. apply Hlt in Hq. cbn in Heq. lia.
Qed.

End EndpointInvariant.

(** X26: the four product endpoints keep the table consistent: whatever
    they are sent and whatever they answer, a table that satisfies the
    unique index on [lower(sku)] and whose ids are distinct and below the
    next value of the sequence is left in a state that does so too. *)
Theorem product_endpoints_keep_table_consistent (utcnow : nat -> Z) (st : Store) :
  consistent st →
  (∀ sku name description price active,
     consistent (create_product utcnow sku name description price active st).1) ∧
  (∀ product_id sku name description price active,
     consistent (update_product utcnow product_id sku name description price active st).1) ∧
  (∀ product_id, consistent (delete_product product_id st).1) ∧
  (∀ confirm, consistent (delete_all_products confirm st).1).
Proof.
  intros Hst. split_and!.
  - intros sku0 name0 description0 price active0. unfold create_product.
    destruct (PyStr.is_empty _); [done |].
    destruct (_parse_price price); [| done | done].
    destruct (first_with_key _ _) as [p|].
    + destruct (flush_update _ _ _ _) as [e|st'] eqn:Hf; [done |].
      by apply flush_update_consistent in Hf.
    + destruct (flush_insert _ _ _) as [e|st'] eqn:Hf; [done |].
      by apply flush_insert_consistent in Hf.
  - intros product_id sku0 name0 description0 price active0. unfold update_product.
    destruct (get_product _ _) as [p|]; [| done].
    destruct (List.find _ _); [done |].
    destruct (_parse_price price); [| done | done].
    destruct (flush_update _ _ _ _) as [e|st'] eqn:Hf; [done |].
    by apply flush_update_consistent in Hf.
  - intros product_id. unfold delete_product.
    destruct (get_product _ _); [| done]. destruct Hst as [Huniq [Hlt Hnd]].
    cbn [fst]. split; [| split]; cbn [products next_id].
    + unfold unique_keys. eapply sublist_NoDup; [done |].
      apply fmap_sublist, List_filter_sublist.
    + by apply List_filter_Forall.
    + eapply sublist_NoDup; [done |]. apply fmap_sublist, List_filter_sublist.
  - intros confirm. unfold delete_all_products.
    destruct (negb _); [done |]. cbn [fst].
    split; [| split]; cbn [products]; [apply NoDup_nil_2 | constructor | apply NoDup_nil_2].
Qed.

(** The statement of X26 on the one-row table. *)
Lemma product_endpoints_keep_table_consistent_witness :
  (∀ sku name description price active,
     consistent (create_product Z.of_nat sku name description price active widget_store).1) ∧
  (∀ product_id sku name description price active,
     consistent (update_product Z.of_nat product_id sku name description price active
                   widget_store).1) ∧
  (∀ product_id, consistent (delete_product product_id widget_store).1) ∧
  (∀ confirm, consistent (delete_all_products confirm widget_store).1).
Proof.
  apply (product_endpoints_keep_table_consistent Z.of_nat widget_store).
  split; [| split].
  - apply (bool_decide_unpack _). vm_compute. exact I.
  - repeat constructor.
  - apply (bool_decide_unpack _). vm_compute. exact I.
Defined.

(** ** The import cannot fail on repeated keys *)

Lemma dedupe_batch_NoDup rows : NoDup (row_key <$> _dedupe_batch rows).
Proof.
  change (_dedupe_batch rows) with (dict_values (deduped rows)).
  rewrite deduped_keys_values. apply deduped_NoDup.
Qed.

Lemma dedupe_batch_elem_of rows r : r ∈ _dedupe_batch rows → r ∈ rows.
Proof.
  change (_dedupe_batch rows) with (dict_values (deduped rows)). unfold dict_values.
  intros ([k r'] & -> & Hin)%list_elem_of_fmap. cbn [snd].
  apply dict_elem_of_get in Hin; [| apply deduped_NoDup].
  rewrite deduped_get in Hin. unfold last_with_key in Hin.
  apply last_Some_elem_of in Hin. by apply list_elem_of_filter in Hin as [_ ?].
Qed.

Section JobReturns.
Variable csv_reader : string -> list (list string).
Variable utcnow : nat -> Z.
Variable db_error_text : DbError -> string.
Variable task_id file_path : string.
Variable batch_size : Z.

Local Abbreviation fitting := (Forall (fun r => check_columns r = None)).

Lemma flush_fitting batch processed w :
  fitting batch → ∃ w' p, flush utcnow batch processed w = Ok (w', p).
Proof.
  intros Hfit. unfold flush.
  destruct (_dedupe_batch batch) as [|r rows] eqn:Hdd; [by eexists _, _ |].
  rewrite upsert_products_bulk_valid; [by eexists _, _ | unfold default_chunk_size; lia | | done].
  rewrite <- Hdd. split; [| apply dedupe_batch_NoDup].
  apply Forall_forall. intros x Hx%dedupe_batch_elem_of.
  by eapply Forall_forall in Hfit.
Qed.

Lemma import_rows_fitting rows total batch processed invalid_rows w :
  fitting batch → fitting (accepted rows) →
  ∃ w' b p i,
    import_rows utcnow task_id batch_size rows total batch processed invalid_rows w
      = (w', Ok (b, p, i)) ∧ fitting b.
Proof.
  revert batch processed invalid_rows w.
  induction rows as [|row rows IH]; intros batch processed invalid_rows w Hb Hrows.
  - by eexists _, _, _, _.
  - cbn [import_rows]. unfold accepted in *. cbn [omap list_omap] in Hrows.
    destruct (_normalize_row row) as [product|]; [| by apply IH].
    apply Forall_cons in Hrows as [Hp Hrows].
    assert (fitting (batch ++ [product])) as Hb'
      by (apply Forall_app; split; [done | by constructor]).
    case_match; [| by apply IH].
    destruct (flush_fitting (batch ++ [product]) processed w Hb') as (w1 & p1 & ->).
    by apply IH.
Qed.

End JobReturns.

(** X27: rows of the file that repeat a sku, in whatever case and
    wherever they stand, never make the import fail: on a file that
    exists and has an sku column, the job returns whenever every accepted
    record fits the column types. *)
Theorem import_returns_when_records_fit
    (csv_reader : string -> list (list string)) (utcnow : nat -> Z)
    (db_error_text : DbError -> string) (task_id file_path : string)
    (batch_size : Z) (w : World) (content : string) :
  files w !! file_path = Some content →
  "sku" ∈ header_set (csv_reader content) →
  Forall (fun r => check_columns r = None) (accepted (data_rows csv_reader content)) →
  (import_with_batch_size csv_reader utcnow db_error_text task_id file_path batch_size w).2
    = Ok tt.
Proof.
  intros Hfile Hsku Hfit. unfold import_with_batch_size.
  set (w0 := _set_task_state task_id
               [("status", RStr "initializing"); ("progress", RInt 0);
                ("total", RInt 0); ("invalid", RInt 0)] w).
  assert (files w0 !! file_path = Some content) as Hfile0
    by (subst w0; by rewrite set_task_state_spec).
  destruct (try_body_cases csv_reader utcnow task_id file_path batch_size w0 content Hfile0)
    as [[Hno _]|[_ (w1 & res & Hloop & Hres)]]; [done |].
  destruct (import_rows_fitting utcnow task_id batch_size (data_rows csv_reader content) (rows_count content)
              [] 0%Z 0%Z
              (_set_task_state task_id [("status", RStr "parsing");
                                        ("total", RInt (rows_count content))] w0)
              ltac:(constructor) Hfit) as (w' & b & p & i & Hok & Hb).
  rewrite Hok in Hloop. injection Hloop as <- <-.
  destruct Hres as [(e & _ & Hfail & _)|(w2 & _ & _ & _ & ->)]; [| done].
  destruct (flush_fitting utcnow b p w' Hb) as (? & ? & Hflush). congruence.
Qed.

(** The statement of X27 on the three-row input, two of whose rows share
    a key, with a batch size of 2. *)
Lemma import_returns_when_records_fit_witness :
  (import_with_batch_size csv_plain (fun k => Z.of_nat k) (fun _ => "db error")
     "t1" "/tmp/u.csv" 2 sample_world).2 = Ok tt.
Proof.
  apply (import_returns_when_records_fit csv_plain (fun k => Z.of_nat k)
           (fun _ => "db error") "t1" "/tmp/u.csv" 2 sample_world sample_csv).
  - reflexivity.
  - apply (bool_decide_unpack _). vm_compute. exact I.
  - apply (bool_decide_unpack _). vm_compute. exact I.
Defined.


(** ** Rows, batches and counters *)










Section JobBatches.
Variable csv_reader : string -> list (list string).
Variable utcnow : nat -> Z.
Variable db_error_text : DbError -> string.
Variable task_id file_path : string.
Variable batch_size : Z.

Local Abbreviation loop_b := (import_rows utcnow task_id batch_size).
Local Abbreviation size_b := (effective_batch_size batch_size).

Lemma flush_Raise batch processed w exc :
  flush utcnow batch processed w = Raise exc →
  upsert_products_bulk utcnow (_dedupe_batch batch) default_chunk_size (db w) = Raise exc.
Proof. unfold flush. by destruct upsert_products_bulk as [[st n]|e]; intros [= <-]. Qed.

(** The loop flushes the accepted records in runs of the batch size, one
    after the other, until a run is refused. *)
Lemma import_rows_batches rows total batch processed invalid_rows w :
  (Z.of_nat (length batch) < size_b)%Z →
  ∃ fbs,
    Forall (fun fb => Z.of_nat (length fb) = size_b) fbs ∧
    db (loop_b rows total batch processed invalid_rows w).1
      = upsert_all utcnow (concat (_dedupe_batch <$> fbs)) (db w) ∧
    match (loop_b rows total batch processed invalid_rows w).2 with
    | Ok (b', p', i') =>
        batch ++ accepted rows = concat fbs ++ b' ∧
        (Z.of_nat (length b') < size_b)%Z ∧
        p' = (processed + Z.of_nat (length (concat (_dedupe_batch <$> fbs))))%Z
    | Raise exc =>
        ∃ fb rest,
          batch ++ accepted rows = concat fbs ++ fb ++ rest ∧
          Z.of_nat (length fb) = size_b ∧
          upsert_products_bulk utcnow (_dedupe_batch fb) default_chunk_size
            (db (loop_b rows total batch processed invalid_rows w).1) = Raise exc
    end.
Proof.
  unfold effective_batch_size.
  revert batch processed invalid_rows w.
  induction rows as [|row rows IH]; intros batch processed invalid_rows w Hb.
  - exists []. cbn [import_rows fst snd fmap list_fmap concat accepted omap list_omap].
    rewrite app_nil_r. split_and!; [constructor | done | done | done | simpl; lia].
  - cbn [import_rows]. unfold accepted in *. cbn [omap list_omap].
    destruct (_normalize_row row) as [product|]; [| by apply IH].
    replace (batch ++ product :: omap _normalize_row rows)
      with ((batch ++ [product]) ++ omap _normalize_row rows) by (by rewrite <- app_assoc).
    destruct (batch_size <=? Z.of_nat (length (batch ++ [product])))%Z eqn:Hfull.
    2:{ apply Z.leb_gt in Hfull. apply IH. lia. }
    apply Z.leb_le in Hfull.
    assert (Z.of_nat (length (batch ++ [product])) = Z.max batch_size 1) as Hlen
      by (rewrite length_app in *; simpl in *; lia).
    destruct (flush utcnow (batch ++ [product]) processed w) as [[w1 p1]|e] eqn:Hf.
    2:{ exists []. cbn [fst snd fmap list_fmap concat app].
        split_and!; [constructor | done |].
        exists (batch ++ [product]), (omap _normalize_row rows).
        split_and!; [done | done | by apply flush_Raise in Hf]. }
    pose proof (flush_db _ _ _ _ _ _ Hf) as Hdb1.
    apply flush_Ok in Hf as (_ & _ & _ & ->).
    rewrite set_task_state_spec.
    match goal with |- context [loop_b rows total [] ?p1 invalid_rows ?w2] =>
      destruct (IH [] p1 invalid_rows w2 ltac:(simpl; lia)) as (fbs & Hall & Hdb & Hres);
      destruct (loop_b rows total [] p1 invalid_rows w2) as [w3 res]
    end.
    cbn [fst snd db app] in *.
    exists ((batch ++ [product]) :: fbs). rewrite fmap_cons. cbn [concat].
    split_and!; [by constructor | by rewrite upsert_all_app, <- Hdb1 |].
    destruct res as [[[b' p'] i']|exc].
    + destruct Hres as (Hsplit & Hb' & ->). rewrite Hsplit, length_app.
      split_and!; [by rewrite app_assoc | done | lia].
    + destruct Hres as (fb & rest & Hsplit & Hfb & Hup).
      exists fb, rest. rewrite Hsplit. split_and!; [by rewrite !app_assoc | done | done].
Qed.


End JobBatches.




(** X14: batches committed before a failure stay.  On a file that exists
    and has an sku column, the accepted records are upserted in runs of
    the batch size, each run deduplicated, one run after the other.  When
    the job raises, the table holds the runs before the one that was
    refused and nothing of that one or of the later ones: the refused run
    is the next one, and upserting it on that table raises the exception
    the job raises.  When the job returns, the table holds every run, the
    last shorter one included.  The unique index is kept either way. *)
Theorem import_keeps_batches_committed_before_failure
    (csv_reader : string -> list (list string)) (utcnow : nat -> Z)
    (db_error_text : DbError -> string) (task_id file_path : string)
    (batch_size : Z) (w : World) (content : string) :
  files w !! file_path = Some content →
  "sku" ∈ header_set (csv_reader content) →
  unique_keys (products (db w)) →
  let out := import_with_batch_size csv_reader utcnow db_error_text
               task_id file_path batch_size w in
  ∃ batches rest,
    accepted (data_rows csv_reader content) = concat batches ++ rest ∧
    Forall (fun b => Z.of_nat (length b) = effective_batch_size batch_size) batches ∧
    unique_keys (products (db out.1)) ∧
    match out.2 with
    | Ok _ =>
        (Z.of_nat (length rest) < effective_batch_size batch_size)%Z ∧
        db out.1
          = upsert_all utcnow (concat (_dedupe_batch <$> (batches ++ [rest]))) (db w)
    | Raise exc =>
        db out.1 = upsert_all utcnow (concat (_dedupe_batch <$> batches)) (db w) ∧
        rest ≠ [] ∧
        upsert_products_bulk utcnow
          (_dedupe_batch (take (Z.to_nat (effective_batch_size batch_size)) rest))
          default_chunk_size (db out.1) = Raise exc
    end.
Proof.
  intros Hfile Hsku Huniq out. subst out. unfold import_with_batch_size.
  set (w0 := _set_task_state task_id
               [("status", RStr "initializing"); ("progress", RInt 0);
                ("total", RInt 0); ("invalid", RInt 0)] w).
  assert (files w0 !! file_path = Some content ∧ db w0 = db w) as [Hfile0 Hdb0]
    by (subst w0; by rewrite set_task_state_spec).
  destruct (try_body_cases csv_reader utcnow task_id file_path batch_size w0 content Hfile0)
    as [[Hno _]|[_ (w1 & res & Hloop & Hres)]]; [done |].
  destruct (import_rows_batches utcnow task_id batch_size
              (data_rows csv_reader content) (rows_count content) [] 0%Z 0%Z
              (_set_task_state task_id [("status", RStr "parsing");
                                        ("total", RInt (rows_count content))] w0))
    as (fbs & Hall & Hdb & Hout); [unfold effective_batch_size; simpl; lia |].
  rewrite Hloop in Hdb, Hout. rewrite set_task_state_spec in Hdb.
  cbn [fst snd app db] in Hdb, Hout. rewrite Hdb0 in Hdb.
  assert (unique_keys (products (db w1))) as Huniq1
    by (rewrite Hdb; by apply upsert_all_unique).
  destruct res as [[[b p] i]|exc].
  - destruct Hout as (Hsplit & Hb & _).
    destruct Hres as [(e & Hne & Hfail & ->)|(w2 & _ & _ & Hdb2 & ->)].
    + exists fbs, b. unfold except_clause. rewrite set_task_state_spec.
      cbn [fst snd remove_source db].
      split_and!; [done | done | done | done | done |].
      rewrite take_ge by lia. by apply flush_Raise in Hfail.
    + exists fbs, b. rewrite set_task_state_spec. cbn [fst snd remove_source db].
      rewrite Hdb2, Hdb, fmap_app, concat_app, upsert_all_app.
      cbn [fmap list_fmap concat]. rewrite app_nil_r.
      split_and!; [done | done | | done | done].
      by do 2 apply upsert_all_unique.
  - rewrite Hres. destruct Hout as (fb & rest & Hsplit & Hfb & Hfail).
    exists fbs, (fb ++ rest). unfold except_clause. rewrite set_task_state_spec.
    cbn [fst snd remove_source db].
    split_and!; [done | done | done | done | |].
    + intros Hnil. apply (f_equal length) in Hnil. rewrite length_app in Hnil.
      unfold effective_batch_size in Hfb. simpl in Hnil. lia.
    + rewrite take_app_length' by lia. done.
Qed.

(** The statement of X14 on a file whose second record does not fit its
    column, imported in batches of one: the job raises and the first
    record stays. *)
Lemma import_keeps_batches_committed_before_failure_witness :
  (half_run.2 = Raise (DBAPIError NumericValueOutOfRange) ∧
   Product.sku <$> products (db half_run.1) = ["OK1"]) ∧
  let out := half_run in
  ∃ batches rest,
    accepted (data_rows csv_plain half_csv) = concat batches ++ rest ∧
    Forall (fun b => Z.of_nat (length b) = effective_batch_size 1) batches ∧
    unique_keys (products (db out.1)) ∧
    match out.2 with
    | Ok _ =>
        (Z.of_nat (length rest) < effective_batch_size 1)%Z ∧
        db out.1
          = upsert_all (fun k => Z.of_nat k)
              (concat (_dedupe_batch <$> (batches ++ [rest]))) (db half_world)
    | Raise exc =>
        db out.1 = upsert_all (fun k => Z.of_nat k)
                     (concat (_dedupe_batch <$> batches)) (db half_world) ∧
        rest ≠ [] ∧
        upsert_products_bulk (fun k => Z.of_nat k)
          (_dedupe_batch (take (Z.to_nat (effective_batch_size 1)) rest))
          default_chunk_size (db out.1) = Raise exc
    end.
Proof.
  split; [by vm_compute |].
  apply (import_keeps_batches_committed_before_failure csv_plain (fun k => Z.of_nat k)
           (fun _ => "db error") "t4" "/tmp/h2.csv" 1 half_world half_csv).
  - reflexivity.
  - apply (bool_decide_unpack _). vm_compute. exact I.
  - apply NoDup_nil_2.
Defined.
